(** * Numerical decision threshold analysis (ndt)

    A shallow embedding of the Python package [ndt] (thresholds.py,
    metrics.py, core.py) and the verification of its specification.

    - Python [int] is [Z]; Python [float] is IEEE-754 binary64, taken from
      the Standard Library's executable specification [SpecFloat] at
      precision 53 and maximal exponent 1024.  [a / b] on two ints is the
      correctly rounded quotient of the integers.
    - Exceptions are values, with the message they carry: every function
      that can raise returns a [result], sequenced by a small error
      monad.
    - Arguments that the code validates at run time ([y_true], [y_pred])
      are dynamically typed [object]s; arguments it only consumes
      ([scores], [thresholds]) are sequences of floats.  A function that
      traverses an argument once takes what the traversal yields: a
      list of floats, or the object that [list(...)] reads.
    - [analyze_threshold] and [sweep_thresholds] traverse [scores] and
      [y_true] more than once.  There an argument is either a value
      that yields the same elements at every traversal (a list, a
      tuple) or a one-shot iterator (a generator), which a traversal
      leaves empty; the state of the arguments is passed from one
      traversal to the next.  [scores], [y_true] and [thresholds] are
      distinct objects.
    - The dict returned by [metrics_from_counts] is the list of its items
      in insertion order.

    The file gives the model first ([Py], [Thresholds], [Metrics],
    [Report], [Core]), then the vocabulary of the specification ([Spec],
    [Rounding]), then the facts.  The facts about floats rest on
    [RoundingFacts], which shows that division, multiplication and
    addition of [SpecFloat] return the float nearest to the exact
    result (ties to even).  The modules [ThresholdsMore], [MetricsMore],
    [ReportMore] and [CoreMore] hold further properties of the code:
    symmetries and marginals of the counts, monotonicity in the
    threshold, and which exceptions can and cannot be raised. *)

From Stdlib Require Import ZArith List Bool Lia String Ascii.
From Stdlib Require Import Reals Lra Psatz.
From Stdlib Require Import DecimalString.
From Stdlib Require Import Floats.SpecFloat.
From Stdlib Require Import Permutation.
Import ListNotations.

Local Open Scope string_scope.
Local Open Scope Z_scope.
Set Warnings "-register-all".

(* ================================================================= *)
(** ** The fragment of Python the package relies on *)

Module Py.

(** Exceptions raised by the package or by the arithmetic it uses,
    with the message they carry. *)
Inductive exn : Type :=
| TypeError (msg : string)
| ValueError (msg : string)
| ZeroDivisionError (msg : string)
| OverflowError (msg : string).

Inductive result (A : Type) : Type :=
| Ok (a : A)
| Raise (e : exn).
Arguments Ok {A} a.
Arguments Raise {A} e.

Definition bind {A B} (r : result A) (k : A -> result B) : result B :=
  match r with
  | Ok a => k a
  | Raise e => Raise e
  end.

(** [str(n)] for an int. *)
Definition str_of_int (z : Z) : string := NilZero.string_of_int (Z.to_int z).

(** [len(l)], an int. *)
Definition len {A} (l : list A) : Z := Z.of_nat (List.length l).

(** *** Floats *)

Definition prec : Z := 53.
Definition emax : Z := 1024.

Definition float : Type := spec_float.

Definition fzero : float := S754_zero false.                      (* 0.0 *)
Definition fone : float := S754_finite false 4503599627370496 (-52).  (* 1.0 *)

Definition fadd : float -> float -> float := SFadd prec emax.
Definition fmul : float -> float -> float := SFmul prec emax.
Definition fdiv : float -> float -> float := SFdiv prec emax.
Definition feqb : float -> float -> bool := SFeqb.
Definition fleb : float -> float -> bool := SFleb.

(** [a >= b] on floats; false as soon as one side is NaN. *)
Definition fgeb (a b : float) : bool := fleb b a.

(** *** Numbers: the operands of the arithmetic in metrics.py *)

Inductive number : Type :=
| NInt (z : Z)
| NFloat (f : float).

(** [float(z)]: the nearest float, [OverflowError] beyond the range. *)
Definition float_of_int (z : Z) : result float :=
  match binary_normalize prec emax z 0 false with
  | S754_infinity _ => Raise (OverflowError "int too large to convert to float")
  | f => Ok f
  end.

(** [a / b] on ints: the correctly rounded quotient of the two integers,
    whatever their size. *)
Definition int_truediv (a b : Z) : result float :=
  if b =? 0 then Raise (ZeroDivisionError "division by zero")
  else if a =? 0 then Ok (S754_zero (b <? 0))
  else
    match fdiv (S754_finite (a <? 0) (Z.to_pos (Z.abs a)) 0)
               (S754_finite (b <? 0) (Z.to_pos (Z.abs b)) 0) with
    | S754_infinity _ =>
        Raise (OverflowError "integer division result too large for a float")
    | f => Ok f
    end.

(** [a / b] on floats. *)
Definition float_truediv (a b : float) : result float :=
  if feqb b fzero then Raise (ZeroDivisionError "float division by zero")
  else Ok (fdiv a b).

Definition to_float (a : number) : result float :=
  match a with
  | NInt z => float_of_int z
  | NFloat f => Ok f
  end.

Definition py_add (a b : number) : result number :=
  match a, b with
  | NInt x, NInt y => Ok (NInt (x + y))
  | _, _ =>
      match to_float a with
      | Raise e => Raise e
      | Ok x =>
          match to_float b with
          | Raise e => Raise e
          | Ok y => Ok (NFloat (fadd x y))
          end
      end
  end.

Definition py_mul (a b : number) : result number :=
  match a, b with
  | NInt x, NInt y => Ok (NInt (x * y))
  | _, _ =>
      match to_float a with
      | Raise e => Raise e
      | Ok x =>
          match to_float b with
          | Raise e => Raise e
          | Ok y => Ok (NFloat (fmul x y))
          end
      end
  end.

Definition py_truediv (a b : number) : result float :=
  match a, b with
  | NInt x, NInt y => int_truediv x y
  | _, _ =>
      match to_float a with
      | Raise e => Raise e
      | Ok x =>
          match to_float b with
          | Raise e => Raise e
          | Ok y => float_truediv x y
          end
      end
  end.

(** [d == 0] *)
Definition eq_zero (d : number) : bool :=
  match d with
  | NInt z => z =? 0
  | NFloat f => feqb f fzero
  end.

(** *** Objects *)

(** The values a caller can put into a label sequence. *)
Inductive object : Type :=
| PyInt (z : Z)
| PyBool (b : bool)
| PyFloat (f : float)
| PyStr (s : string)
| PyNone
| PyList (l : list object).

(** [type(v).__name__] *)
Definition type_name (v : object) : string :=
  match v with
  | PyInt _ => "int"
  | PyBool _ => "bool"
  | PyFloat _ => "float"
  | PyStr _ => "str"
  | PyNone => "NoneType"
  | PyList _ => "list"
  end.

(** [list(values)]: [None] stands for the [TypeError] raised on an
    object that is not iterable.  A string iterates over its
    characters. *)
Definition to_list (values : object) : option (list object) :=
  match values with
  | PyList l => Some l
  | PyStr s => Some (map (fun c => PyStr (String c EmptyString)) (list_ascii_of_string s))
  | _ => None
  end.

(** The instances of [int]: ints, and bools ([bool] is a subclass of
    [int]). *)
Inductive int_obj : Type :=
| IInt (z : Z)
| IBool (b : bool).

(** [isinstance(v, int)], with the instance when it holds. *)
Definition as_int (v : object) : option int_obj :=
  match v with
  | PyInt z => Some (IInt z)
  | PyBool b => Some (IBool b)
  | _ => None
  end.

Definition of_int_obj (v : int_obj) : object :=
  match v with
  | IInt z => PyInt z
  | IBool b => PyBool b
  end.

(** The integer an [int] instance compares as. *)
Definition int_value (v : int_obj) : Z :=
  match v with
  | IInt z => z
  | IBool true => 1
  | IBool false => 0
  end.

(** [str(v)], as an f-string formats it. *)
Definition int_str (v : int_obj) : string :=
  match v with
  | IInt z => str_of_int z
  | IBool true => "True"
  | IBool false => "False"
  end.

(** [v == label] for an int instance and an int. *)
Definition int_eqb (v : int_obj) (label : Z) : bool := int_value v =? label.

(** A list of ints, as an object. *)
Definition int_list (l : list Z) : object := PyList (map PyInt l).

(** *** Arguments that are traversed more than once

    A list, a tuple or a str yields the same elements at every
    traversal ([for ... in], [list(...)]).  A one-shot iterator (a
    generator, [iter(...)], [map(...)]) yields what is left of it and is
    empty afterwards. *)
Inductive iterable (A : Type) : Type :=
| Sequence (elements : list A)
| OneShot (rest : list A).
Arguments Sequence {A} elements.
Arguments OneShot {A} rest.

(** What a traversal yields. *)
Definition items {A} (x : iterable A) : list A :=
  match x with
  | Sequence l => l
  | OneShot l => l
  end.

(** The same object after a traversal. *)
Definition drained {A} (x : iterable A) : iterable A :=
  match x with
  | Sequence l => Sequence l
  | OneShot _ => OneShot []
  end.

(** An argument that is validated at run time: any object, read again
    at every [list(...)], or a one-shot iterator over objects. *)
Inductive argument : Type :=
| Object (o : object)
| Iterator (rest : list object).

(** The argument as [list(...)] reads it: a one-shot iterator is read
    as the list of what is left of it. *)
Definition view (a : argument) : object :=
  match a with
  | Object o => o
  | Iterator l => PyList l
  end.

(** The same argument after [list(...)] has read it. *)
Definition spent (a : argument) : argument :=
  match a with
  | Object o => Object o
  | Iterator _ => Iterator []
  end.

End Py.

Import Py.

Declare Scope py_scope.
Delimit Scope py_scope with py.
Notation "x <- c1 ;; c2" := (Py.bind c1 (fun x => c2))
  (at level 61, c1 at next level, right associativity) : py_scope.
Local Open Scope py_scope.

(* ================================================================= *)
(** ** thresholds.py *)

Module Thresholds.

(** The body of the [for] loop: one [append] per score. *)
Definition decide (threshold : float) (positive_label negative_label : Z)
           (decisions : list Z) (score : float) : list Z :=
  if fgeb score threshold
  then (decisions ++ [positive_label])%list
  else (decisions ++ [negative_label])%list.

Definition apply_threshold (scores : list float) (threshold : float)
           (positive_label negative_label : Z) : list Z :=
  fold_left (decide threshold positive_label negative_label) scores [].

End Thresholds.

(* ================================================================= *)
(** ** metrics.py: confusion counts *)

Module Metrics.

Record ConfusionCounts : Type := mkCounts
  { tp : Z;   (* predicted positive, actually positive *)
    fp : Z;   (* predicted positive, actually negative *)
    tn : Z;   (* predicted negative, actually negative *)
    fn : Z }. (* predicted negative, actually positive *)

(** The messages of the exceptions. *)
Definition not_iterable_msg (name : string) : string :=
  name ++ " must be an iterable of ints.".

Definition not_int_msg (name : string) (i : nat) (v : object) : string :=
  name ++ "[" ++ str_of_int (Z.of_nat i) ++ "] must be int, got " ++ type_name v ++ ".".

Definition length_msg (n_true n_pred : Z) : string :=
  "y_true and y_pred must have the same length. Got "
    ++ str_of_int n_true ++ " and " ++ str_of_int n_pred ++ ".".

Definition label_msg (name : string) (i : nat) (v : int_obj)
           (negative_label positive_label : Z) : string :=
  name ++ "[" ++ str_of_int (Z.of_nat i) ++ "]=" ++ int_str v ++ " is not in {"
    ++ str_of_int negative_label ++ ", " ++ str_of_int positive_label ++ "}.".

(** The loop of [_to_list_int] over [enumerate(out)], from index [i]. *)
Fixpoint check_ints (name : string) (i : nat) (out : list object)
  : result (list int_obj) :=
  match out with
  | [] => Ok []
  | v :: rest =>
      match as_int v with
      | None => Raise (TypeError (not_int_msg name i v))
      | Some n =>
          ns <- check_ints name (S i) rest ;;
          Ok (n :: ns)
      end
  end.

Definition _to_list_int (values : object) (name : string) : result (list int_obj) :=
  match to_list values with
  | None => Raise (TypeError (not_iterable_msg name))
  | Some out => check_ints name 0 out
  end.

(** [v in (positive_label, negative_label)] *)
Definition in_labels (v : int_obj) (positive_label negative_label : Z) : bool :=
  int_eqb v positive_label || int_eqb v negative_label.

(** The counter incremented for one pair of flags. *)
Definition tally (t_pos p_pos : bool) (c : ConfusionCounts) : ConfusionCounts :=
  if t_pos && p_pos then mkCounts (tp c + 1) (fp c) (tn c) (fn c)
  else if negb t_pos && p_pos then mkCounts (tp c) (fp c + 1) (tn c) (fn c)
  else if negb t_pos && negb p_pos then mkCounts (tp c) (fp c) (tn c + 1) (fn c)
  else mkCounts (tp c) (fp c) (tn c) (fn c + 1).

(** The loop over [enumerate(zip(yt, yp))], from index [i] with the
    counters [c]. *)
Fixpoint count_pairs (positive_label negative_label : Z) (strict_labels : bool)
         (i : nat) (pairs : list (int_obj * int_obj)) (c : ConfusionCounts)
  : result ConfusionCounts :=
  match pairs with
  | [] => Ok c
  | (t, p) :: rest =>
      if strict_labels && negb (in_labels t positive_label negative_label)
      then Raise (ValueError (label_msg "y_true" i t negative_label positive_label))
      else if strict_labels && negb (in_labels p positive_label negative_label)
      then Raise (ValueError (label_msg "y_pred" i p negative_label positive_label))
      else
        let t_pos := int_eqb t positive_label in
        let p_pos := int_eqb p positive_label in
        count_pairs positive_label negative_label strict_labels (S i) rest
                    (tally t_pos p_pos c)
  end.

Definition confusion_counts (y_true y_pred : object)
           (positive_label negative_label : Z) (strict_labels : bool)
  : result ConfusionCounts :=
  yt <- _to_list_int y_true "y_true" ;;
  yp <- _to_list_int y_pred "y_pred" ;;
  if negb (len yt =? len yp)
  then Raise (ValueError (length_msg (len yt) (len yp)))
  else count_pairs positive_label negative_label strict_labels 0
                   (combine yt yp) (mkCounts 0 0 0 0).

End Metrics.

(* ================================================================= *)
(** ** metrics.py: derived metrics *)

Module Report.

Import Metrics.

(** The values of the dict returned by [metrics_from_counts]. *)
Inductive value : Type :=
| VFloat (f : float)
| VCounts (d : list (string * Z)).

(** A dict literal, keys in insertion order. *)
Definition MetricsReport : Type := list (string * value).

(** [m[key]] *)
Fixpoint get {V} (key : string) (m : list (string * V)) : option V :=
  match m with
  | [] => None
  | (k, v) :: rest => if String.eqb k key then Some v else get key rest
  end.

(** [m[key]] when it is a float. *)
Definition get_float (key : string) (m : MetricsReport) : option float :=
  match get key m with
  | Some (VFloat f) => Some f
  | _ => None
  end.

Definition safe_div (n d : number) : result float :=
  if eq_zero d then Ok fzero else py_truediv n d.

Definition metrics_from_counts (c : ConfusionCounts) : result MetricsReport :=
  let tp := tp c in
  let fp := fp c in
  let tn := tn c in
  let fn := fn c in
  let total := tp + fp + tn + fn in
  accuracy <- safe_div (NInt (tp + tn)) (NInt total) ;;
  precision <- safe_div (NInt tp) (NInt (tp + fp)) ;;
  recall <- safe_div (NInt tp) (NInt (tp + fn)) ;;
  specificity <- safe_div (NInt tn) (NInt (tn + fp)) ;;
  two_p <- py_mul (NInt 2) (NFloat precision) ;;
  two_p_r <- py_mul two_p (NFloat recall) ;;
  p_plus_r <- py_add (NFloat precision) (NFloat recall) ;;
  f1 <- safe_div two_p_r p_plus_r ;;
  fpr <- safe_div (NInt fp) (NInt (fp + tn)) ;;
  fnr <- safe_div (NInt fn) (NInt (fn + tp)) ;;
  Ok [ ("counts", VCounts [("tp", tp); ("fp", fp); ("tn", tn); ("fn", fn)]);
       ("accuracy", VFloat accuracy);
       ("precision", VFloat precision);
       ("recall", VFloat recall);
       ("specificity", VFloat specificity);
       ("f1", VFloat f1);
       ("fpr", VFloat fpr);
       ("fnr", VFloat fnr) ].

Definition binary_metrics (y_true y_pred : object)
           (positive_label negative_label : Z) (strict_labels : bool)
  : result MetricsReport :=
  c <- confusion_counts y_true y_pred positive_label negative_label strict_labels ;;
  metrics_from_counts c.

End Report.

(* ================================================================= *)
(** ** core.py *)

Module Core.

Import Thresholds Metrics Report.

Record ThresholdAnalysisResult : Type := mkResult
  { threshold : float;
    y_pred : list Z;
    counts : ConfusionCounts;
    metrics : MetricsReport }.

(** [apply_threshold] traverses [scores]; [confusion_counts] reads
    [y_true] with [list(...)], and [binary_metrics] reads it again. *)
Definition analyze_threshold (scores : iterable float) (y_true : argument)
           (threshold : float) (positive_label negative_label : Z)
           (strict_labels : bool) : result ThresholdAnalysisResult :=
  let y_pred := apply_threshold (items scores) threshold
                                positive_label negative_label in
  counts <- confusion_counts (view y_true) (int_list y_pred)
                             positive_label negative_label strict_labels ;;
  metrics <- binary_metrics (view (spent y_true)) (int_list y_pred)
                            positive_label negative_label strict_labels ;;
  Ok (mkResult threshold y_pred counts metrics).

(** The [for] loop of [sweep_thresholds], with the list built so far.
    [thresholds] is traversed once: the list is what the traversal
    yields.  A call of [analyze_threshold] that returns has traversed
    [scores] and [y_true]; the next call gets them as it left them. *)
Fixpoint sweep_loop (scores : iterable float) (y_true : argument)
         (positive_label negative_label : Z) (strict_labels : bool)
         (thresholds : list float) (results : list ThresholdAnalysisResult)
  : result (list ThresholdAnalysisResult) :=
  match thresholds with
  | [] => Ok results
  | th :: rest =>
      r <- analyze_threshold scores y_true th
                             positive_label negative_label strict_labels ;;
      sweep_loop (drained scores) (spent y_true)
                 positive_label negative_label strict_labels
                 rest (results ++ [r])%list
  end.

Definition sweep_thresholds (scores : iterable float) (y_true : argument)
           (thresholds : list float) (positive_label negative_label : Z)
           (strict_labels : bool) : result (list ThresholdAnalysisResult) :=
  sweep_loop scores y_true positive_label negative_label strict_labels
             thresholds [].

End Core.

(* ================================================================= *)
(** ** Vocabulary of the specification *)

Module Spec.

Import Metrics.

(** The names the package gives to its two label sequences. *)
Definition sequence_name (name : string) : Prop :=
  name = "y_true" \/ name = "y_pred".

(** TypeKind: element [i] of sequence [name] is [v], not an int. *)
Definition TypeKind (name : string) (i : nat) (v : object) (e : exn) : Prop :=
  e = TypeError (not_int_msg name i v).

(** LengthMismatch: the two sequences have lengths [a] and [b]. *)
Definition LengthMismatch (e : exn) : Prop :=
  exists a b, e = ValueError (length_msg a b).

(** LabelDomainError: element [i] of sequence [name] is [v], outside
    the two labels. *)
Definition LabelDomain (name : string) (i : nat) (v : int_obj)
           (negative_label positive_label : Z) (e : exn) : Prop :=
  e = ValueError (label_msg name i v negative_label positive_label).

Definition LabelDomainError (e : exn) : Prop :=
  exists name i v neg pos,
    sequence_name name /\ LabelDomain name i v neg pos e.

(** The sum of the four counters. *)
Definition total (c : ConfusionCounts) : Z := tp c + fp c + tn c + fn c.

(** A label outside [{positive_label, negative_label}]. *)
Definition foreign (positive_label negative_label : Z) (v : int_obj) : Prop :=
  in_labels v positive_label negative_label = false.

(** The number of pairs that satisfy [f]. *)
Definition count_if {A} (f : A -> bool) (l : list A) : Z := len (filter f l).

(** The integer a float equals, when there is one. *)
Definition integer_valued (f : float) : option Z :=
  match f with
  | S754_zero _ => Some 0
  | S754_finite s m e =>
      let sign := if s then -1 else 1 in
      if 0 <=? e then Some (sign * (Z.pos m * 2 ^ e))
      else if Z.pos m mod 2 ^ (- e) =? 0 then Some (sign * (Z.pos m / 2 ^ (- e)))
      else None
  | _ => None
  end.

(** "Representable as an integer": the integer an element stands for,
    when there is one. *)
Definition representable_as_int (v : object) : option Z :=
  match v with
  | PyInt z => Some z
  | PyBool b => Some (if b then 1 else 0)
  | PyFloat f => integer_valued f
  | _ => None
  end.

(** The float [2.0]. *)
Definition two : float := S754_finite false 4503599627370496 (-51).

(** The float nearest to [n / d]: the value of a decimal literal, e.g.
    [0.2] is [literal 2 10]. *)
Definition literal (n d : Z) : float :=
  match int_truediv n d with
  | Ok f => f
  | Raise _ => S754_nan
  end.

(** The reference ratio [n / d] of two integer counts under the
    safe-division rule: 0.0 when [d] is zero, the float nearest to the
    quotient otherwise. *)
Definition ratio (n d : Z) : float :=
  if d =? 0 then fzero else literal n d.

(** The reference f1 of a precision and a recall,
    [2 * p * r / (p + r)] under the safe-division rule. *)
Definition harmonic (p r : float) : float :=
  if feqb (fadd p r) fzero then fzero
  else fdiv (fmul (fmul two p) r) (fadd p r).

(** The label one score receives. *)
Definition label_of (threshold : float) (positive_label negative_label : Z)
           (score : float) : Z :=
  if fgeb score threshold then positive_label else negative_label.

(** Flags of a pair: is the true label positive, is the predicted one. *)
Definition flags (positive_label : Z) (tp : int_obj * int_obj) : bool * bool :=
  (int_eqb (fst tp) positive_label, int_eqb (snd tp) positive_label).

(** The seven ratios of a report. *)
Definition ratio_keys : list string :=
  ["accuracy"; "precision"; "recall"; "specificity"; "f1"; "fpr"; "fnr"].

(** One call per element, in order, stopping at the first exception. *)
Fixpoint each {A B} (f : A -> result B) (l : list A) : result (list B) :=
  match l with
  | [] => Ok []
  | a :: rest =>
      b <- f a ;;
      bs <- each f rest ;;
      Ok (b :: bs)
  end.

End Spec.

(* ================================================================= *)
(** ** Vocabulary for the floating-point results

    The value of a float as a real number, and what it means for a float
    to be the correctly rounded image of a real number: binary64,
    round to nearest, ties to even. *)

Module Rounding.

(** [2 ^ e] for an integer exponent. *)
Definition bpow (e : Z) : R := powerRZ 2 e.

(** The real number [m * 2 ^ e]. *)
Definition F2R (m e : Z) : R := (IZR m * bpow e)%R.

(** The real value of a float; infinities and NaN are given 0 and are
    excluded by [good] wherever the value is used. *)
Definition SF2R (f : float) : R :=
  match f with
  | S754_finite s m e => F2R (cond_Zopp s (Z.pos m)) e
  | _ => 0%R
  end.

(** Where [x] lies in the cell from [m * 2 ^ e] to [(m + 1) * 2 ^ e]:
    on its lower end, below, at or above its middle. *)
Definition located (x : R) (m e : Z) (l : location) : Prop :=
  match l with
  | loc_Exact => x = F2R m e
  | loc_Inexact Lt => (F2R m e < x < (IZR m + 1/2) * bpow e)%R
  | loc_Inexact Eq => x = ((IZR m + 1/2) * bpow e)%R
  | loc_Inexact Gt => ((IZR m + 1/2) * bpow e < x < F2R (m + 1) e)%R
  end.

(** [K] is the integer nearest to [t], the even one on a tie. *)
Definition nearest_even (t : R) (K : Z) : Prop :=
  (IZR K - 1/2 <= t <= IZR K + 1/2)%R
  /\ (t = (IZR K - 1/2)%R \/ t = (IZR K + 1/2)%R -> Z.even K = true).

(** The smallest exponent of binary64 and the exponent of the floats of
    a binade: 53 bits of mantissa, never below [emin]. *)
Definition emin : Z := -1074.
Definition fexp (e : Z) : Z := Z.max (e - 53) emin.

(** A mantissa in canonical position: 53 bits, or fewer at [emin]. *)
Definition canonical (m : positive) (e : Z) : Prop :=
  e = fexp (Zdigits2 (Z.pos m) + e).

(** The non-negative finite floats of binary64. *)
Definition good (f : float) : Prop :=
  match f with
  | S754_zero false => True
  | S754_finite false m e => canonical m e /\ e <= 971
  | _ => False
  end.

(** The non-negative real numbers of the format: at most 53 bits of
    mantissa, an exponent in range. *)
Definition representable (v : R) : Prop :=
  exists Y E, 0 <= Y < 2 ^ 53 /\ emin <= E <= 971 /\ v = F2R Y E.

(** The float of mantissa [K] and exponent [e], for [0 <= K <= 2 ^ 53]:
    a carry into the 54th bit moves to the next exponent, an exponent
    above 971 overflows. *)
Definition encode (K e : Z) : float :=
  match K with
  | Z0 => S754_zero false
  | Zpos p =>
      if K =? 2 ^ 53
      then if e + 1 <=? 971 then S754_finite false 4503599627370496 (e + 1)
           else S754_infinity false
      else if e <=? 971 then S754_finite false p e else S754_infinity false
  | Zneg _ => S754_nan
  end.

(** [f] is the float nearest to [x >= 0], ties to even: [x] lies in the
    binade below [2 ^ k], or below the smallest one, and the mantissa of
    [f] at the exponent of that binade is the nearest integer. *)
Definition rounds_to (x : R) (f : float) : Prop :=
  exists k K,
    (x < bpow k)%R
    /\ ((bpow (k - 1) <= x)%R \/ k <= emin)
    /\ nearest_even (x / bpow (fexp k)) K
    /\ 0 <= K <= 2 ^ 53
    /\ (emin < fexp k -> 2 ^ 52 <= K)
    /\ f = encode K (fexp k).

End Rounding.

(* ================================================================= *)
(** ** Vocabulary for the further properties *)

Module Derived.

Import Metrics Report Spec.

(** A list of int instances, as an object. *)
Definition seq_obj (l : list int_obj) : object := PyList (map of_int_obj l).

(** The counts with the roles of [y_true] and [y_pred] exchanged. *)
Definition transpose (c : ConfusionCounts) : ConfusionCounts :=
  mkCounts (tp c) (fn c) (tn c) (fp c).

(** The counts with the two classes exchanged. *)
Definition swap_classes (c : ConfusionCounts) : ConfusionCounts :=
  mkCounts (tn c) (fn c) (tp c) (fp c).

Definition add_counts (c1 c2 : ConfusionCounts) : ConfusionCounts :=
  mkCounts (tp c1 + tp c2) (fp c1 + fp c2) (tn c1 + tn c2) (fn c1 + fn c2).

Definition scale_counts (k : Z) (c : ConfusionCounts) : ConfusionCounts :=
  mkCounts (k * tp c) (k * fp c) (k * tn c) (k * fn c).

(** The number of elements equal to [positive_label]. *)
Definition positives (positive_label : Z) (l : list int_obj) : Z :=
  count_if (fun v => int_eqb v positive_label) l.

(** The number of scores [>= threshold]. *)
Definition at_least (threshold : float) (scores : list float) : Z :=
  count_if (fun s => fgeb s threshold) scores.

(** Both labels of a pair are among the two labels. *)
Definition pair_ok (positive_label negative_label : Z)
           (tp : int_obj * int_obj) : bool :=
  in_labels (fst tp) positive_label negative_label
  && in_labels (snd tp) positive_label negative_label.

(** The counts of a list of pairs: a plain tally of the flags. *)
Definition tally_all (positive_label : Z) (pairs : list (int_obj * int_obj))
  : ConfusionCounts :=
  fold_left (fun c tp => tally (int_eqb (fst tp) positive_label)
                               (int_eqb (snd tp) positive_label) c)
            pairs (mkCounts 0 0 0 0).

(** The report of counts [c], with the reference formulas. *)
Definition report_of (c : ConfusionCounts) : MetricsReport :=
  [ ("counts", VCounts [("tp", tp c); ("fp", fp c); ("tn", tn c); ("fn", fn c)]);
    ("accuracy", VFloat (ratio (tp c + tn c) (tp c + fp c + tn c + fn c)));
    ("precision", VFloat (ratio (tp c) (tp c + fp c)));
    ("recall", VFloat (ratio (tp c) (tp c + fn c)));
    ("specificity", VFloat (ratio (tn c) (tn c + fp c)));
    ("f1", VFloat (harmonic (ratio (tp c) (tp c + fp c))
                            (ratio (tp c) (tp c + fn c))));
    ("fpr", VFloat (ratio (fp c) (fp c + tn c)));
    ("fnr", VFloat (ratio (fn c) (fn c + tp c))) ].

End Derived.

(* ================================================================= *)
(** ** Thresholding *)

Module ThresholdsFacts.

Import Thresholds Spec.

Lemma decide_label threshold pos neg decisions score :
  decide threshold pos neg decisions score
  = (decisions ++ [label_of threshold pos neg score])%list.
Proof. unfold decide, label_of. now destruct (fgeb score threshold). Qed.

Lemma fold_decide threshold pos neg scores : forall decisions,
  fold_left (decide threshold pos neg) scores decisions
  = (decisions ++ map (label_of threshold pos neg) scores)%list.
Proof.
  induction scores as [|s scores IH]; intros decisions; simpl.
  - now rewrite app_nil_r.
  - rewrite IH, decide_label, <- app_assoc. reflexivity.
Qed.

Lemma apply_threshold_map scores threshold pos neg :
  apply_threshold scores threshold pos neg
  = map (label_of threshold pos neg) scores.
Proof. unfold apply_threshold. now rewrite fold_decide. Qed.

Lemma apply_threshold_length scores threshold pos neg :
  List.length (apply_threshold scores threshold pos neg) = List.length scores.
Proof. rewrite apply_threshold_map. apply length_map. Qed.

(** On floats, [a == b] entails [a >= b]. *)
Lemma feqb_fgeb (a b : float) : feqb a b = true -> fgeb a b = true.
Proof.
  unfold feqb, fgeb, fleb, SFeqb, SFleb.
  destruct a as [sa|sa| |sa ma ea], b as [sb|sb| |sb mb eb]; simpl;
    try discriminate; try reflexivity;
    try (destruct sa; discriminate); try (destruct sb; discriminate);
    try (destruct sa, sb; simpl; congruence).
  destruct sa, sb; try discriminate;
    rewrite (Z.compare_antisym ea eb);
    destruct (ea ?= eb); simpl; try discriminate;
    change (Pos.compare_cont Eq) with Pos.compare;
    rewrite (Pos.compare_antisym ma mb);
    destruct (ma ?= mb)%positive; simpl; congruence.
Qed.

(** C1: [apply_threshold] returns, in order, one label per score:
    [positive_label] when the score is [>=] the threshold and
    [negative_label] otherwise.  The output has the length of the input;
    a score equal to the threshold receives [positive_label]; every
    output element is one of the two labels; the empty input gives the
    empty output. *)
Theorem apply_threshold_spec :
  forall (scores : list float) (t : float) (pos neg : Z),
    apply_threshold scores t pos neg
    = map (fun s => if fgeb s t then pos else neg) scores
    /\ List.length (apply_threshold scores t pos neg) = List.length scores
    /\ (forall i s, nth_error scores i = Some s ->
          nth_error (apply_threshold scores t pos neg) i
          = Some (if fgeb s t then pos else neg))
    /\ (forall i s, nth_error scores i = Some s -> feqb s t = true ->
          nth_error (apply_threshold scores t pos neg) i = Some pos)
    /\ Forall (fun l => l = pos \/ l = neg) (apply_threshold scores t pos neg)
    /\ apply_threshold [] t pos neg = [].
Proof.
  intros scores t pos neg.
  assert (Hnth : forall i s, nth_error scores i = Some s ->
            nth_error (apply_threshold scores t pos neg) i
            = Some (if fgeb s t then pos else neg)).
  { intros i s Hs. rewrite apply_threshold_map.
    now rewrite nth_error_map, Hs. }
  repeat split.
  - apply apply_threshold_map.
  - apply apply_threshold_length.
  - exact Hnth.
  - intros i s Hs Heq. rewrite (Hnth i s Hs).
    now rewrite (feqb_fgeb s t Heq).
  - rewrite apply_threshold_map. apply Forall_forall.
    intros l Hl. apply in_map_iff in Hl. destruct Hl as [s [<- _]].
    unfold label_of. destruct (fgeb s t); auto.
Qed.

End ThresholdsFacts.

(* ================================================================= *)
(** ** Confusion counts *)

Module MetricsFacts.

Import Metrics Spec.

(** *** Materialisation: [_to_list_int] *)

Lemma as_int_of_int_obj n : as_int (of_int_obj n) = Some n.
Proof. now destruct n. Qed.

Lemma as_int_Some v n : as_int v = Some n -> v = of_int_obj n.
Proof. destruct v; simpl; try discriminate; now intros [= <-]. Qed.

Lemma of_int_obj_inj a b : of_int_obj a = of_int_obj b -> a = b.
Proof.
  intros H. apply (f_equal as_int) in H.
  rewrite !as_int_of_int_obj in H. now injection H.
Qed.

Lemma check_ints_ok name out : forall i l,
  check_ints name i out = Ok l <-> out = map of_int_obj l.
Proof.
  induction out as [|v out IH]; intros i l; simpl.
  - split.
    + now intros [= <-].
    + intros H. destruct l; [reflexivity | discriminate].
  - destruct (as_int v) as [n|] eqn:Hv.
    + apply as_int_Some in Hv. subst v.
      destruct (check_ints name (S i) out) as [ns|e] eqn:Hrest; simpl.
      * apply IH in Hrest. subst out. split.
        -- now intros [= <-].
        -- intros H. destruct l as [|n' l]; [discriminate|].
           simpl in H. injection H as Hn Hl.
           apply of_int_obj_inj in Hn. subst n'.
           apply (IH (S i)) in Hl.
           assert (Hns : check_ints name (S i) (map of_int_obj ns) = Ok ns)
             by now apply IH.
           congruence.
      * split; [discriminate|].
        intros H. destruct l as [|n' l]; [discriminate|].
        simpl in H. injection H as _ Hl.
        apply (IH (S i)) in Hl. congruence.
    + split; [discriminate|].
      intros H. destruct l as [|n' l]; [discriminate|].
      simpl in H. injection H as Hn _. subst v.
      now rewrite as_int_of_int_obj in Hv.
Qed.

Lemma check_ints_length name out : forall i l,
  check_ints name i out = Ok l -> List.length l = List.length out.
Proof.
  intros i l H. apply check_ints_ok in H. subst out.
  now rewrite length_map.
Qed.

(** When the loop raises, it is at the first element that is not an
    int instance. *)
Lemma check_ints_raise name out : forall i e,
  check_ints name i out = Raise e ->
  exists pre v post,
    out = (map of_int_obj pre ++ v :: post)%list
    /\ as_int v = None
    /\ e = TypeError (not_int_msg name (i + List.length pre) v).
Proof.
  induction out as [|v out IH]; intros i e; simpl; [discriminate|].
  destruct (as_int v) as [n|] eqn:Hv.
  - apply as_int_Some in Hv. subst v.
    destruct (check_ints name (S i) out) as [ns|e'] eqn:Hrest; simpl;
      [discriminate|].
    intros [= <-]. destruct (IH _ _ Hrest) as (pre & v & post & -> & Hn & ->).
    exists (n :: pre), v, post. repeat split; try assumption.
    simpl. do 3 f_equal. lia.
  - intros [= <-]. exists [], v, out. repeat split; try assumption.
    simpl. do 3 f_equal. lia.
Qed.

(** Conversely the loop raises as soon as one element is not an int
    instance. *)
Lemma check_ints_first name pre v post i :
  as_int v = None ->
  check_ints name i (map of_int_obj pre ++ v :: post)
  = Raise (TypeError (not_int_msg name (i + List.length pre) v)).
Proof.
  revert i. induction pre as [|n pre IH]; intros i Hv; simpl.
  - rewrite Hv. do 3 f_equal. lia.
  - rewrite as_int_of_int_obj, (IH (S i) Hv). simpl. do 3 f_equal. lia.
Qed.

Lemma to_list_int_int_list l name :
  _to_list_int (int_list l) name = Ok (map IInt l).
Proof.
  unfold _to_list_int, int_list. simpl. apply check_ints_ok.
  rewrite map_map. reflexivity.
Qed.

(** *** The counting loop *)

Lemma tally_total t_pos p_pos c : total (tally t_pos p_pos c) = total c + 1.
Proof. unfold tally, total. destruct t_pos, p_pos; simpl; lia. Qed.

(** Each pair increments exactly one counter, by one. *)
Lemma tally_one t_pos p_pos c :
  tally t_pos p_pos c
  = match t_pos, p_pos with
    | true, true => mkCounts (tp c + 1) (fp c) (tn c) (fn c)
    | false, true => mkCounts (tp c) (fp c + 1) (tn c) (fn c)
    | false, false => mkCounts (tp c) (fp c) (tn c + 1) (fn c)
    | true, false => mkCounts (tp c) (fp c) (tn c) (fn c + 1)
    end.
Proof. unfold tally. now destruct t_pos, p_pos. Qed.

Lemma count_pairs_total pos neg strict pairs : forall i c c',
  count_pairs pos neg strict i pairs c = Ok c' ->
  total c' = total c + len pairs.
Proof.
  unfold len.
  induction pairs as [|[t p] pairs IH]; intros i c c'; simpl.
  - intros [= <-]. lia.
  - destruct (strict && negb (in_labels t pos neg)); [discriminate|].
    destruct (strict && negb (in_labels p pos neg)); [discriminate|].
    intros H. apply IH in H. rewrite tally_total in H. lia.
Qed.

(** Without strict validation the loop is a plain fold and cannot
    raise. *)
Lemma count_pairs_lenient pos neg pairs : forall i c,
  count_pairs pos neg false i pairs c
  = Ok (fold_left (fun c tp => tally (int_eqb (fst tp) pos) (int_eqb (snd tp) pos) c)
                  pairs c).
Proof.
  induction pairs as [|[t p] pairs IH]; intros i c; simpl; [reflexivity|].
  apply IH.
Qed.

(** With strict validation the loop raises only on a foreign label, and
    names it. *)
Lemma count_pairs_raise pos neg strict pairs : forall i c e,
  count_pairs pos neg strict i pairs c = Raise e ->
  strict = true /\
  exists pre t p post,
    pairs = (pre ++ (t, p) :: post)%list
    /\ Forall (fun tp => in_labels (fst tp) pos neg = true
                         /\ in_labels (snd tp) pos neg = true) pre
    /\ ((foreign pos neg t
         /\ e = ValueError (label_msg "y_true" (i + List.length pre) t neg pos))
        \/ (in_labels t pos neg = true /\ foreign pos neg p
            /\ e = ValueError (label_msg "y_pred" (i + List.length pre) p neg pos))).
Proof.
  unfold foreign.
  induction pairs as [|[t p] pairs IH]; intros i c e; simpl; [discriminate|].
  destruct strict; simpl.
  - destruct (in_labels t pos neg) eqn:Ht; simpl.
    + destruct (in_labels p pos neg) eqn:Hp; simpl.
      * intros H. apply IH in H.
        destruct H as (_ & pre & t' & p' & post & -> & Hpre & Hcase).
        split; [reflexivity|].
        exists ((t, p) :: pre), t', p', post. split; [reflexivity|].
        split; [constructor; auto|].
        simpl. replace (i + S (List.length pre))%nat with (S i + List.length pre)%nat by lia.
        exact Hcase.
      * intros [= <-]. split; [reflexivity|].
        exists [], t, p, pairs. split; [reflexivity|]. split; [constructor|].
        right. simpl. now rewrite Nat.add_0_r.
    + intros [= <-]. split; [reflexivity|].
      exists [], t, p, pairs. split; [reflexivity|]. split; [constructor|].
      left. simpl. now rewrite Nat.add_0_r.
  - intros H. rewrite count_pairs_lenient in H. discriminate.
Qed.

(** With strict validation and no foreign label the loop returns. *)
Lemma count_pairs_strict_ok pos neg pairs : forall i c,
  Forall (fun tp => in_labels (fst tp) pos neg = true
                    /\ in_labels (snd tp) pos neg = true) pairs ->
  exists c', count_pairs pos neg true i pairs c = Ok c'.
Proof.
  induction pairs as [|[t p] pairs IH]; intros i c Hall; simpl.
  - now exists c.
  - inversion Hall as [|x l [Ht Hp] Hrest]; subst. simpl in Ht, Hp.
    rewrite Ht, Hp. simpl. now apply IH.
Qed.

(** The first foreign label stops the strict loop. *)
Lemma count_pairs_strict_first pos neg pre t p post : forall i c,
  Forall (fun tp => in_labels (fst tp) pos neg = true
                    /\ in_labels (snd tp) pos neg = true) pre ->
  in_labels t pos neg && in_labels p pos neg = false ->
  count_pairs pos neg true i (pre ++ (t, p) :: post) c
  = Raise (ValueError
             (if in_labels t pos neg
              then label_msg "y_pred" (i + List.length pre) p neg pos
              else label_msg "y_true" (i + List.length pre) t neg pos)).
Proof.
  induction pre as [|[t' p'] pre IH]; intros i c Hpre Hbad; simpl.
  - rewrite Nat.add_0_r.
    destruct (in_labels t pos neg); simpl in *; [|reflexivity].
    now rewrite Hbad.
  - inversion Hpre as [|x l [Ht Hp] Hrest]; subst. simpl in Ht, Hp.
    rewrite Ht, Hp. simpl. rewrite (IH (S i) _ Hrest Hbad).
    now replace (i + S (List.length pre))%nat with (S i + List.length pre)%nat by lia.
Qed.

(** *** The messages tell the kinds of error apart *)

Lemma label_msg_not_length_msg name i v neg pos a b :
  sequence_name name -> label_msg name i v neg pos <> length_msg a b.
Proof.
  intros [-> | ->] H; unfold label_msg, length_msg in H; simpl in H;
    discriminate H.
Qed.

Lemma ValueError_inj m1 m2 : ValueError m1 = ValueError m2 -> m1 = m2.
Proof. congruence. Qed.

Lemma LengthMismatch_not_LabelDomainError e :
  LengthMismatch e -> ~ LabelDomainError e.
Proof.
  intros (a & b & ->) (name & i & v & neg & pos & Hname & Hl).
  unfold LabelDomain in Hl. apply ValueError_inj in Hl.
  symmetry in Hl. now apply label_msg_not_length_msg in Hl.
Qed.

Lemma TypeError_not_LabelDomainError msg : ~ LabelDomainError (TypeError msg).
Proof. intros (name & i & v & neg & pos & _ & Hl). discriminate Hl. Qed.

Lemma TypeError_not_LengthMismatch msg : ~ LengthMismatch (TypeError msg).
Proof. intros (a & b & H). discriminate H. Qed.

(** *** [confusion_counts] *)

Lemma len_eqb {A B} (a : list A) (b : list B) :
  (len a =? len b) = Nat.eqb (List.length a) (List.length b).
Proof.
  unfold len. destruct (Nat.eqb_spec (List.length a) (List.length b)) as [H|H].
  - rewrite H. apply Z.eqb_refl.
  - apply Z.eqb_neq. lia.
Qed.

(** The three stages of [confusion_counts], once both sequences are
    materialised. *)
Lemma confusion_counts_materialised y_true y_pred yt yp pos neg strict :
  _to_list_int y_true "y_true" = Ok yt ->
  _to_list_int y_pred "y_pred" = Ok yp ->
  confusion_counts y_true y_pred pos neg strict
  = if Nat.eqb (List.length yt) (List.length yp)
    then count_pairs pos neg strict 0 (combine yt yp) (mkCounts 0 0 0 0)
    else Raise (ValueError (length_msg (len yt) (len yp))).
Proof.
  intros Ht Hp. unfold confusion_counts. rewrite Ht, Hp. simpl.
  rewrite len_eqb. now destruct (Nat.eqb _ _).
Qed.

Lemma confusion_counts_Ok_inv y_true y_pred pos neg strict c :
  confusion_counts y_true y_pred pos neg strict = Ok c ->
  exists yt yp,
    _to_list_int y_true "y_true" = Ok yt
    /\ _to_list_int y_pred "y_pred" = Ok yp
    /\ List.length yt = List.length yp
    /\ count_pairs pos neg strict 0 (combine yt yp) (mkCounts 0 0 0 0) = Ok c.
Proof.
  intros H.
  destruct (_to_list_int y_true "y_true") as [yt|e] eqn:Ht;
    [|unfold confusion_counts in H; rewrite Ht in H; discriminate].
  destruct (_to_list_int y_pred "y_pred") as [yp|e] eqn:Hp;
    [|unfold confusion_counts in H; rewrite Ht, Hp in H; discriminate].
  rewrite (confusion_counts_materialised _ _ _ _ _ _ _ Ht Hp) in H.
  destruct (Nat.eqb_spec (List.length yt) (List.length yp)) as [Hlen|Hlen];
    [|discriminate].
  now exists yt, yp.
Qed.

(** C4: whenever [confusion_counts] returns, the two sequences were
    integer sequences of equal length and the four counters add up to
    that length: [tp + fp + tn + fn == len(y_true)].  Each compared pair
    adds one to exactly one counter. *)
Theorem confusion_counts_conservation :
  forall (y_true y_pred : object) (pos neg : Z) (strict : bool)
         (c : ConfusionCounts),
    confusion_counts y_true y_pred pos neg strict = Ok c ->
    (exists yt yp,
        _to_list_int y_true "y_true" = Ok yt
        /\ _to_list_int y_pred "y_pred" = Ok yp
        /\ List.length yt = List.length yp
        /\ tp c + fp c + tn c + fn c = len yt)
    /\ (forall t_pos p_pos c0,
           tally t_pos p_pos c0
           = match t_pos, p_pos with
             | true, true => mkCounts (tp c0 + 1) (fp c0) (tn c0) (fn c0)
             | false, true => mkCounts (tp c0) (fp c0 + 1) (tn c0) (fn c0)
             | false, false => mkCounts (tp c0) (fp c0) (tn c0 + 1) (fn c0)
             | true, false => mkCounts (tp c0) (fp c0) (tn c0) (fn c0 + 1)
             end).
Proof.
  intros y_true y_pred pos neg strict c H. split; [|apply tally_one].
  destruct (confusion_counts_Ok_inv _ _ _ _ _ _ H) as (yt & yp & Ht & Hp & Hlen & Hc).
  exists yt, yp. repeat split; try assumption.
  apply count_pairs_total in Hc. unfold total in Hc. simpl in Hc.
  rewrite Hc. unfold len. rewrite length_combine, <- Hlen, Nat.min_id. lia.
Qed.

Lemma confusion_counts_conservation_witness :
  (exists yt yp,
      _to_list_int (int_list [1; 0; 1; 0]) "y_true" = Ok yt
      /\ _to_list_int (int_list [1; 1; 0; 0]) "y_pred" = Ok yp
      /\ List.length yt = List.length yp
      /\ 1 + 1 + 1 + 1 = len yt)
  /\ (forall t_pos p_pos c0,
         tally t_pos p_pos c0
         = match t_pos, p_pos with
           | true, true => mkCounts (tp c0 + 1) (fp c0) (tn c0) (fn c0)
           | false, true => mkCounts (tp c0) (fp c0 + 1) (tn c0) (fn c0)
           | false, false => mkCounts (tp c0) (fp c0) (tn c0 + 1) (fn c0)
           | true, false => mkCounts (tp c0) (fp c0) (tn c0) (fn c0 + 1)
           end).
Proof.
  apply (confusion_counts_conservation
           (int_list [1; 0; 1; 0]) (int_list [1; 1; 0; 0]) 1 0 true
           (mkCounts 1 1 1 1)).
  reflexivity.
Defined.

(** *** Strict validation *)

(** A list either satisfies a test everywhere or has a first element
    that fails it. *)
Lemma first_failure {A} (f : A -> bool) (l : list A) :
  Forall (fun x => f x = true) l
  \/ exists pre x post,
      l = (pre ++ x :: post)%list
      /\ Forall (fun x => f x = true) pre /\ f x = false.
Proof.
  induction l as [|a l IH]; [left; constructor|].
  destruct (f a) eqn:Ha.
  - destruct IH as [IH | (pre & x & post & -> & Hpre & Hx)].
    + left. now constructor.
    + right. exists (a :: pre), x, post. repeat split; auto.
  - right. exists [], a, l. repeat split; auto.
Qed.

Lemma nth_error_combine {A B} (a : list A) (b : list B) : forall k x y,
  nth_error (combine a b) k = Some (x, y) ->
  nth_error a k = Some x /\ nth_error b k = Some y.
Proof.
  revert b. induction a as [|a0 a IH]; intros [|b0 b] [|k] x y; simpl;
    try discriminate.
  - now intros [= <- <-].
  - apply IH.
Qed.

Lemma Forall_combine {A B} (P : A -> Prop) (Q : B -> Prop) (a : list A) :
  forall b : list B,
    List.length a = List.length b ->
    (Forall (fun ab => P (fst ab) /\ Q (snd ab)) (combine a b)
     <-> Forall P a /\ Forall Q b).
Proof.
  induction a as [|a0 a IH]; intros [|b0 b] Hlen; simpl in *; try discriminate.
  - split; [intros _; split; constructor | intros _; constructor].
  - injection Hlen as Hlen. specialize (IH b Hlen). split.
    + intros H. inversion H as [|x l [Hp Hq] Hrest]; subst.
      apply IH in Hrest. destruct Hrest. split; now constructor.
    + intros [Ha Hb]. inversion Ha; inversion Hb; subst.
      constructor; [now split|]. apply IH. now split.
Qed.

Lemma Exists_foreign_not_Forall pos neg l :
  Exists (foreign pos neg) l ->
  ~ Forall (fun v => in_labels v pos neg = true) l.
Proof.
  intros Hex Hall. apply Exists_exists in Hex. destruct Hex as (v & Hin & Hv).
  rewrite Forall_forall in Hall. specialize (Hall v Hin).
  unfold foreign in Hv. congruence.
Qed.

(** The claim of C5 read for every input does not hold: when the two
    sequences differ in length the length check fires first, whatever
    the labels. *)
Lemma strict_labels_after_length_check :
  ~ (forall (a b : list Z) (pos neg : Z),
        (exists z, (In z a \/ In z b) /\ z <> pos /\ z <> neg) ->
        exists e,
          confusion_counts (int_list a) (int_list b) pos neg true = Raise e
          /\ LabelDomainError e).
Proof.
  intros H.
  destruct (H [2] [1; 1] 1 0) as (e & He & Hkind).
  - exists 2. simpl. repeat split; auto; lia.
  - vm_compute in He. injection He as <-.
    revert Hkind. apply LengthMismatch_not_LabelDomainError.
    now exists 1, 2.
Qed.

(** C5 (amended): on integer sequences of equal length and with
    [strict_labels] true, [confusion_counts] raises a label-domain error
    as soon as some element of [y_true] or [y_pred] is neither
    [positive_label] nor [negative_label]; the error names the sequence,
    the index and the value of the first such element ([y_true[i]] being
    examined before [y_pred[i]]).  With every element among the two
    labels it returns.  In any case a label-domain error is raised only
    in the presence of such an element. *)
Theorem strict_label_validation :
  forall (y_true y_pred : object) (yt yp : list int_obj) (pos neg : Z),
    _to_list_int y_true "y_true" = Ok yt ->
    _to_list_int y_pred "y_pred" = Ok yp ->
    List.length yt = List.length yp ->
    (Exists (foreign pos neg) yt \/ Exists (foreign pos neg) yp ->
     exists name k v e,
       confusion_counts y_true y_pred pos neg true = Raise e
       /\ LabelDomain name k v neg pos e
       /\ foreign pos neg v
       /\ ((name = "y_true" /\ nth_error yt k = Some v)
           \/ (name = "y_pred" /\ nth_error yp k = Some v
               /\ exists t, nth_error yt k = Some t /\ in_labels t pos neg = true))
       /\ (forall j t p, (j < k)%nat ->
              nth_error yt j = Some t -> nth_error yp j = Some p ->
              in_labels t pos neg = true /\ in_labels p pos neg = true))
    /\ (Forall (fun v => in_labels v pos neg = true) yt ->
        Forall (fun v => in_labels v pos neg = true) yp ->
        exists c, confusion_counts y_true y_pred pos neg true = Ok c)
    /\ (forall e, confusion_counts y_true y_pred pos neg true = Raise e ->
                  LabelDomainError e ->
                  Exists (foreign pos neg) yt \/ Exists (foreign pos neg) yp).
Proof.
  intros y_true y_pred yt yp pos neg Ht Hp Hlen.
  rewrite (confusion_counts_materialised _ _ _ _ _ _ _ Ht Hp).
  rewrite (proj2 (Nat.eqb_eq _ _) Hlen).
  set (ok := fun tp : int_obj * int_obj =>
               in_labels (fst tp) pos neg && in_labels (snd tp) pos neg).
  assert (Hok : forall l,
             Forall (fun tp => ok tp = true) l
             <-> Forall (fun tp => in_labels (fst tp) pos neg = true
                                   /\ in_labels (snd tp) pos neg = true) l).
  { intros l. split; intros H; eapply Forall_impl; try exact H;
      intros tp; unfold ok; simpl; rewrite andb_true_iff; auto. }
  pose proof (Forall_combine (fun v => in_labels v pos neg = true)
                             (fun v => in_labels v pos neg = true)
                             yt yp Hlen) as Hcomb.
  simpl in Hcomb.
  destruct (first_failure ok (combine yt yp))
    as [Hall | (pre & [t p] & post & Hsplit & Hpre & Hbad)].
  - (* no foreign label *)
    apply Hok in Hall. pose proof Hall as Hpairs. apply Hcomb in Hall.
    destruct Hall as [Hallt Hallp]. split; [|split].
    + intros [Hex | Hex]; exfalso;
        eapply Exists_foreign_not_Forall; eauto.
    + intros _ _. now apply count_pairs_strict_ok.
    + intros e He _. exfalso.
      destruct (count_pairs_strict_ok pos neg (combine yt yp) 0
                  (mkCounts 0 0 0 0) Hpairs) as [c Hc].
      congruence.
  - (* a first foreign label, at index [length pre] *)
    apply Hok in Hpre. unfold ok in Hbad. simpl in Hbad.
    pose proof (count_pairs_strict_first pos neg pre t p post 0
                  (mkCounts 0 0 0 0) Hpre Hbad) as Hraise.
    rewrite <- Hsplit in Hraise. simpl in Hraise.
    assert (Hk : nth_error (combine yt yp) (List.length pre) = Some (t, p)).
    { rewrite Hsplit, nth_error_app2, Nat.sub_diag by lia. reflexivity. }
    apply nth_error_combine in Hk. destruct Hk as [Hkt Hkp].
    assert (Hbefore : forall j t' p', (j < List.length pre)%nat ->
              nth_error yt j = Some t' -> nth_error yp j = Some p' ->
              in_labels t' pos neg = true /\ in_labels p' pos neg = true).
    { intros j t' p' Hj Hjt Hjp.
      assert (Hjc : nth_error (combine yt yp) j = Some (t', p')).
      { clear - Hjt Hjp. revert yp j Hjt Hjp.
        induction yt as [|a yt IH]; intros [|b yp] [|j]; simpl;
          try discriminate.
        - now intros [= <-] [= <-].
        - apply IH. }
      rewrite Hsplit, nth_error_app1 in Hjc by assumption.
      apply nth_error_In in Hjc. rewrite Forall_forall in Hpre.
      apply (Hpre _ Hjc). }
    split; [|split].
    + intros _. rewrite Hraise.
      destruct (in_labels t pos neg) eqn:Hin; simpl in Hbad.
      * exists "y_pred", (List.length pre), p. eexists. split; [reflexivity|].
        split; [reflexivity|]. split; [exact Hbad|]. split; [|exact Hbefore].
        right. repeat split; try assumption. now exists t.
      * exists "y_true", (List.length pre), t. eexists. split; [reflexivity|].
        split; [reflexivity|]. split; [exact Hin|]. split; [|exact Hbefore].
        left. now split.
    + intros Hallt Hallp. exfalso.
      rewrite Forall_forall in Hallt, Hallp.
      apply nth_error_In in Hkt, Hkp.
      rewrite (Hallt _ Hkt), (Hallp _ Hkp) in Hbad. discriminate.
    + intros e _ _.
      destruct (in_labels t pos neg) eqn:Hin; simpl in Hbad.
      * right. apply Exists_exists. exists p. split; [|exact Hbad].
        now apply nth_error_In in Hkp.
      * left. apply Exists_exists. exists t. split; [|exact Hin].
        now apply nth_error_In in Hkt.
Qed.

Lemma strict_label_validation_witness :
  exists name k v e,
    confusion_counts (int_list [1; 2]) (int_list [3; 1]) 1 0 true = Raise e
    /\ LabelDomain name k v 0 1 e
    /\ foreign 1 0 v
    /\ ((name = "y_true" /\ nth_error [IInt 1; IInt 2] k = Some v)
        \/ (name = "y_pred" /\ nth_error [IInt 3; IInt 1] k = Some v
            /\ exists t, nth_error [IInt 1; IInt 2] k = Some t
                         /\ in_labels t 1 0 = true))
    /\ (forall j t p, (j < k)%nat ->
           nth_error [IInt 1; IInt 2] j = Some t ->
           nth_error [IInt 3; IInt 1] j = Some p ->
           in_labels t 1 0 = true /\ in_labels p 1 0 = true).
Proof.
  apply (strict_label_validation
           (int_list [1; 2]) (int_list [3; 1]) [IInt 1; IInt 2] [IInt 3; IInt 1] 1 0);
    try reflexivity.
  left. apply Exists_cons_tl, Exists_cons_hd. reflexivity.
Defined.

(** *** Lenient validation *)

Lemma count_if_cons {A} (f : A -> bool) a l :
  count_if f (a :: l) = (if f a then 1 else 0) + count_if f l.
Proof.
  unfold count_if, len. cbn [filter]. destruct (f a); cbn [List.length]; lia.
Qed.

Lemma mkCounts_eq a b c d a' b' c' d' :
  a = a' -> b = b' -> c = c' -> d = d' -> mkCounts a b c d = mkCounts a' b' c' d'.
Proof. now intros -> -> -> ->. Qed.

Lemma fold_tally_counts pos pairs : forall c,
  fold_left (fun c tp => tally (int_eqb (fst tp) pos) (int_eqb (snd tp) pos) c)
            pairs c
  = mkCounts
      (tp c + count_if (fun x => fst (flags pos x) && snd (flags pos x)) pairs)
      (fp c + count_if (fun x => negb (fst (flags pos x)) && snd (flags pos x)) pairs)
      (tn c + count_if (fun x => negb (fst (flags pos x)) && negb (snd (flags pos x))) pairs)
      (fn c + count_if (fun x => fst (flags pos x) && negb (snd (flags pos x))) pairs).
Proof.
  induction pairs as [|[t p] pairs IH]; intros c; simpl.
  - unfold count_if, len. simpl. destruct c; simpl. apply mkCounts_eq; lia.
  - rewrite IH, !count_if_cons, tally_one. unfold flags. cbn [fst snd].
    destruct (int_eqb t pos), (int_eqb p pos); cbn [andb negb tp fp tn fn];
      apply mkCounts_eq; lia.
Qed.

Lemma confusion_counts_lenient_neg y_true y_pred pos neg neg' :
  confusion_counts y_true y_pred pos neg' false
  = confusion_counts y_true y_pred pos neg false.
Proof.
  unfold confusion_counts.
  destruct (_to_list_int y_true "y_true") as [yt|e]; [|reflexivity].
  destruct (_to_list_int y_pred "y_pred") as [yp|e]; [|reflexivity].
  simpl. destruct (negb (len yt =? len yp)); [reflexivity|].
  now rewrite !count_pairs_lenient.
Qed.

(** C7: with [strict_labels] false, [confusion_counts] raises no
    label-domain error; its outcome does not depend on [negative_label];
    on integer sequences of equal length it returns, each counter being
    the number of pairs with the corresponding flags, a flag being
    equality with [positive_label].  With the default labels,
    [y_true = [2, 1]] and [y_pred = [1, 2]] give
    [(tp=0, fp=1, tn=0, fn=1)]. *)
Theorem lenient_classification :
  forall (y_true y_pred : object) (pos neg : Z),
    (forall e, confusion_counts y_true y_pred pos neg false = Raise e ->
               ~ LabelDomainError e)
    /\ (forall neg', confusion_counts y_true y_pred pos neg' false
                     = confusion_counts y_true y_pred pos neg false)
    /\ (forall yt yp,
           _to_list_int y_true "y_true" = Ok yt ->
           _to_list_int y_pred "y_pred" = Ok yp ->
           List.length yt = List.length yp ->
           confusion_counts y_true y_pred pos neg false
           = Ok (mkCounts
                   (count_if (fun x => int_eqb (fst x) pos && int_eqb (snd x) pos)
                             (combine yt yp))
                   (count_if (fun x => negb (int_eqb (fst x) pos) && int_eqb (snd x) pos)
                             (combine yt yp))
                   (count_if (fun x => negb (int_eqb (fst x) pos) && negb (int_eqb (snd x) pos))
                             (combine yt yp))
                   (count_if (fun x => int_eqb (fst x) pos && negb (int_eqb (snd x) pos))
                             (combine yt yp))))
    /\ confusion_counts (int_list [2; 1]) (int_list [1; 2]) 1 0 false
       = Ok (mkCounts 0 1 0 1).
Proof.
  intros y_true y_pred pos neg. split; [|split; [|split]].
  - intros e He. unfold confusion_counts in He.
    destruct (_to_list_int y_true "y_true") as [yt|e1] eqn:Ht.
    2:{ unfold _to_list_int in Ht.
        destruct (to_list y_true) as [out|].
        - apply check_ints_raise in Ht.
          destruct Ht as (? & ? & ? & _ & _ & ->).
          simpl in He. injection He as <-. apply TypeError_not_LabelDomainError.
        - injection Ht as <-. simpl in He. injection He as <-.
          apply TypeError_not_LabelDomainError. }
    destruct (_to_list_int y_pred "y_pred") as [yp|e1] eqn:Hp.
    2:{ unfold _to_list_int in Hp.
        destruct (to_list y_pred) as [out|].
        - apply check_ints_raise in Hp.
          destruct Hp as (? & ? & ? & _ & _ & ->).
          simpl in He. injection He as <-. apply TypeError_not_LabelDomainError.
        - injection Hp as <-. simpl in He. injection He as <-.
          apply TypeError_not_LabelDomainError. }
    simpl in He. destruct (negb (len yt =? len yp)).
    + injection He as <-. apply LengthMismatch_not_LabelDomainError.
      now exists (len yt), (len yp).
    + rewrite count_pairs_lenient in He. discriminate.
  - intros neg'. apply confusion_counts_lenient_neg.
  - intros yt yp Ht Hp Hlen.
    rewrite (confusion_counts_materialised _ _ _ _ _ _ _ Ht Hp).
    rewrite (proj2 (Nat.eqb_eq _ _) Hlen).
    rewrite count_pairs_lenient, fold_tally_counts. reflexivity.
  - reflexivity.
Qed.

(** *** Type validation *)

(** The claim of C9 read with "representable as an integer" does not
    hold: the float [2.0] stands for the integer 2 and is rejected. *)
Lemma integer_valued_float_rejected :
  ~ (forall (out : list object) (name : string),
        Forall (fun v => representable_as_int v <> None) out ->
        exists l, _to_list_int (PyList out) name = Ok l).
Proof.
  intros H. destruct (H [PyFloat two] "y_true") as [l Hl].
  - constructor; [|constructor]. vm_compute. discriminate.
  - vm_compute in Hl. discriminate.
Qed.

Lemma all_ints_map out :
  Forall (fun v => as_int v <> None) out ->
  exists l, out = map of_int_obj l.
Proof.
  induction 1 as [|v out Hv _ [l ->]].
  - now exists [].
  - destruct (as_int v) as [n|] eqn:Hn; [|congruence].
    apply as_int_Some in Hn. subst v. now exists (n :: l).
Qed.

(** C9 (amended): [_to_list_int] does not coerce.  It returns a
    sequence whose elements are all instances of [int] unchanged, and
    otherwise raises a [TypeError] that names the sequence and the index
    of the first element that is not an instance of [int].
    [confusion_counts], and [binary_metrics] through it, validate
    [y_true] first and [y_pred] next and raise that error.  An
    integer-valued float such as [2.0] is rejected. *)
Theorem to_list_int_strict :
  forall (values : object) (out : list object) (name : string),
    to_list values = Some out ->
    (Forall (fun v => as_int v <> None) out ->
     exists l, _to_list_int values name = Ok l /\ map of_int_obj l = out)
    /\ (forall pre v post,
           out = (map of_int_obj pre ++ v :: post)%list -> as_int v = None ->
           exists e, _to_list_int values name = Raise e
                     /\ TypeKind name (List.length pre) v e)
    /\ (forall y_pred pos neg strict pre v post,
           out = (map of_int_obj pre ++ v :: post)%list -> as_int v = None ->
           exists e,
             confusion_counts values y_pred pos neg strict = Raise e
             /\ Report.binary_metrics values y_pred pos neg strict = Raise e
             /\ TypeKind "y_true" (List.length pre) v e)
    /\ (forall y_true yt pos neg strict pre v post,
           _to_list_int y_true "y_true" = Ok yt ->
           out = (map of_int_obj pre ++ v :: post)%list -> as_int v = None ->
           exists e,
             confusion_counts y_true values pos neg strict = Raise e
             /\ Report.binary_metrics y_true values pos neg strict = Raise e
             /\ TypeKind "y_pred" (List.length pre) v e)
    /\ _to_list_int (PyList [PyFloat two]) name
       = Raise (TypeError (not_int_msg name 0 (PyFloat two))).
Proof.
  intros values out name Hout.
  assert (Hto : forall nm, _to_list_int values nm = check_ints nm 0 out).
  { intros nm. unfold _to_list_int. now rewrite Hout. }
  split; [|split; [|split; [|split]]].
  - intros Hall. destruct (all_ints_map out Hall) as [l ->].
    exists l. split; [|reflexivity].
    rewrite Hto. now apply check_ints_ok.
  - intros pre v post -> Hv. eexists. split; [|reflexivity].
    rewrite Hto. now rewrite check_ints_first.
  - intros y_pred pos neg strict pre v post -> Hv. eexists.
    unfold Report.binary_metrics, confusion_counts, TypeKind.
    rewrite Hto, check_ints_first by assumption. simpl. repeat split.
  - intros y_true yt pos neg strict pre v post Ht -> Hv. eexists.
    unfold Report.binary_metrics, confusion_counts, TypeKind.
    rewrite Ht, Hto, check_ints_first by assumption. simpl. repeat split.
  - reflexivity.
Qed.

Lemma to_list_int_strict_witness :
  exists e,
    confusion_counts (PyList [PyInt 1; PyFloat two]) (int_list [1; 1]) 1 0 true
    = Raise e
    /\ Report.binary_metrics (PyList [PyInt 1; PyFloat two]) (int_list [1; 1]) 1 0 true
       = Raise e
    /\ TypeKind "y_true" 1 (PyFloat two) e.
Proof.
  destruct (to_list_int_strict (PyList [PyInt 1; PyFloat two])
                               [PyInt 1; PyFloat two] "y_true" eq_refl)
    as (_ & _ & H & _).
  apply (H (int_list [1; 1]) 1 0 true [IInt 1] (PyFloat two) []); reflexivity.
Defined.

End MetricsFacts.

(* ================================================================= *)
(** ** Correct rounding of the float operations

    The operations of [SpecFloat] compute the float nearest to the exact
    result.  The proofs follow the algorithms: truncation by right
    shifts that keep a round bit and a sticky bit, then the rounding
    decision, then renormalisation. *)

Module RoundingFacts.

Import Rounding.

(** *** Powers of two *)

Lemma bpow_pos e : (0 < bpow e)%R.
Proof. apply powerRZ_lt. lra. Qed.

Lemma bpow_add a b : bpow (a + b) = (bpow a * bpow b)%R.
Proof. apply powerRZ_add. lra. Qed.

Lemma bpow_0 : bpow 0 = 1%R.
Proof. reflexivity. Qed.

Lemma bpow_1 : bpow 1 = 2%R.
Proof. unfold bpow. simpl. lra. Qed.

Lemma bpow_succ e : bpow (e + 1) = (2 * bpow e)%R.
Proof. rewrite bpow_add, bpow_1. lra. Qed.

Lemma bpow_pred e : bpow (e - 1) = (bpow e / 2)%R.
Proof.
  replace e with ((e - 1) + 1) at 2 by lia. rewrite bpow_succ. lra.
Qed.

Lemma bpow_IZR e : 0 <= e -> bpow e = IZR (2 ^ e).
Proof.
  intros He. unfold bpow.
  rewrite <- (Z2Nat.id e He), <- pow_powerRZ, pow_IZR. reflexivity.
Qed.

Lemma bpow_le a b : a <= b -> (bpow a <= bpow b)%R.
Proof.
  intros H. replace b with (a + (b - a)) by lia.
  rewrite bpow_add, (bpow_IZR (b - a)) by lia.
  assert (1 <= IZR (2 ^ (b - a)))%R.
  { apply IZR_le. assert (0 < 2 ^ (b - a)) by (apply Z.pow_pos_nonneg; lia). lia. }
  pose proof (bpow_pos a). nra.
Qed.

Lemma bpow_lt a b : a < b -> (bpow a < bpow b)%R.
Proof.
  intros H. apply Rlt_le_trans with (bpow (a + 1)).
  - rewrite bpow_succ. pose proof (bpow_pos a). lra.
  - apply bpow_le. lia.
Qed.

Lemma bpow_lt_inv a b : (bpow a < bpow b)%R -> a < b.
Proof.
  intros H. destruct (Z_lt_le_dec a b) as [|Hle]; [assumption|].
  apply bpow_le in Hle. lra.
Qed.

Lemma bpow_le_inv a b : (bpow a <= bpow b)%R -> a <= b.
Proof.
  intros H. destruct (Z_le_gt_dec a b) as [|Hgt]; [assumption|].
  assert (b < a) as Hlt by lia. apply bpow_lt in Hlt. lra.
Qed.

(** *** Number of binary digits *)

Lemma digits2_pos_spec p :
  2 ^ (Z.pos (digits2_pos p) - 1) <= Z.pos p < 2 ^ Z.pos (digits2_pos p).
Proof.
  induction p as [p IH|p IH|]; simpl digits2_pos.
  - rewrite Pos2Z.inj_succ.
    replace (Z.succ (Z.pos (digits2_pos p)) - 1) with (Z.succ (Z.pos (digits2_pos p) - 1)) by lia.
    rewrite !Z.pow_succ_r by lia. lia.
  - rewrite Pos2Z.inj_succ.
    replace (Z.succ (Z.pos (digits2_pos p)) - 1) with (Z.succ (Z.pos (digits2_pos p) - 1)) by lia.
    rewrite !Z.pow_succ_r by lia. lia.
  - simpl. lia.
Qed.

Lemma Zdigits2_spec m : 0 < m ->
  2 ^ (Zdigits2 m - 1) <= m < 2 ^ Zdigits2 m.
Proof.
  destruct m as [|p|p]; try lia. intros _. apply digits2_pos_spec.
Qed.

Lemma Zdigits2_pos m : 0 < m -> 0 < Zdigits2 m.
Proof. destruct m; simpl; lia. Qed.

Lemma Zdigits2_unique m d : 0 < m -> 2 ^ (d - 1) <= m < 2 ^ d -> Zdigits2 m = d.
Proof.
  intros Hm [Hlo Hhi]. pose proof (Zdigits2_spec m Hm) as [Hlo' Hhi'].
  pose proof (Zdigits2_pos m Hm).
  assert (0 < d).
  { destruct (Z_lt_le_dec 0 d); [assumption|].
    assert (2 ^ d <= 2 ^ 0) by (apply Z.pow_le_mono_r; lia). simpl in *. lia. }
  destruct (Z.lt_trichotomy (Zdigits2 m) d) as [Hlt | [Heq | Hgt]]; [|assumption|].
  - assert (2 ^ Zdigits2 m <= 2 ^ (d - 1)) by (apply Z.pow_le_mono_r; lia). lia.
  - assert (2 ^ d <= 2 ^ (Zdigits2 m - 1)) by (apply Z.pow_le_mono_r; lia). lia.
Qed.

Local Open Scope R_scope.

(** *** Right shifts keep the location

    A shift by one bit halves the mantissa; the round bit and the sticky
    bit of the record keep track of where the value lies in the new,
    wider cell. *)

Lemma shr_1_nonneg m r s : (0 <= m)%Z ->
  shr_1 (Build_shr_record m r s) = Build_shr_record (m / 2) (Z.odd m) (r || s).
Proof.
  intros Hm. destruct m as [|p|p]; [reflexivity| |lia].
  destruct p as [p|p|]; simpl shr_1.
  - f_equal. rewrite Pos2Z.inj_xI. apply Z.div_unique with 1%Z; lia.
  - f_equal. rewrite Pos2Z.inj_xO. apply Z.div_unique with 0%Z; lia.
  - reflexivity.
Qed.

(** One shift. *)
Lemma located_shr_1 x m e r s : (0 <= m)%Z ->
  located x m e (loc_of_shr_record (Build_shr_record m r s)) ->
  located x (m / 2) (e + 1)
          (loc_of_shr_record (Build_shr_record (m / 2) (Z.odd m) (r || s))).
Proof.
  intros Hm Hloc.
  pose proof (Z.div_mod m 2 ltac:(lia)) as Hdm.
  pose proof (Z.mod_pos_bound m 2 ltac:(lia)) as Hmod.
  rewrite Zodd_mod.
  assert (Hk : IZR m = 2 * IZR (m / 2) + IZR (m mod 2)).
  { rewrite Hdm at 1. rewrite plus_IZR, mult_IZR. reflexivity. }
  pose proof (bpow_pos e) as Hu.
  unfold located, F2R in *. rewrite plus_IZR in *. rewrite bpow_succ.
  set (k := IZR (m / 2)) in *. set (u := bpow e) in *.
  assert (Hb : (m mod 2 = 0 \/ m mod 2 = 1)%Z) by lia.
  destruct Hb as [Hb | Hb]; rewrite Hb in *; simpl Z.eqb; cbn match;
    destruct r, s; simpl in Hloc |- *; rewrite Hk in Hloc; nra.
Qed.

Lemma iter_pos_nat {A} (f : A -> A) p : forall x,
  iter_pos f p x = Nat.iter (Pos.to_nat p) f x.
Proof.
  induction p as [p IH|p IH|]; intros x; simpl iter_pos.
  - rewrite !IH, Pos2Nat.inj_xI.
    replace (S (2 * Pos.to_nat p)) with (Pos.to_nat p + (Pos.to_nat p + 1))%nat by lia.
    rewrite !Nat.iter_add. reflexivity.
  - rewrite !IH, Pos2Nat.inj_xO.
    replace (2 * Pos.to_nat p)%nat with (Pos.to_nat p + Pos.to_nat p)%nat by lia.
    rewrite Nat.iter_add. reflexivity.
  - reflexivity.
Qed.

(** [n] shifts. *)
Lemma located_iter_shr_1 x e : forall (n : nat) mrs,
  (0 <= shr_m mrs)%Z ->
  located x (shr_m mrs) e (loc_of_shr_record mrs) ->
  let mrs' := Nat.iter n shr_1 mrs in
  shr_m mrs' = (shr_m mrs / 2 ^ Z.of_nat n)%Z
  /\ located x (shr_m mrs') (e + Z.of_nat n) (loc_of_shr_record mrs').
Proof.
  induction n as [|n IH]; intros mrs Hm Hloc.
  - simpl. rewrite Z.div_1_r, Z.add_0_r. split; [reflexivity|assumption].
  - destruct (IH mrs Hm Hloc) as [Hq Hl]. clear IH.
    cbv zeta. simpl Nat.iter.
    set (mrs1 := Nat.iter n shr_1 mrs) in *.
    destruct mrs1 as [m1 r1 s1] eqn:E. simpl shr_m in Hq, Hl.
    assert (Hm1 : (0 <= m1)%Z).
    { rewrite Hq. apply Z.div_pos; [assumption|]. apply Z.pow_pos_nonneg; lia. }
    rewrite (shr_1_nonneg _ _ _ Hm1). simpl shr_m. split.
    + rewrite Hq, Nat2Z.inj_succ, Z.pow_succ_r by lia.
      rewrite Z.div_div by (try lia; apply Z.pow_pos_nonneg; lia).
      f_equal. lia.
    + replace (e + Z.of_nat (S n))%Z with (e + Z.of_nat n + 1)%Z by lia.
      now apply located_shr_1.
Qed.

Lemma loc_of_shr_record_of_loc m l :
  loc_of_shr_record (shr_record_of_loc m l) = l.
Proof. destruct l as [|[]]; reflexivity. Qed.

Lemma shr_m_shr_record_of_loc m l : shr_m (shr_record_of_loc m l) = m.
Proof. destruct l as [|[]]; reflexivity. Qed.

Lemma shr_spec x m e l n : (0 <= m)%Z -> located x m e l ->
  let '(mrs, e') := shr (shr_record_of_loc m l) e n in
  e' = (e + Z.max n 0)%Z
  /\ shr_m mrs = (m / 2 ^ Z.max n 0)%Z
  /\ located x (shr_m mrs) e' (loc_of_shr_record mrs).
Proof.
  intros Hm Hloc. unfold shr. destruct n as [|p|p].
  - simpl Z.max. rewrite Z.add_0_r, Z.div_1_r, shr_m_shr_record_of_loc,
      loc_of_shr_record_of_loc. auto.
  - rewrite iter_pos_nat.
    destruct (located_iter_shr_1 x e (Pos.to_nat p) (shr_record_of_loc m l))
      as [Hq Hl].
    + now rewrite shr_m_shr_record_of_loc.
    + now rewrite shr_m_shr_record_of_loc, loc_of_shr_record_of_loc.
    + rewrite positive_nat_Z, shr_m_shr_record_of_loc in *.
      replace (Z.max (Z.pos p) 0) with (Z.pos p) by lia. auto.
  - replace (Z.max (Z.neg p) 0) with 0%Z by lia.
    rewrite Z.add_0_r, Z.div_1_r, shr_m_shr_record_of_loc,
      loc_of_shr_record_of_loc. auto.
Qed.

(** *** The rounding decision *)

Lemma round_nearest_even_spec x m e l : located x m e l ->
  nearest_even (x / bpow e) (round_nearest_even m l)
  /\ (round_nearest_even m l = m \/ round_nearest_even m l = (m + 1)%Z).
Proof.
  intros Hloc. pose proof (bpow_pos e) as Hu.
  assert (Hx : x = (x / bpow e) * bpow e) by (field; lra).
  set (t := x / bpow e) in *. clearbody t.
  unfold located, F2R in Hloc. unfold nearest_even.
  destruct l as [|[]]; simpl round_nearest_even.
  - assert (t = IZR m) by nra. split; [|now left]. split; [lra|]. intros [H1|H1]; lra.
  - assert (t = IZR m + 1/2) by nra.
    destruct (Z.even m) eqn:Hev.
    + split; [|now left]. split; [lra|]. auto.
    + split; [|now right]. rewrite plus_IZR. split; [lra|]. intros _.
      rewrite Z.even_add, Hev. reflexivity.
  - assert (IZR m < t < IZR m + 1/2) by nra.
    split; [|now left]. split; [lra|]. intros [H1|H1]; lra.
  - rewrite plus_IZR in *. assert (IZR m + 1/2 < t < IZR m + 1) by nra.
    split; [|now right]. split; [lra|]. intros [H1|H1]; lra.
Qed.

Local Open Scope Z_scope.

(** *** Truncation, rounding and renormalisation *)

Lemma fexp_eq e : SpecFloat.fexp prec emax e = fexp e.
Proof. reflexivity. Qed.

Lemma fexp_ge_emin e : emin <= fexp e.
Proof. unfold fexp. lia. Qed.

(** From a mantissa that locates [x] with enough bits,
    [binary_round_aux] returns the mantissa nearest to [x] at the
    exponent of the binade of [x]. *)
Lemma binary_round_aux_spec x m e l :
  0 <= m -> located x m e l -> e <= fexp (Zdigits2 m + e) ->
  exists K,
    nearest_even (x / bpow (fexp (Zdigits2 m + e))) K
    /\ 0 <= K <= 2 ^ 53
    /\ (emin < fexp (Zdigits2 m + e) -> 2 ^ 52 <= K)
    /\ binary_round_aux prec emax false m e l = encode K (fexp (Zdigits2 m + e)).
Proof.
  intros Hm Hloc He.
  set (e1 := fexp (Zdigits2 m + e)) in *.
  unfold binary_round_aux, shr_fexp.
  change (SpecFloat.fexp prec emax) with fexp. fold e1.
  pose proof (shr_spec x m e l (e1 - e) Hm Hloc) as H1.
  destruct (shr (shr_record_of_loc m l) e (e1 - e)) as [mrs e'].
  destruct H1 as (-> & Hm1 & Hl1).
  replace (e + Z.max (e1 - e) 0) with e1 in * by lia.
  replace (Z.max (e1 - e) 0) with (e1 - e) in Hm1 by lia.
  set (m1 := shr_m mrs) in *.
  assert (Hpow : 0 < 2 ^ (e1 - e)) by (apply Z.pow_pos_nonneg; lia).
  (* bounds on the truncated mantissa *)
  assert (Hm1b : 0 <= m1 < 2 ^ 53).
  { rewrite Hm1. split; [apply Z.div_pos; lia|].
    apply Z.div_lt_upper_bound; [lia|].
    destruct (Z.eq_dec m 0) as [->|Hm0]; [lia|].
    pose proof (Zdigits2_spec m ltac:(lia)) as [_ Hhi].
    eapply Z.lt_le_trans; [exact Hhi|].
    rewrite <- Z.pow_add_r by lia.
    apply Z.pow_le_mono_r; [lia|]. unfold e1, fexp. lia. }
  assert (Hnorm : emin < e1 -> 2 ^ 52 <= m1).
  { intros Hn. rewrite Hm1.
    assert (He1 : e1 = Zdigits2 m + e - 53) by (unfold e1, fexp in *; lia).
    assert (Hm0 : 0 < m).
    { destruct (Z.eq_dec m 0) as [->|]; [simpl in He1; lia|lia]. }
    pose proof (Zdigits2_spec m Hm0) as [Hlo _].
    apply Z.div_le_lower_bound; [lia|].
    rewrite <- Z.pow_add_r by lia.
    replace (e1 - e + 52) with (Zdigits2 m - 1) by lia. exact Hlo. }
  destruct (round_nearest_even_spec x m1 e1 _ Hl1) as [Hne HK].
  set (K := round_nearest_even m1 (loc_of_shr_record mrs)) in *.
  exists K. split; [exact Hne|].
  assert (HKb : 0 <= K <= 2 ^ 53) by lia.
  split; [exact HKb|]. split; [lia|].
  (* the second, renormalising shift *)
  pose proof (fexp_ge_emin (Zdigits2 m + e)) as Hemin. fold e1 in Hemin.
  assert (Hloc2 : located (F2R K e1) K e1 loc_Exact) by reflexivity.
  pose proof (shr_spec _ K e1 loc_Exact (fexp (Zdigits2 K + e1) - e1)
                       (proj1 HKb) Hloc2) as H2.
  destruct (shr (shr_record_of_loc K loc_Exact) e1 (fexp (Zdigits2 K + e1) - e1))
    as [mrs2 e2].
  destruct H2 as (-> & Hm2 & _).
  destruct (Z.eq_dec K 0) as [HK0 | HK0].
  - rewrite HK0 in *. simpl Zdigits2 in *.
    replace (Z.max (fexp (0 + e1) - e1) 0) with 0 in * by (unfold fexp; lia).
    rewrite Hm2. reflexivity.
  - destruct (Z.eq_dec K (2 ^ 53)) as [HK53 | HK53].
    + rewrite HK53 in *. change (Zdigits2 (2 ^ 53)) with 54 in *.
      replace (Z.max (fexp (54 + e1) - e1) 0) with 1 in * by (unfold fexp; lia).
      rewrite Hm2. reflexivity.
    + assert (HdK : Zdigits2 K <= 53).
      { pose proof (Zdigits2_spec K ltac:(lia)) as [Hlo _].
        destruct (Z_le_gt_dec (Zdigits2 K) 53); [assumption|].
        assert (2 ^ 53 <= 2 ^ (Zdigits2 K - 1)) by (apply Z.pow_le_mono_r; lia).
        lia. }
      replace (Z.max (fexp (Zdigits2 K + e1) - e1) 0) with 0 in *
        by (unfold fexp; lia).
      rewrite Z.div_1_r in Hm2. rewrite Hm2, Z.add_0_r.
      destruct K as [|p|p]; [lia| |lia].
      unfold encode. apply Z.eqb_neq in HK53. rewrite HK53. reflexivity.
Qed.

Local Open Scope R_scope.

(** *** Correct rounding *)

Lemma located_bounds x m e l : located x m e l -> F2R m e <= x < F2R (m + 1) e.
Proof.
  pose proof (bpow_pos e). unfold located, F2R. rewrite plus_IZR.
  destruct l as [|[]]; intros; nra.
Qed.

Lemma F2R_digits_bounds m e : (0 < m)%Z ->
  bpow (Zdigits2 m + e - 1) <= F2R m e /\ F2R (m + 1) e <= bpow (Zdigits2 m + e).
Proof.
  intros Hm. pose proof (Zdigits2_spec m Hm) as [Hlo Hhi].
  pose proof (Zdigits2_pos m Hm) as Hd. pose proof (bpow_pos e) as He.
  unfold F2R. split.
  - replace (Zdigits2 m + e - 1)%Z with ((Zdigits2 m - 1) + e)%Z by lia.
    rewrite bpow_add, (bpow_IZR (Zdigits2 m - 1)) by lia.
    apply Rmult_le_compat_r; [lra|]. now apply IZR_le.
  - rewrite bpow_add, (bpow_IZR (Zdigits2 m)) by lia.
    apply Rmult_le_compat_r; [lra|]. apply IZR_le. lia.
Qed.

(** Hence its result is the rounding of [x]. *)
Lemma round_correct x m e l :
  (0 <= m)%Z -> located x m e l -> (e <= fexp (Zdigits2 m + e))%Z ->
  rounds_to x (binary_round_aux prec emax false m e l).
Proof.
  intros Hm Hloc He.
  destruct (binary_round_aux_spec x m e l Hm Hloc He) as (K & Hne & HK & Hn & Hr).
  exists (Zdigits2 m + e)%Z, K.
  pose proof (located_bounds _ _ _ _ Hloc) as [Hlo Hhi].
  destruct (Z.eq_dec m 0) as [-> | Hm0].
  - simpl Zdigits2 in *. rewrite Z.add_0_l in *.
    unfold F2R in Hhi. simpl in Hhi. rewrite Rmult_1_l in Hhi.
    refine (conj Hhi (conj _ (conj Hne (conj HK (conj Hn Hr))))).
    right. unfold fexp in He. lia.
  - destruct (F2R_digits_bounds m e ltac:(lia)) as [Hlo' Hhi'].
    refine (conj _ (conj _ (conj Hne (conj HK (conj Hn Hr))))); [lra|].
    left. lra.
Qed.

(** The mantissa a rounding produces is determined by the binade. *)
Lemma rounds_to_mag x f k0 :
  rounds_to x f -> bpow (k0 - 1) <= x < bpow k0 ->
  exists K,
    nearest_even (x / bpow (fexp k0)) K
    /\ (0 <= K <= 2 ^ 53)%Z
    /\ (emin < fexp k0 -> 2 ^ 52 <= K)%Z
    /\ f = encode K (fexp k0).
Proof.
  intros (k & K & Hhi & Hlo & Hne & HK & Hn & ->) [Hlo0 Hhi0].
  assert (Hk : fexp k = fexp k0).
  { destruct Hlo as [Hlo | Hk].
    - assert (k - 1 < k0)%Z by (apply bpow_lt_inv; lra).
      assert (k0 - 1 < k)%Z by (apply bpow_lt_inv; lra).
      f_equal. lia.
    - assert (k0 - 1 < k)%Z by (apply bpow_lt_inv; lra).
      unfold fexp, emin in *. lia. }
  rewrite Hk in *. now exists K.
Qed.

(** *** Division *)

(** The remainder of the integer division locates the quotient. *)
Lemma new_location_spec q e m2 r :
  (0 < m2)%Z -> (0 <= r < m2)%Z ->
  located ((IZR q + IZR r / IZR m2) * bpow e) q e (new_location m2 r).
Proof.
  intros Hm2 Hr. pose proof (bpow_pos e) as Hu.
  assert (HM : 0 < IZR m2) by now apply IZR_lt.
  assert (HM0 : IZR m2 <> 0) by (apply Rgt_not_eq; lra).
  set (rho := IZR r / IZR m2).
  assert (Hrho : IZR r = rho * IZR m2) by (unfold rho; field; exact HM0).
  assert (Hr0 : 0 <= IZR r) by (apply IZR_le; lia).
  assert (Hr1 : IZR r < IZR m2) by (apply IZR_lt; lia).
  assert (Hrho01 : 0 <= rho < 1) by (split; nra).
  clearbody rho.
  unfold new_location.
  destruct (Z.even m2) eqn:Hev;
    unfold new_location_even, new_location_odd;
    (destruct (Z.eqb_spec r 0) as [Hr00 | Hrn];
     [ assert (rho = 0) by (rewrite Hr00 in Hrho; nra);
       unfold located, F2R; nra | ]);
    assert (0 < IZR r) by (apply IZR_lt; lia);
    assert (0 < rho) by nra.
  - destruct (Z.compare_spec (2 * r) m2) as [Hc | Hc | Hc].
    + apply (f_equal IZR) in Hc. rewrite mult_IZR in Hc.
      unfold located. assert (rho = 1/2) by nra. nra.
    + apply IZR_lt in Hc. rewrite mult_IZR in Hc.
      unfold located, F2R. assert (rho < 1/2) by nra. nra.
    + apply IZR_lt in Hc. rewrite mult_IZR in Hc.
      unfold located, F2R. rewrite plus_IZR. assert (1/2 < rho) by nra. nra.
  - assert (Hodd : (2 * r <> m2)%Z).
    { intros <-. rewrite Z.even_mul in Hev. discriminate. }
    destruct (Z.compare_spec (2 * r + 1) m2) as [Hc | Hc | Hc].
    + assert (Hlt : (2 * r < m2)%Z) by lia.
      apply IZR_lt in Hlt. rewrite mult_IZR in Hlt.
      unfold located, F2R. assert (rho < 1/2) by nra. nra.
    + assert (Hlt : (2 * r < m2)%Z) by lia.
      apply IZR_lt in Hlt. rewrite mult_IZR in Hlt.
      unfold located, F2R. assert (rho < 1/2) by nra. nra.
    + assert (Hlt : (m2 < 2 * r)%Z) by lia.
      apply IZR_lt in Hlt. rewrite mult_IZR in Hlt.
      unfold located, F2R. rewrite plus_IZR. assert (1/2 < rho) by nra. nra.
Qed.

Lemma fexp_mono a b : (a <= b)%Z -> (fexp a <= fexp b)%Z.
Proof. unfold fexp. lia. Qed.

Lemma F2R_pos m e : (0 < m)%Z -> 0 < F2R m e.
Proof.
  intros Hm. unfold F2R. apply Rmult_lt_0_compat; [now apply IZR_lt|apply bpow_pos].
Qed.

(** The quotient of two positive finite floats, of any mantissas, is
    correctly rounded. *)
Lemma SFdiv_rounds mx ex my ey :
  rounds_to (F2R (Z.pos mx) ex / F2R (Z.pos my) ey)
            (SFdiv prec emax (S754_finite false mx ex) (S754_finite false my ey)).
Proof.
  unfold SFdiv, SFdiv_core_binary. simpl xorb.
  change (SpecFloat.fexp prec emax) with fexp.
  set (d1 := Zdigits2 (Z.pos mx)). set (d2 := Zdigits2 (Z.pos my)).
  set (D := (d1 + ex - (d2 + ey))%Z).
  set (e' := Z.min (fexp D) (ex - ey)).
  set (s := (ex - ey - e')%Z).
  assert (Hs : (0 <= s)%Z) by (unfold s, e'; lia).
  set (m' := match s with
             | 0%Z => Z.pos mx
             | Z.pos _ => Z.shiftl (Z.pos mx) s
             | Z.neg _ => 0%Z
             end).
  assert (Hm' : m' = (Z.pos mx * 2 ^ s)%Z).
  { unfold m'. destruct s as [|p|p]; [simpl; lia| |lia].
    apply Z.shiftl_mul_pow2. lia. }
  clearbody m'.
  pose proof (Z_div_mod m' (Z.pos my) ltac:(lia)) as Hdiv.
  destruct (Z.div_eucl m' (Z.pos my)) as [q r]. destruct Hdiv as [Hqr Hr].
  set (x := F2R (Z.pos mx) ex / F2R (Z.pos my) ey).
  pose proof (F2R_pos (Z.pos mx) ex ltac:(lia)) as Ha.
  pose proof (F2R_pos (Z.pos my) ey ltac:(lia)) as Hb.
  pose proof (bpow_pos e') as Hu. pose proof (bpow_pos ey) as Huy.
  assert (HMy : 0 < IZR (Z.pos my)) by (apply IZR_lt; lia).
  assert (Hq0 : (0 <= q)%Z).
  { assert (0 <= m')%Z by (rewrite Hm'; apply Z.mul_nonneg_nonneg; [lia|apply Z.pow_nonneg; lia]).
    destruct (Z_lt_le_dec q 0) as [Hneg|]; [|assumption]. nia. }
  assert (Hx : x = (IZR q + IZR r / IZR (Z.pos my)) * bpow e').
  { unfold x, F2R.
    replace ex with (s + e' + ey)%Z at 1 by (unfold s; lia).
    rewrite !bpow_add, (bpow_IZR s Hs).
    replace (IZR (Z.pos mx) * (IZR (2 ^ s) * bpow e' * bpow ey))
      with (IZR m' * bpow e' * bpow ey)
      by (rewrite Hm', mult_IZR; ring).
    rewrite Hqr, plus_IZR, mult_IZR. field. split; apply Rgt_not_eq; lra. }
  pose proof (new_location_spec q e' (Z.pos my) r ltac:(lia) Hr) as Hloc.
  rewrite <- Hx in Hloc.
  apply round_correct; [exact Hq0 | exact Hloc |].
  (* enough bits were computed *)
  assert (HD : bpow (D - 1) < x).
  { destruct (F2R_digits_bounds (Z.pos mx) ex ltac:(lia)) as [HA _].
    destruct (F2R_digits_bounds (Z.pos my) ey ltac:(lia)) as [_ HB].
    fold d1 in HA. fold d2 in HB.
    assert (HB' : F2R (Z.pos my) ey < bpow (d2 + ey)).
    { eapply Rlt_le_trans; [|exact HB]. unfold F2R. rewrite plus_IZR. nra. }
    assert (HAB : bpow (d1 + ex - 1) = bpow (D - 1) * bpow (d2 + ey)).
    { rewrite <- bpow_add. f_equal. unfold D. lia. }
    assert (Hxb : x * F2R (Z.pos my) ey = F2R (Z.pos mx) ex).
    { unfold x. field. apply Rgt_not_eq. lra. }
    pose proof (bpow_pos (D - 1)) as HDp.
    set (b := F2R (Z.pos my) ey) in *. set (a := F2R (Z.pos mx) ex) in *.
    clearbody a b x.
    assert (bpow (D - 1) * b < x * b) by nra.
    nra. }
  pose proof (located_bounds _ _ _ _ Hloc) as [_ Hhi].
  assert (He' : (e' <= fexp D)%Z) by (unfold e'; lia).
  destruct (Z.eq_dec q 0) as [-> | Hqn].
  - unfold F2R in Hhi. simpl in Hhi. rewrite Rmult_1_l in Hhi.
    assert (D - 1 < e')%Z by (apply bpow_lt_inv; lra).
    simpl Zdigits2. unfold fexp in *. lia.
  - destruct (F2R_digits_bounds q e' ltac:(lia)) as [_ Hq].
    assert (D - 1 < Zdigits2 q + e')%Z by (apply bpow_lt_inv; lra).
    pose proof (fexp_mono D (Zdigits2 q + e') ltac:(lia)). lia.
Qed.

(** *** Multiplication *)

Lemma Zdigits2_lower m j : (0 < m)%Z -> (0 <= j)%Z -> (2 ^ j <= m)%Z ->
  (j + 1 <= Zdigits2 m)%Z.
Proof.
  intros Hm Hj Hle. pose proof (Zdigits2_spec m Hm) as [_ Hhi].
  pose proof (Zdigits2_pos m Hm).
  destruct (Z_le_gt_dec (j + 1) (Zdigits2 m)); [assumption|].
  assert (2 ^ Zdigits2 m <= 2 ^ j)%Z by (apply Z.pow_le_mono_r; lia). lia.
Qed.

Lemma Zdigits2_mul a b : (0 < a)%Z -> (0 < b)%Z ->
  (Zdigits2 a + Zdigits2 b - 1 <= Zdigits2 (a * b))%Z.
Proof.
  intros Ha Hb.
  pose proof (Zdigits2_spec a Ha) as [Hla _].
  pose proof (Zdigits2_spec b Hb) as [Hlb _].
  pose proof (Zdigits2_pos a Ha). pose proof (Zdigits2_pos b Hb).
  assert (2 ^ (Zdigits2 a - 1 + (Zdigits2 b - 1)) <= a * b)%Z.
  { rewrite Z.pow_add_r by lia. apply Z.mul_le_mono_nonneg; try assumption;
      apply Z.pow_nonneg; lia. }
  pose proof (Zdigits2_lower (a * b) (Zdigits2 a - 1 + (Zdigits2 b - 1))
                ltac:(nia) ltac:(lia) H1). lia.
Qed.

Lemma Zdigits2_shift m k : (0 < m)%Z -> (0 <= k)%Z ->
  Zdigits2 (m * 2 ^ k) = (Zdigits2 m + k)%Z.
Proof.
  intros Hm Hk. pose proof (Zdigits2_spec m Hm) as [Hlo Hhi].
  pose proof (Zdigits2_pos m Hm).
  assert (0 < 2 ^ k)%Z by (apply Z.pow_pos_nonneg; lia).
  apply Zdigits2_unique; [nia|].
  replace (Zdigits2 m + k - 1)%Z with ((Zdigits2 m - 1) + k)%Z by lia.
  rewrite !Z.pow_add_r by lia. nia.
Qed.

(** The product of two positive floats of the format is correctly
    rounded. *)
Lemma SFmul_rounds mx ex my ey :
  canonical mx ex -> canonical my ey ->
  rounds_to (F2R (Z.pos mx) ex * F2R (Z.pos my) ey)
            (SFmul prec emax (S754_finite false mx ex) (S754_finite false my ey)).
Proof.
  intros Hx Hy. unfold SFmul. simpl xorb.
  apply round_correct; [lia| |].
  - unfold located, F2R. rewrite Pos2Z.inj_mul, mult_IZR, bpow_add. ring.
  - rewrite Pos2Z.inj_mul.
    pose proof (Zdigits2_mul (Z.pos mx) (Z.pos my) ltac:(lia) ltac:(lia)).
    pose proof (Zdigits2_pos (Z.pos mx) ltac:(lia)).
    pose proof (Zdigits2_pos (Z.pos my) ltac:(lia)).
    unfold canonical, fexp, emin in *. lia.
Qed.

(** *** Addition *)

Lemma Pos_iter_xO m d : Z.pos (Pos.iter xO m d) = (Z.pos m * 2 ^ Z.pos d)%Z.
Proof.
  induction d as [|d IH] using Pos.peano_ind.
  - simpl. lia.
  - rewrite Pos.iter_succ, Pos2Z.inj_xO, IH, Pos2Z.inj_succ, Z.pow_succ_r by lia.
    ring.
Qed.

Lemma shl_align_spec mx ex ex' :
  let '(m', e') := shl_align mx ex ex' in
  e' = Z.min ex ex' /\ Z.pos m' = (Z.pos mx * 2 ^ (ex - e'))%Z.
Proof.
  unfold shl_align. destruct (ex' - ex)%Z as [|d|d] eqn:Hd.
  - replace (Z.min ex ex') with ex by lia. rewrite Z.sub_diag. simpl. lia.
  - replace (Z.min ex ex') with ex by lia. rewrite Z.sub_diag. simpl. lia.
  - replace (Z.min ex ex') with ex' by lia. split; [reflexivity|].
    rewrite Pos_iter_xO. f_equal. f_equal. lia.
Qed.

Lemma F2R_shift m e e' : (e' <= e)%Z -> F2R (m * 2 ^ (e - e')) e' = F2R m e.
Proof.
  intros He. unfold F2R.
  replace e with ((e - e') + e')%Z at 2 by lia.
  rewrite mult_IZR, bpow_add, (bpow_IZR (e - e')) by lia. ring.
Qed.

(** The sum of two positive finite floats is correctly rounded. *)
Lemma SFadd_rounds mx ex my ey :
  rounds_to (F2R (Z.pos mx) ex + F2R (Z.pos my) ey)
            (SFadd prec emax (S754_finite false mx ex) (S754_finite false my ey)).
Proof.
  unfold SFadd, cond_Zopp.
  set (ez := Z.min ex ey).
  pose proof (shl_align_spec mx ex ez) as H1.
  pose proof (shl_align_spec my ey ez) as H2.
  destruct (shl_align mx ex ez) as [m1 e1]. destruct (shl_align my ey ez) as [m2 e2].
  destruct H1 as [He1 Hm1]. destruct H2 as [He2 Hm2]. simpl fst.
  replace (Z.min ex ez) with ez in He1 by (unfold ez; lia).
  replace (Z.min ey ez) with ez in He2 by (unfold ez; lia).
  subst e1 e2.
  change (Z.pos m1 + Z.pos m2)%Z with (Z.pos (m1 + m2)).
  unfold binary_normalize, binary_round.
  change (SpecFloat.fexp prec emax) with fexp.
  pose proof (shl_align_spec (m1 + m2) ez (fexp (Z.pos (digits2_pos (m1 + m2)) + ez)))
    as H3.
  destruct (shl_align (m1 + m2) ez _) as [mz ez']. destruct H3 as [Hez Hmz].
  assert (Hsum : F2R (Z.pos mx) ex + F2R (Z.pos my) ey = F2R (Z.pos mz) ez').
  { rewrite Hmz, F2R_shift by lia.
    rewrite <- (F2R_shift (Z.pos mx) ex ez), <- (F2R_shift (Z.pos my) ey ez)
      by (unfold ez; lia).
    rewrite <- Hm1, <- Hm2, Pos2Z.inj_add. unfold F2R. rewrite plus_IZR. ring. }
  rewrite Hsum. apply round_correct; [lia|reflexivity|].
  rewrite Hmz, Zdigits2_shift by lia.
  change (Zdigits2 (Z.pos (m1 + m2))) with (Z.pos (digits2_pos (m1 + m2))).
  replace (Z.pos (digits2_pos (m1 + m2)) + (ez - ez') + ez')%Z
    with (Z.pos (digits2_pos (m1 + m2)) + ez)%Z by lia.
  lia.
Qed.

(** *** Floats of the format *)

Lemma canonical_bounds m e : canonical m e ->
  (emin <= e /\ Z.pos m < 2 ^ 53 /\ (emin < e -> 2 ^ 52 <= Z.pos m))%Z.
Proof.
  unfold canonical. intros Hc.
  pose proof (Zdigits2_spec (Z.pos m) ltac:(lia)) as [Hlo Hhi].
  pose proof (Zdigits2_pos (Z.pos m) ltac:(lia)) as Hd.
  assert (Hd53 : (Zdigits2 (Z.pos m) <= 53)%Z) by (unfold fexp, emin in Hc; lia).
  split; [unfold fexp in Hc; lia|]. split.
  - eapply Z.lt_le_trans; [exact Hhi|]. apply Z.pow_le_mono_r; lia.
  - intros He. assert (Zdigits2 (Z.pos m) = 53)%Z by (unfold fexp, emin in *; lia).
    rewrite H in Hlo. exact Hlo.
Qed.

Lemma canonical_intro m e :
  (emin <= e)%Z -> (Z.pos m < 2 ^ 53)%Z -> (emin < e -> 2 ^ 52 <= Z.pos m)%Z ->
  canonical m e.
Proof.
  intros He Hhi Hn. unfold canonical.
  pose proof (Zdigits2_pos (Z.pos m) ltac:(lia)) as Hd.
  assert (Hd53 : (Zdigits2 (Z.pos m) <= 53)%Z).
  { pose proof (Zdigits2_spec (Z.pos m) ltac:(lia)) as [Hlo _].
    destruct (Z_le_gt_dec (Zdigits2 (Z.pos m)) 53); [assumption|].
    assert (2 ^ 53 <= 2 ^ (Zdigits2 (Z.pos m) - 1))%Z by (apply Z.pow_le_mono_r; lia).
    lia. }
  destruct (Z.eq_dec e emin) as [-> | Hne].
  - unfold fexp, emin. lia.
  - pose proof (Zdigits2_lower (Z.pos m) 52 ltac:(lia) ltac:(lia) ltac:(apply Hn; lia)).
    unfold fexp, emin in *. lia.
Qed.

Lemma encode_good K k :
  (0 <= K <= 2 ^ 53)%Z -> (emin < fexp k -> 2 ^ 52 <= K)%Z ->
  (fexp k <= 971)%Z -> (K = 2 ^ 53 -> fexp k + 1 <= 971)%Z ->
  good (encode K (fexp k)) /\ SF2R (encode K (fexp k)) = F2R K (fexp k).
Proof.
  intros HK Hn He He'. pose proof (fexp_ge_emin k) as Hemin.
  unfold encode. destruct K as [|p|p]; [| |lia].
  - simpl. unfold F2R. split; [exact I|ring].
  - destruct (Z.eqb_spec (Z.pos p) (2 ^ 53)) as [H53 | H53].
    + rewrite (proj2 (Z.leb_le _ _) (He' H53)). simpl. split.
      * split; [|now apply He'].
        apply canonical_intro; [lia|reflexivity|intros _; reflexivity].
      * rewrite H53. unfold F2R. rewrite bpow_succ.
        change (2 ^ 53)%Z with (2 * 4503599627370496)%Z.
        rewrite mult_IZR. ring.
    + rewrite (proj2 (Z.leb_le _ _) He). simpl. split; [|reflexivity].
      split; [|exact He]. apply canonical_intro; [lia|lia|exact Hn].
Qed.

(** *** Rounding is monotone against the format *)

Lemma nearest_even_le t K Y : nearest_even t K -> t <= IZR Y -> (K <= Y)%Z.
Proof.
  intros [[Hlo _] _] Ht.
  assert (IZR K < IZR (Y + 1)) by (rewrite plus_IZR; lra).
  apply lt_IZR in H. lia.
Qed.

Lemma nearest_even_ge t K Y : nearest_even t K -> IZR Y <= t -> (Y <= K)%Z.
Proof.
  intros [[_ Hhi] _] Ht.
  assert (IZR (Y - 1) < IZR K) by (rewrite minus_IZR; lra).
  apply lt_IZR in H. lia.
Qed.

Lemma F2R_div_bpow m e e1 : (e1 <= e)%Z ->
  F2R m e / bpow e1 = IZR (m * 2 ^ (e - e1)).
Proof.
  intros He. rewrite <- (F2R_shift m e e1 He). unfold F2R.
  pose proof (bpow_pos e1). field. apply Rgt_not_eq. lra.
Qed.

Lemma good_nonneg g : good g -> 0 <= SF2R g.
Proof.
  destruct g as [[]|[]| |[] m e]; simpl; try tauto; try lra.
  intros _. apply Rlt_le, F2R_pos. lia.
Qed.

Lemma good_representable g : good g -> representable (SF2R g).
Proof.
  destruct g as [[]|[]| |[] m e]; simpl; try tauto.
  - intros _. exists 0%Z, 0%Z. unfold F2R, emin. simpl. split; [lia|]. split; [lia|ring].
  - intros [Hc He]. pose proof (canonical_bounds _ _ Hc) as (H1 & H2 & _).
    exists (Z.pos m), e. repeat split; try lia.
Qed.

(** Rounding a value below a number of the format stays below it, and
    does not overflow. *)
Lemma rounds_to_below x f v :
  rounds_to x f -> representable v -> x <= v ->
  exists k K,
    x < bpow k
    /\ (bpow (k - 1) <= x \/ (k <= emin)%Z)
    /\ nearest_even (x / bpow (fexp k)) K
    /\ (0 <= K <= 2 ^ 53)%Z
    /\ (emin < fexp k -> 2 ^ 52 <= K)%Z
    /\ f = encode K (fexp k)
    /\ good f
    /\ SF2R f = F2R K (fexp k)
    /\ SF2R f <= v.
Proof.
  intros (k & K & Hhi & Hlo & Hne & HK & Hn & ->) (Y & E & HY & HE & ->) Hx.
  exists k, K. pose proof (bpow_pos (fexp k)) as Hu.
  pose proof (fexp_ge_emin k) as Hemin.
  assert (Hmain : (fexp k <= 971)%Z /\ (K = 2 ^ 53 -> fexp k + 1 <= 971)%Z
                  /\ F2R K (fexp k) <= F2R Y E).
  { destruct (Z.eq_dec Y 0) as [-> | HY0].
    - (* the bound is 0 *)
      unfold F2R in Hx |- *. rewrite Rmult_0_l in *.
      assert (x / bpow (fexp k) <= IZR 0).
      { apply Rmult_le_reg_r with (bpow (fexp k)); [lra|].
        unfold Rdiv. rewrite Rmult_assoc, Rinv_l by lra. lra. }
      pose proof (nearest_even_le _ _ _ Hne H) as HK0.
      assert (K = 0%Z) by lia. subst K.
      split; [|split; [lia|lra]].
      destruct (Z_le_gt_dec (fexp k) 971); [assumption|].
      assert (emin < fexp k)%Z by (unfold emin; lia).
      specialize (Hn H0). lia.
    - destruct (F2R_digits_bounds Y E ltac:(lia)) as [_ HYhi].
      assert (HYlt : F2R Y E < bpow (Zdigits2 Y + E)).
      { eapply Rlt_le_trans; [|exact HYhi]. unfold F2R. rewrite plus_IZR.
        pose proof (bpow_pos E). nra. }
      assert (HdY : (Zdigits2 Y <= 53)%Z).
      { pose proof (Zdigits2_spec Y ltac:(lia)) as [Hlo' _].
        destruct (Z_le_gt_dec (Zdigits2 Y) 53); [assumption|].
        assert (2 ^ 53 <= 2 ^ (Zdigits2 Y - 1))%Z by (apply Z.pow_le_mono_r; lia).
        lia. }
      assert (He1 : (fexp k <= E)%Z).
      { destruct Hlo as [Hlo | Hk].
        - assert (k - 1 < Zdigits2 Y + E)%Z by (apply bpow_lt_inv; lra).
          unfold fexp, emin in *. lia.
        - unfold fexp, emin in *. lia. }
      assert (Ht : x / bpow (fexp k) <= IZR (Y * 2 ^ (E - fexp k))).
      { rewrite <- (F2R_div_bpow _ _ _ He1).
        apply Rmult_le_compat_r; [|exact Hx]. apply Rlt_le, Rinv_0_lt_compat. lra. }
      pose proof (nearest_even_le _ _ _ Hne Ht) as HKY.
      assert (Hpow : (0 < 2 ^ (E - fexp k))%Z) by (apply Z.pow_pos_nonneg; lia).
      split; [lia|]. split.
      + intros ->. destruct (Z.eq_dec E (fexp k)) as [Heq|]; [|lia].
        rewrite Heq, Z.sub_diag in HKY. simpl in HKY. lia.
      + rewrite <- (F2R_shift Y E (fexp k) He1). unfold F2R.
        apply Rmult_le_compat_r; [lra|]. now apply IZR_le. }
  destruct Hmain as (He & He' & Hle).
  destruct (encode_good K k HK Hn He He') as [Hg Hv].
  rewrite Hv. repeat (split; [assumption|]). auto.
Qed.

Lemma rounds_to_le x f v :
  rounds_to x f -> representable v -> x <= v -> good f /\ SF2R f <= v.
Proof.
  intros Hr Hv Hx.
  destruct (rounds_to_below x f v Hr Hv Hx)
    as (k & K & _ & _ & _ & _ & _ & _ & Hg & _ & Hle).
  now split.
Qed.

(** Rounding a value above a number of the format stays above it. *)
Lemma rounds_to_ge x f u v :
  rounds_to x f -> representable u -> representable v -> u <= x -> x <= v ->
  u <= SF2R f.
Proof.
  intros Hr (Y & E & HY & HE & ->) Hv Hux Hxv.
  destruct (rounds_to_below x f v Hr Hv Hxv)
    as (k & K & Hhi & Hlo & Hne & HK & Hn & _ & _ & -> & _).
  pose proof (bpow_pos (fexp k)) as Hu.
  destruct (Z.eq_dec Y 0) as [-> | HY0].
  - unfold F2R. rewrite Rmult_0_l. apply Rmult_le_pos; [apply IZR_le; lia|lra].
  - destruct (F2R_digits_bounds Y E ltac:(lia)) as [HYlo HYhi].
    assert (HdY : (Zdigits2 Y <= 53)%Z).
    { pose proof (Zdigits2_spec Y ltac:(lia)) as [Hlo' _].
      destruct (Z_le_gt_dec (Zdigits2 Y) 53); [assumption|].
      assert (2 ^ 53 <= 2 ^ (Zdigits2 Y - 1))%Z by (apply Z.pow_le_mono_r; lia).
      lia. }
    destruct (Z_le_gt_dec (fexp k) E) as [He1 | He1].
    + assert (Ht : IZR (Y * 2 ^ (E - fexp k)) <= x / bpow (fexp k)).
      { rewrite <- (F2R_div_bpow _ _ _ He1).
        apply Rmult_le_compat_r; [|exact Hux]. apply Rlt_le, Rinv_0_lt_compat. lra. }
      pose proof (nearest_even_ge _ _ _ Hne Ht) as HKY.
      rewrite <- (F2R_shift Y E (fexp k) He1). unfold F2R.
      apply Rmult_le_compat_r; [lra|]. now apply IZR_le.
    + assert (Hnorm : (emin < fexp k)%Z) by lia.
      specialize (Hn Hnorm).
      assert (Hk : fexp k = (k - 53)%Z) by (unfold fexp in *; lia).
      assert (HkY : (Zdigits2 Y + E <= k - 1)%Z).
      { assert (Zdigits2 Y + E - 1 < k)%Z by (apply bpow_lt_inv; lra).
        unfold fexp, emin in *. lia. }
      apply Rle_trans with (bpow (k - 1)).
      * eapply Rle_trans; [|apply bpow_le; exact HkY].
        eapply Rle_trans; [|exact HYhi]. unfold F2R. rewrite plus_IZR.
        pose proof (bpow_pos E). nra.
      * replace (k - 1)%Z with (52 + fexp k)%Z by lia.
        rewrite bpow_add, (bpow_IZR 52) by lia. unfold F2R.
        apply Rmult_le_compat_r; [lra|]. now apply IZR_le.
Qed.

(** The order of canonical floats is the order of their values. *)
Lemma canonical_le m1 e1 m2 e2 :
  canonical m1 e1 -> canonical m2 e2 ->
  F2R (Z.pos m1) e1 <= F2R (Z.pos m2) e2 ->
  (e1 < e2 \/ (e1 = e2 /\ Z.pos m1 <= Z.pos m2))%Z.
Proof.
  intros Hc1 Hc2 Hle.
  pose proof (canonical_bounds _ _ Hc1) as (H1a & H1b & H1c).
  pose proof (canonical_bounds _ _ Hc2) as (H2a & H2b & H2c).
  destruct (Z.lt_trichotomy e1 e2) as [Hlt | [Heq | Hgt]]; [now left| |].
  - right. split; [assumption|]. subst e2. unfold F2R in Hle.
    pose proof (bpow_pos e1).
    assert (IZR (Z.pos m1) <= IZR (Z.pos m2)) by nra. now apply le_IZR.
  - exfalso. specialize (H1c ltac:(lia)).
    assert (F2R (Z.pos m2) e2 < F2R (Z.pos m1) e1); [|lra].
    unfold F2R. pose proof (bpow_pos e2).
    apply Rlt_le_trans with (IZR (2 ^ 53) * bpow e2).
    + apply Rmult_lt_compat_r; [lra|]. now apply IZR_lt.
    + apply Rle_trans with (IZR (2 ^ 52) * bpow (e2 + 1)).
      * rewrite bpow_succ. change (2 ^ 53)%Z with (2 * 2 ^ 52)%Z.
        rewrite mult_IZR. lra.
      * apply Rle_trans with (IZR (2 ^ 52) * bpow e1).
        -- apply Rmult_le_compat_l; [apply IZR_le; lia|]. apply bpow_le. lia.
        -- apply Rmult_le_compat_r; [apply Rlt_le, bpow_pos|]. now apply IZR_le.
Qed.

Lemma good_leb f g : good f -> good g -> SF2R f <= SF2R g -> SFleb f g = true.
Proof.
  intros Hf Hg Hle.
  destruct f as [[]|[]| |[] m1 e1]; simpl in Hf; try tauto;
    destruct g as [[]|[]| |[] m2 e2]; simpl in Hg; try tauto; try reflexivity.
  - simpl in Hle. pose proof (F2R_pos (Z.pos m1) e1 ltac:(lia)). lra.
  - destruct Hf as [Hc1 _]. destruct Hg as [Hc2 _]. simpl in Hle.
    unfold SFleb, SFcompare.
    destruct (canonical_le _ _ _ _ Hc1 Hc2 Hle) as [Hlt | [-> Hm]].
    + now rewrite (proj2 (Z.compare_lt_iff _ _) Hlt).
    + rewrite Z.compare_refl.
      change (Pos.compare_cont Eq m1 m2) with (Pos.compare m1 m2).
      destruct (Pos.compare_spec m1 m2); try reflexivity. lia.
Qed.

Lemma good_inj f g : good f -> good g -> SF2R f = SF2R g -> f = g.
Proof.
  intros Hf Hg Heq.
  destruct f as [[]|[]| |[] m1 e1]; simpl in Hf; try tauto;
    destruct g as [[]|[]| |[] m2 e2]; simpl in Hg; try tauto; try reflexivity;
    simpl in Heq.
  - pose proof (F2R_pos (Z.pos m2) e2 ltac:(lia)). lra.
  - pose proof (F2R_pos (Z.pos m1) e1 ltac:(lia)). lra.
  - destruct Hf as [Hc1 _]. destruct Hg as [Hc2 _].
    destruct (canonical_le _ _ _ _ Hc1 Hc2 ltac:(lra)) as [Hlt | [-> Hm]];
      destruct (canonical_le _ _ _ _ Hc2 Hc1 ltac:(lra)) as [Hlt' | [He Hm']];
      try lia.
    f_equal. lia.
Qed.

(** Rounding a number of the format returns it. *)
Lemma rounds_to_exact x f g : rounds_to x f -> good g -> x = SF2R g -> f = g.
Proof.
  intros Hr Hg Hx. pose proof (good_representable g Hg) as Hrep.
  destruct (rounds_to_le x f _ Hr Hrep ltac:(lra)) as [Hf Hle].
  pose proof (rounds_to_ge x f _ _ Hr Hrep Hrep ltac:(lra) ltac:(lra)) as Hge.
  apply good_inj; try assumption. lra.
Qed.

(** *** Around 1.0 *)

Lemma bpow_opp e : bpow (- e) = / bpow e.
Proof. apply powerRZ_neg'. Qed.

Lemma bpow_m52 : bpow (-52) = / 4503599627370496.
Proof.
  change (-52)%Z with (Z.opp 52).
  rewrite (bpow_opp 52), (bpow_IZR 52) by lia. reflexivity.
Qed.

Lemma bpow_m53 : bpow (-53) = / 9007199254740992.
Proof.
  change (-53)%Z with (Z.opp 53).
  rewrite (bpow_opp 53), (bpow_IZR 53) by lia. reflexivity.
Qed.

Lemma bpow_m54 : bpow (-54) = / 18014398509481984.
Proof.
  change (-54)%Z with (Z.opp 54).
  rewrite (bpow_opp 54), (bpow_IZR 54) by lia. reflexivity.
Qed.

Lemma good_fone : good fone /\ SF2R fone = 1.
Proof.
  split.
  - split; [reflexivity | lia].
  - simpl. unfold F2R. rewrite bpow_m52. field.
Qed.

(** A sum within a quarter of an ulp above 1, or half an ulp below,
    rounds to 1. *)
Lemma rounds_to_one S f :
  rounds_to S f -> 1 - bpow (-54) <= S <= 1 + bpow (-54) -> f = fone.
Proof.
  intros Hr [Hlo Hhi]. rewrite bpow_m54 in *.
  destruct (Rlt_le_dec S 1) as [Hlt | Hge].
  - destruct (rounds_to_mag S f 0 Hr) as (K & Hne & HK & _ & ->).
    { rewrite bpow_0. change (0 - 1)%Z with (Z.opp 1).
      rewrite (bpow_opp 1), bpow_1. lra. }
    change (fexp 0) with (-53)%Z in *. rewrite bpow_m53 in Hne.
    destruct Hne as [[Hn1 Hn2] Hev].
    assert (Ht : 9007199254740992 - 1/2 <= S / / 9007199254740992 < 9007199254740992)
      by (split; [|]; field_simplify; lra).
    set (t := S / / 9007199254740992) in *. clearbody t.
    assert (HK1 : (9007199254740992 - 1 <= K)%Z).
    { assert (IZR (9007199254740992 - 2) < IZR K) by (rewrite minus_IZR; lra).
      apply lt_IZR in H. lia. }
    change (2 ^ 53)%Z with 9007199254740992%Z in HK.
    assert (HKc : K = 9007199254740992%Z \/ K = (9007199254740992 - 1)%Z) by lia.
    destruct HKc as [-> | ->]; [reflexivity|].
    exfalso. rewrite minus_IZR in *.
    assert (Hodd : Z.even (9007199254740992 - 1) = true) by (apply Hev; right; lra).
    discriminate Hodd.
  - destruct (rounds_to_mag S f 1 Hr) as (K & Hne & HK & _ & ->).
    { rewrite bpow_1. change (1 - 1)%Z with 0%Z. rewrite bpow_0. lra. }
    change (fexp 1) with (-52)%Z in *. rewrite bpow_m52 in Hne.
    destruct Hne as [[Hn1 Hn2] _].
    assert (Ht : 4503599627370496 <= S / / 4503599627370496 <= 4503599627370496 + 1/4)
      by (split; [|]; field_simplify; lra).
    set (t := S / / 4503599627370496) in *. clearbody t.
    assert (K = 4503599627370496%Z).
    { assert (IZR (4503599627370496 - 1) < IZR K) by (rewrite minus_IZR; lra).
      assert (IZR K < IZR (4503599627370496 + 1)) by (rewrite plus_IZR; lra).
      apply lt_IZR in H, H0. lia. }
    subst K. reflexivity.
Qed.

(** A float of the format is its own rounding. *)
Lemma good_rounds_to_self m e :
  good (S754_finite false m e) ->
  rounds_to (F2R (Z.pos m) e) (S754_finite false m e).
Proof.
  intros [Hc He]. pose proof (canonical_bounds _ _ Hc) as (H1 & H2 & H3).
  destruct (F2R_digits_bounds (Z.pos m) e ltac:(lia)) as [Hlo Hhi].
  pose proof (bpow_pos e) as Hu.
  exists (Zdigits2 (Z.pos m) + e)%Z, (Z.pos m).
  unfold canonical in Hc. rewrite <- Hc.
  split; [|split; [|split; [|split; [|split]]]].
  - eapply Rlt_le_trans; [|exact Hhi]. unfold F2R. rewrite plus_IZR. nra.
  - left. exact Hlo.
  - unfold F2R. replace (IZR (Z.pos m) * bpow e / bpow e) with (IZR (Z.pos m))
      by (field; apply Rgt_not_eq; lra).
    split; [lra|]. intros [H|H]; lra.
  - lia.
  - exact H3.
  - unfold encode. destruct (Z.eqb_spec (Z.pos m) (2 ^ 53)) as [H|H]; [lia|].
    now rewrite (proj2 (Z.leb_le _ _) He).
Qed.

(** Two floats whose exact sum is that close to 1 add up to 1.0. *)
Lemma fadd_one P Q :
  good P -> good Q ->
  1 - bpow (-54) <= SF2R P + SF2R Q <= 1 + bpow (-54) ->
  SFadd prec emax P Q = fone.
Proof.
  intros HP HQ HS.
  assert (Hpos : 0 < 1 - bpow (-54)) by (rewrite bpow_m54; lra).
  destruct P as [[]|[]| |[] mp ep]; simpl in HP; try tauto;
    destruct Q as [[]|[]| |[] mq eq]; simpl in HQ; try tauto.
  - simpl in HS. lra.
  - simpl in HS. rewrite Rplus_0_l in HS.
    apply (rounds_to_one _ _ (good_rounds_to_self mq eq HQ) HS).
  - simpl in HS. rewrite Rplus_0_r in HS.
    apply (rounds_to_one _ _ (good_rounds_to_self mp ep HP) HS).
  - apply (rounds_to_one _ _ (SFadd_rounds mp ep mq eq) HS).
Qed.

(** The roundings of two numbers that add up to 1 add up to 1 within
    half an ulp of 1. *)
Lemma complement_interval x y P Q :
  0 < x -> x + y = 1 -> 1/2 <= y ->
  rounds_to x P -> rounds_to y Q ->
  good P /\ good Q
  /\ 1 - bpow (-54) <= SF2R P + SF2R Q <= 1 + bpow (-54).
Proof.
  intros Hx Hxy Hy HrP HrQ.
  destruct (rounds_to_mag y Q 0 HrQ) as (K & Hne & HK & HKn & ->).
  { rewrite bpow_0. change (0 - 1)%Z with (Z.opp 1).
    rewrite (bpow_opp 1), bpow_1. lra. }
  destruct (encode_good K 0 HK HKn) as [HgQ HvQ];
    [unfold fexp, emin; lia | unfold fexp, emin; lia |].
  change (fexp 0) with (-53)%Z in *. specialize (HKn ltac:(unfold emin; lia)).
  change (2 ^ 53)%Z with 9007199254740992%Z in HK.
  change (2 ^ 52)%Z with 4503599627370496%Z in HKn.
  rewrite HvQ. unfold F2R. rewrite bpow_m53 in *. rewrite bpow_m54.
  destruct Hne as [[Hn1 Hn2] _].
  set (j := (9007199254740992 - K)%Z).
  assert (Hj : (0 <= j <= 4503599627370496)%Z) by (unfold j; lia).
  assert (HKj : IZR K = 9007199254740992 - IZR j).
  { unfold j. rewrite minus_IZR. lra. }
  assert (Hjx : (IZR j - 1/2) * / 9007199254740992 <= x
                <= (IZR j + 1/2) * / 9007199254740992).
  { replace x with (1 - y) by lra.
    assert (y = y / / 9007199254740992 * / 9007199254740992) by (field; lra).
    set (t := y / / 9007199254740992) in *. clearbody t. split; nra. }
  clearbody j.
  (* the upper bound *)
  assert (Hup : exists v, representable v /\ x <= v
                          /\ v <= (2 * IZR j + 1) * / 18014398509481984).
  { destruct (Z.eq_dec j 4503599627370496) as [-> | Hjn].
    - exists (F2R 1 (-1)). split; [|split].
      + exists 1%Z, (-1)%Z. unfold emin. repeat split; lia.
      + unfold F2R. change (-1)%Z with (Z.opp 1).
        rewrite (bpow_opp 1), bpow_1. lra.
      + unfold F2R. change (-1)%Z with (Z.opp 1).
        rewrite (bpow_opp 1), bpow_1. lra.
    - exists (F2R (2 * j + 1) (-54)). split; [|split].
      + exists (2 * j + 1)%Z, (-54)%Z. unfold emin. repeat split; lia.
      + unfold F2R. rewrite bpow_m54, plus_IZR, mult_IZR. lra.
      + unfold F2R. rewrite bpow_m54, plus_IZR, mult_IZR. lra. }
  destruct Hup as (v & Hrv & Hxv & Hv).
  destruct (rounds_to_le x P v HrP Hrv Hxv) as [HgP HPv].
  split; [exact HgP|]. split; [exact HgQ|].
  assert (Hlow : (2 * IZR j - 1) * / 18014398509481984 <= SF2R P).
  { destruct (Z.eq_dec j 0) as [-> | Hjn].
    - pose proof (good_nonneg P HgP). lra.
    - assert (Hge : F2R (2 * j - 1) (-54) <= SF2R P).
      { apply (rounds_to_ge x P (F2R (2 * j - 1) (-54)) v HrP); try assumption.
        - exists (2 * j - 1)%Z, (-54)%Z. unfold emin. repeat split; lia.
        - unfold F2R. rewrite bpow_m54, minus_IZR, mult_IZR. lra. }
      unfold F2R in Hge. rewrite bpow_m54, minus_IZR, mult_IZR in Hge. lra. }
  rewrite HKj. lra.
Qed.

End RoundingFacts.

(* ================================================================= *)
(** ** Derived metrics *)

Module ReportFacts.

Import Metrics Report Spec Rounding RoundingFacts.

Local Open Scope R_scope.

(** *** Ratios of counts *)

Lemma int_truediv_rounds n d :
  (0 < n)%Z -> (n <= d)%Z ->
  exists f,
    int_truediv n d = Ok f
    /\ rounds_to (IZR n / IZR d) f /\ good f /\ SF2R f <= 1.
Proof.
  intros Hn Hd. unfold int_truediv.
  rewrite (proj2 (Z.eqb_neq d 0)), (proj2 (Z.eqb_neq n 0)) by lia.
  rewrite (proj2 (Z.ltb_ge n 0)), (proj2 (Z.ltb_ge d 0)) by lia.
  rewrite !Z.abs_eq by lia.
  pose proof (SFdiv_rounds (Z.to_pos n) 0 (Z.to_pos d) 0) as Hr.
  unfold F2R in Hr. rewrite !Z2Pos.id, bpow_0, !Rmult_1_r in Hr by lia.
  fold (fdiv (S754_finite false (Z.to_pos n) 0) (S754_finite false (Z.to_pos d) 0)) in Hr.
  set (f := fdiv _ _) in *. clearbody f.
  assert (Hx : IZR n / IZR d <= 1).
  { assert (0 < IZR d) by (apply IZR_lt; lia).
    assert (IZR n <= IZR d) by now apply IZR_le.
    apply Rmult_le_reg_r with (IZR d); [assumption|].
    unfold Rdiv. rewrite Rmult_assoc, Rinv_l by lra. lra. }
  destruct good_fone as [Hg1 Hv1].
  destruct (rounds_to_le _ f 1 Hr) as [Hg Hle];
    [rewrite <- Hv1; now apply good_representable | exact Hx |].
  exists f. repeat split; try assumption.
  destruct f as [[]|[]| |[] m e]; simpl in Hg; try tauto; reflexivity.
Qed.

Lemma good_fzero : good fzero /\ SF2R fzero = 0.
Proof. split; [exact I | reflexivity]. Qed.

(** A ratio of counts never raises, is the reference ratio, and lies
    between 0 and 1. *)
Lemma safe_div_counts n d :
  (0 <= n <= d)%Z ->
  safe_div (NInt n) (NInt d) = Ok (ratio n d)
  /\ good (ratio n d) /\ SF2R (ratio n d) <= 1
  /\ (d = 0%Z -> ratio n d = fzero)
  /\ ((0 < n)%Z -> rounds_to (IZR n / IZR d) (ratio n d)).
Proof.
  intros Hnd. unfold safe_div, ratio, eq_zero, py_truediv, literal.
  destruct (Z.eqb_spec d 0) as [Hd0 | Hd0].
  - split; [reflexivity|]. split; [exact I|]. split; [simpl; lra|].
    split; [reflexivity | lia].
  - destruct (Z.eq_dec n 0) as [-> | Hn0].
    + unfold int_truediv.
      rewrite (proj2 (Z.eqb_neq d 0)) by lia. simpl Z.eqb. cbv iota.
      rewrite (proj2 (Z.ltb_ge d 0)) by lia.
      split; [reflexivity|]. split; [exact I|]. split; [simpl; lra|].
      split; lia.
    + destruct (int_truediv_rounds n d ltac:(lia) ltac:(lia))
        as (f & -> & Hr & Hg & Hle).
      split; [reflexivity|]. split; [exact Hg|]. split; [exact Hle|].
      split; [lia | intros _; exact Hr].
Qed.

(** *** f1 *)

Lemma float_of_int_2 : to_float (NInt 2) = Ok two.
Proof. reflexivity. Qed.

(** The arithmetic of f1 never raises and is the reference formula. *)
Lemma f1_harmonic p r :
  (two_p <- py_mul (NInt 2) (NFloat p) ;;
   two_p_r <- py_mul two_p (NFloat r) ;;
   p_plus_r <- py_add (NFloat p) (NFloat r) ;;
   safe_div two_p_r p_plus_r)%py
  = Ok (harmonic p r).
Proof.
  change (py_mul (NInt 2) (NFloat p)) with (Ok (NFloat (fmul two p))).
  cbv beta iota delta [bind py_mul py_add to_float safe_div eq_zero
                       py_truediv float_truediv harmonic].
  now destruct (feqb (fadd p r) fzero).
Qed.

Lemma good_cases f :
  good f ->
  f = fzero \/ exists m e, f = S754_finite false m e /\ canonical m e /\ (e <= 971)%Z.
Proof.
  destruct f as [[]|[]| |[] m e]; simpl; try tauto.
  intros [Hc He]. right. now exists m, e.
Qed.

Lemma good_feqb_zero f : good f -> feqb f fzero = true -> f = fzero.
Proof.
  intros Hg. destruct (good_cases f Hg) as [-> | (m & e & -> & _)];
    [reflexivity | discriminate].
Qed.

(** Doubling is exact on floats up to 1. *)
Lemma fmul_two p :
  good p -> SF2R p <= 1 ->
  good (fmul two p) /\ SF2R (fmul two p) = 2 * SF2R p.
Proof.
  intros Hg Hle. destruct (good_cases p Hg) as [-> | (m & e & -> & Hc & He)].
  - split; [exact I | simpl; lra].
  - assert (Hctwo : canonical 4503599627370496 (-51)) by reflexivity.
    pose proof (SFmul_rounds _ _ _ _ Hctwo Hc) as Hr.
    change (rounds_to (F2R 4503599627370496 (-51) * F2R (Z.pos m) e)
                      (fmul two (S754_finite false m e))) in Hr.
    assert (Hv2 : F2R 4503599627370496 (-51) = 2).
    { unfold F2R. change (-51)%Z with (-52 + 1)%Z.
      rewrite bpow_succ, bpow_m52. field. }
    rewrite Hv2 in Hr.
    set (f := fmul two (S754_finite false m e)) in *. clearbody f.
    change (SF2R (S754_finite false m e)) with (F2R (Z.pos m) e) in *.
    destruct good_fone as [[Hc1 _] Hv1].
    change (SF2R fone) with (F2R 4503599627370496 (-52)) in Hv1.
    rewrite <- Hv1 in Hle.
    pose proof (canonical_bounds _ _ Hc) as (Hb1 & Hb2 & Hb3).
    assert (He52 : (e <= -52)%Z)
      by (destruct (canonical_le _ _ _ _ Hc Hc1 Hle); lia).
    assert (Hrep : representable (2 * F2R (Z.pos m) e)).
    { exists (Z.pos m), (e + 1)%Z. repeat split; try lia.
      unfold F2R. rewrite bpow_succ. ring. }
    destruct (rounds_to_le _ _ _ Hr Hrep ltac:(lra)) as [Hgf Hlef].
    pose proof (rounds_to_ge _ _ _ _ Hr Hrep Hrep ltac:(lra) ltac:(lra)).
    split; [assumption | lra].
Qed.

Lemma fmul_le a b v :
  good a -> good b -> representable v -> SF2R a * SF2R b <= v ->
  good (fmul a b) /\ SF2R (fmul a b) <= v.
Proof.
  intros Ha Hb Hv Hle.
  destruct (good_cases a Ha) as [-> | (ma & ea & -> & Hca & _)];
    destruct (good_cases b Hb) as [-> | (mb & eb & -> & Hcb & _)];
    try (simpl in Hle |- *; split; [exact I | lra]).
  apply (rounds_to_le _ _ _ (SFmul_rounds _ _ _ _ Hca Hcb) Hv Hle).
Qed.

Lemma fadd_between a b u v :
  good a -> good b -> representable u -> representable v ->
  u <= SF2R a + SF2R b <= v ->
  good (fadd a b) /\ u <= SF2R (fadd a b) <= v.
Proof.
  intros Ha Hb Hu Hv [Hlo Hhi].
  destruct (good_cases a Ha) as [-> | (ma & ea & -> & Hca & Hea)];
    destruct (good_cases b Hb) as [-> | (mb & eb & -> & Hcb & Heb)].
  - simpl in *. split; [exact I | lra].
  - simpl in *. split; [now split | lra].
  - simpl in *. split; [now split | lra].
  - pose proof (SFadd_rounds ma ea mb eb) as Hr.
    fold (fadd (S754_finite false ma ea) (S754_finite false mb eb)) in Hr.
    simpl in Hlo, Hhi.
    destruct (rounds_to_le _ _ _ Hr Hv Hhi) as [Hg Hle].
    pose proof (rounds_to_ge _ _ _ _ Hr Hu Hv Hlo Hhi).
    split; [assumption | lra].
Qed.

Lemma fdiv_le_one a b :
  good a -> good b -> b <> fzero -> SF2R a <= SF2R b ->
  good (fdiv a b) /\ SF2R (fdiv a b) <= 1.
Proof.
  intros Ha Hb Hb0 Hle.
  destruct (good_cases b Hb) as [-> | (mb & eb & -> & Hcb & Heb)]; [congruence|].
  destruct (good_cases a Ha) as [-> | (ma & ea & -> & Hca & Hea)].
  - simpl. split; [exact I | lra].
  - pose proof (SFdiv_rounds ma ea mb eb) as Hr.
    fold (fdiv (S754_finite false ma ea) (S754_finite false mb eb)) in Hr.
    simpl in Hle. destruct good_fone as [Hg1 Hv1].
    apply (rounds_to_le _ _ _ Hr).
    + rewrite <- Hv1. now apply good_representable.
    + pose proof (F2R_pos (Z.pos mb) eb ltac:(lia)).
      apply Rmult_le_reg_r with (F2R (Z.pos mb) eb); [assumption|].
      unfold Rdiv. rewrite Rmult_assoc, Rinv_l by lra. lra.
Qed.

(** The reference f1 of two ratios lies between 0 and 1. *)
Lemma harmonic_good p r :
  good p -> good r -> SF2R p <= 1 -> SF2R r <= 1 ->
  good (harmonic p r) /\ SF2R (harmonic p r) <= 1.
Proof.
  intros Hp Hr Hp1 Hr1. unfold harmonic.
  destruct (feqb (fadd p r) fzero) eqn:Hz; [split; [exact I | simpl; lra]|].
  destruct (fmul_two p Hp Hp1) as [Hg2p Hv2p].
  destruct (fmul_two r Hr Hr1) as [Hg2r Hv2r].
  pose proof (good_nonneg p Hp) as Hp0. pose proof (good_nonneg r Hr) as Hr0.
  assert (Hrep2 : representable 2).
  { exists 1%Z, 1%Z. unfold emin, F2R. rewrite bpow_1.
    repeat split; try lia. ring. }
  assert (HND : exists u, representable u
                          /\ SF2R (fmul two p) * SF2R r <= u
                          /\ u <= SF2R p + SF2R r).
  { destruct (Rle_lt_dec (SF2R p) (SF2R r)).
    - exists (SF2R (fmul two p)). split; [now apply good_representable|].
      rewrite Hv2p. split; nra.
    - exists (SF2R (fmul two r)). split; [now apply good_representable|].
      rewrite Hv2p, Hv2r. split; nra. }
  destruct HND as (u & Hu & HNu & HuD).
  destruct (fmul_le _ _ u Hg2p Hr Hu HNu) as [HgN HN].
  destruct (fadd_between p r u 2 Hp Hr Hu Hrep2 ltac:(lra)) as [HgD [HD _]].
  apply fdiv_le_one; try assumption; [|lra].
  intros H0. rewrite H0 in Hz. discriminate.
Qed.


Lemma safe_div_floats n d :
  safe_div (NFloat n) (NFloat d)
  = Ok (if feqb d fzero then fzero else fdiv n d).
Proof.
  unfold safe_div, eq_zero, py_truediv, to_float, float_truediv.
  now destruct (feqb d fzero).
Qed.

(** *** Complements *)

(** The two ratios of a count and of its complement add up to 1.0. *)
Lemma complement_ratios a b :
  (0 <= a)%Z -> (0 <= b)%Z -> (0 < a + b)%Z ->
  fadd (ratio a (a + b)) (ratio b (b + a)) = fone.
Proof.
  intros Ha Hb Hn. replace (b + a)%Z with (a + b)%Z by lia.
  set (n := (a + b)%Z) in *.
  destruct (safe_div_counts a n ltac:(lia)) as (_ & HgP & _ & _ & HrP).
  destruct (safe_div_counts b n ltac:(lia)) as (_ & HgQ & _ & _ & HrQ).
  destruct good_fone as [Hg1 Hv1].
  assert (Hnn : ratio n n = fone).
  { destruct (safe_div_counts n n ltac:(lia)) as (_ & _ & _ & _ & Hr).
    apply (rounds_to_exact _ _ _ (Hr Hn) Hg1). rewrite Hv1.
    field. apply Rgt_not_eq, IZR_lt. lia. }
  assert (H0n : ratio 0 n = fzero).
  { unfold ratio, literal, int_truediv.
    rewrite (proj2 (Z.eqb_neq n 0)) by lia. simpl Z.eqb. cbv iota.
    now rewrite (proj2 (Z.ltb_ge n 0)) by lia. }
  destruct (Z.eq_dec a 0) as [Ha0 | Ha0].
  { replace b with n by lia. rewrite Ha0, H0n, Hnn. reflexivity. }
  destruct (Z.eq_dec b 0) as [Hb0 | Hb0].
  { replace a with n by lia. rewrite Hb0, H0n, Hnn. reflexivity. }
  specialize (HrP ltac:(lia)). specialize (HrQ ltac:(lia)).
  assert (HN : 0 < IZR n) by (apply IZR_lt; lia).
  assert (HA : 0 < IZR a) by (apply IZR_lt; lia).
  assert (HB : 0 < IZR b) by (apply IZR_lt; lia).
  assert (Hsum : IZR a / IZR n + IZR b / IZR n = 1).
  { unfold n. rewrite plus_IZR. field. rewrite <- plus_IZR. apply Rgt_not_eq. exact HN. }
  assert (Hxpos : 0 < IZR a / IZR n) by (apply Rdiv_lt_0_compat; assumption).
  assert (Hypos : 0 < IZR b / IZR n) by (apply Rdiv_lt_0_compat; assumption).
  apply fadd_one; try assumption.
  destruct (Rle_lt_dec (1/2) (IZR b / IZR n)) as [Hy | Hy].
  - apply (complement_interval _ _ _ _ Hxpos Hsum Hy HrP HrQ).
  - rewrite Rplus_comm.
    assert (Hsum' : IZR b / IZR n + IZR a / IZR n = 1) by lra.
    assert (Hx : 1 / 2 <= IZR a / IZR n) by lra.
    apply (complement_interval _ _ _ _ Hypos Hsum' Hx HrQ HrP).
Qed.

Local Open Scope Z_scope.

(** The report of non-negative counts, field by field. *)
Lemma metrics_from_counts_eq c :
  0 <= tp c -> 0 <= fp c -> 0 <= tn c -> 0 <= fn c ->
  metrics_from_counts c
  = Ok [ ("counts", VCounts [("tp", tp c); ("fp", fp c); ("tn", tn c); ("fn", fn c)]);
         ("accuracy", VFloat (ratio (tp c + tn c) (tp c + fp c + tn c + fn c)));
         ("precision", VFloat (ratio (tp c) (tp c + fp c)));
         ("recall", VFloat (ratio (tp c) (tp c + fn c)));
         ("specificity", VFloat (ratio (tn c) (tn c + fp c)));
         ("f1", VFloat (harmonic (ratio (tp c) (tp c + fp c))
                                 (ratio (tp c) (tp c + fn c))));
         ("fpr", VFloat (ratio (fp c) (fp c + tn c)));
         ("fnr", VFloat (ratio (fn c) (fn c + tp c))) ].
Proof.
  intros Htp Hfp Htn Hfn. unfold metrics_from_counts.
  rewrite (proj1 (safe_div_counts (tp c + tn c) (tp c + fp c + tn c + fn c)
                                  ltac:(lia))).
  rewrite (proj1 (safe_div_counts (tp c) (tp c + fp c) ltac:(lia))).
  rewrite (proj1 (safe_div_counts (tp c) (tp c + fn c) ltac:(lia))).
  rewrite (proj1 (safe_div_counts (tn c) (tn c + fp c) ltac:(lia))).
  rewrite (proj1 (safe_div_counts (fp c) (fp c + tn c) ltac:(lia))).
  rewrite (proj1 (safe_div_counts (fn c) (fn c + tp c) ltac:(lia))).
  cbn [bind].
  change (py_mul (NInt 2) (NFloat (ratio (tp c) (tp c + fp c))))
    with (Ok (NFloat (fmul two (ratio (tp c) (tp c + fp c))))).
  cbv beta iota delta [bind py_mul py_add to_float].
  rewrite safe_div_floats. reflexivity.
Qed.

(** C2: on non-negative counts [metrics_from_counts] returns the
    reference formulas: accuracy = (tp+tn)/total, precision = tp/(tp+fp),
    recall = tp/(tp+fn), specificity = tn/(tn+fp),
    f1 = 2*precision*recall/(precision+recall), fpr = fp/(fp+tn),
    fnr = fn/(fn+tp).  A ratio of counts is 0.0 when its denominator is
    zero and otherwise the float nearest to the exact quotient; f1 is
    0.0 when precision + recall is 0.0 and otherwise the float quotient
    of the float product by the float sum. *)
Theorem metrics_from_counts_formulas :
  forall c : ConfusionCounts,
    0 <= tp c -> 0 <= fp c -> 0 <= tn c -> 0 <= fn c ->
    metrics_from_counts c
    = Ok [ ("counts", VCounts [("tp", tp c); ("fp", fp c); ("tn", tn c); ("fn", fn c)]);
           ("accuracy", VFloat (ratio (tp c + tn c) (tp c + fp c + tn c + fn c)));
           ("precision", VFloat (ratio (tp c) (tp c + fp c)));
           ("recall", VFloat (ratio (tp c) (tp c + fn c)));
           ("specificity", VFloat (ratio (tn c) (tn c + fp c)));
           ("f1", VFloat (harmonic (ratio (tp c) (tp c + fp c))
                                   (ratio (tp c) (tp c + fn c))));
           ("fpr", VFloat (ratio (fp c) (fp c + tn c)));
           ("fnr", VFloat (ratio (fn c) (fn c + tp c))) ]
    /\ (forall n, ratio n 0 = fzero)
    /\ (forall d, 0 < d -> ratio 0 d = fzero)
    /\ (forall n d, 0 < n <= d -> rounds_to (IZR n / IZR d) (ratio n d))
    /\ (forall p r, feqb (fadd p r) fzero = true -> harmonic p r = fzero)
    /\ (forall p r, feqb (fadd p r) fzero = false ->
                    harmonic p r = fdiv (fmul (fmul two p) r) (fadd p r)).
Proof.
  intros c Htp Hfp Htn Hfn.
  split; [now apply metrics_from_counts_eq|].
  split; [reflexivity|]. split; [|split; [|split]].
  - intros d Hd. unfold ratio, literal, int_truediv.
    rewrite (proj2 (Z.eqb_neq d 0)) by lia. simpl Z.eqb. cbv iota.
    now rewrite (proj2 (Z.ltb_ge d 0)) by lia.
  - intros n d Hnd.
    destruct (safe_div_counts n d ltac:(lia)) as (_ & _ & _ & _ & Hr).
    apply Hr. lia.
  - intros p r H. unfold harmonic. now rewrite H.
  - intros p r H. unfold harmonic. now rewrite H.
Qed.

Lemma metrics_from_counts_formulas_witness :
  metrics_from_counts (mkCounts 1 2 3 4)
  = Ok [ ("counts", VCounts [("tp", 1); ("fp", 2); ("tn", 3); ("fn", 4)]);
         ("accuracy", VFloat (ratio (1 + 3) (1 + 2 + 3 + 4)));
         ("precision", VFloat (ratio 1 (1 + 2)));
         ("recall", VFloat (ratio 1 (1 + 4)));
         ("specificity", VFloat (ratio 3 (3 + 2)));
         ("f1", VFloat (harmonic (ratio 1 (1 + 2)) (ratio 1 (1 + 4))));
         ("fpr", VFloat (ratio 2 (2 + 3)));
         ("fnr", VFloat (ratio 4 (4 + 1))) ].
Proof.
  apply (metrics_from_counts_formulas (mkCounts 1 2 3 4)); simpl; lia.
Defined.

(** C3: on non-negative counts, all zero included,
    [metrics_from_counts] returns, and each of its seven ratios [f] is a
    finite float with [0.0 <= f <= 1.0], hence no NaN.  A ratio whose
    denominator is zero is 0.0. *)
Theorem metrics_in_unit_interval :
  forall c : ConfusionCounts,
    0 <= tp c -> 0 <= fp c -> 0 <= tn c -> 0 <= fn c ->
    exists m,
      metrics_from_counts c = Ok m
      /\ (forall key, In key ratio_keys ->
            exists f, get_float key m = Some f
                      /\ fleb fzero f = true /\ fleb f fone = true
                      /\ f <> S754_nan
                      /\ (forall s, f <> S754_infinity s))
      /\ (tp c + fp c + tn c + fn c = 0 -> get_float "accuracy" m = Some fzero)
      /\ (tp c + fp c = 0 -> get_float "precision" m = Some fzero)
      /\ (tp c + fn c = 0 -> get_float "recall" m = Some fzero
                             /\ get_float "fnr" m = Some fzero)
      /\ (tn c + fp c = 0 -> get_float "specificity" m = Some fzero
                             /\ get_float "fpr" m = Some fzero)
      /\ (forall p r, get_float "precision" m = Some p ->
                      get_float "recall" m = Some r ->
                      feqb (fadd p r) fzero = true ->
                      get_float "f1" m = Some fzero).
Proof.
  intros c Htp Hfp Htn Hfn.
  eexists. split; [now apply metrics_from_counts_eq|].
  assert (Hunit : forall f, good f -> (SF2R f <= 1)%R ->
            fleb fzero f = true /\ fleb f fone = true
            /\ f <> S754_nan /\ (forall s, f <> S754_infinity s)).
  { intros f Hg Hle. destruct good_fone as [Hg1 Hv1].
    split; [|split; [|split]].
    - apply good_leb; [exact I | exact Hg |]. simpl. now apply good_nonneg.
    - apply good_leb; [exact Hg | exact Hg1 |]. now rewrite Hv1.
    - intros ->. exact Hg.
    - intros s ->. destruct s; exact Hg. }
  assert (Hratio : forall n d, 0 <= n <= d ->
            good (ratio n d) /\ (SF2R (ratio n d) <= 1)%R).
  { intros n d Hnd.
    destruct (safe_div_counts n d Hnd) as (_ & Hg & Hle & _). now split. }
  split; [|split; [|split; [|split; [|split]]]].
  - intros key Hkey. unfold ratio_keys in Hkey. simpl in Hkey.
    destruct Hkey as [<- | [<- | [<- | [<- | [<- | [<- | [<- | []]]]]]]];
      eexists; (split; [reflexivity|]).
    + apply Hunit; apply Hratio; lia.
    + apply Hunit; apply Hratio; lia.
    + apply Hunit; apply Hratio; lia.
    + apply Hunit; apply Hratio; lia.
    + destruct (Hratio (tp c) (tp c + fp c) ltac:(lia)) as [Hgp Hp1].
      destruct (Hratio (tp c) (tp c + fn c) ltac:(lia)) as [Hgr Hr1].
      destruct (harmonic_good _ _ Hgp Hgr Hp1 Hr1) as [Hg Hle].
      now apply Hunit.
    + apply Hunit; apply Hratio; lia.
    + apply Hunit; apply Hratio; lia.
  - intros H. unfold get_float. simpl. now rewrite H.
  - intros H. unfold get_float. simpl. now rewrite H.
  - intros H. unfold get_float. simpl.
    replace (fn c + tp c) with (tp c + fn c) by lia. now rewrite H.
  - intros H. unfold get_float. simpl.
    replace (fp c + tn c) with (tn c + fp c) by lia. now rewrite H.
  - intros p r Hp Hr Hz. unfold get_float in *. simpl in *.
    injection Hp as <-. injection Hr as <-.
    unfold harmonic. now rewrite Hz.
Qed.

Lemma metrics_in_unit_interval_witness :
  exists m,
    metrics_from_counts (mkCounts 0 0 0 0) = Ok m
    /\ (forall key, In key ratio_keys ->
          exists f, get_float key m = Some f
                    /\ fleb fzero f = true /\ fleb f fone = true
                    /\ f <> S754_nan
                    /\ (forall s, f <> S754_infinity s)).
Proof.
  destruct (metrics_in_unit_interval (mkCounts 0 0 0 0)) as (m & Hm & Hkeys & _);
    try (simpl; lia).
  exists m. now split.
Defined.

(** C10: on non-negative counts, [recall + fnr == 1] whenever
    [tp + fn > 0] and [specificity + fpr == 1] whenever [tn + fp > 0];
    when the shared denominator is zero both summands are 0.0. *)
Theorem complement_identities :
  forall c : ConfusionCounts,
    0 <= tp c -> 0 <= fp c -> 0 <= tn c -> 0 <= fn c ->
    exists m recall fnr specificity fpr,
      metrics_from_counts c = Ok m
      /\ get_float "recall" m = Some recall
      /\ get_float "fnr" m = Some fnr
      /\ get_float "specificity" m = Some specificity
      /\ get_float "fpr" m = Some fpr
      /\ (0 < tp c + fn c ->
          fadd recall fnr = fone /\ feqb (fadd recall fnr) fone = true)
      /\ (tp c + fn c = 0 -> recall = fzero /\ fnr = fzero)
      /\ (0 < tn c + fp c ->
          fadd specificity fpr = fone
          /\ feqb (fadd specificity fpr) fone = true)
      /\ (tn c + fp c = 0 -> specificity = fzero /\ fpr = fzero).
Proof.
  intros c Htp Hfp Htn Hfn.
  eexists. eexists. eexists. eexists. eexists.
  split; [now apply metrics_from_counts_eq|].
  do 4 (split; [reflexivity|]).
  split; [|split; [|split]].
  - intros H. rewrite (complement_ratios (tp c) (fn c)) by lia. now split.
  - intros H. replace (fn c + tp c) with (tp c + fn c) by lia.
    unfold ratio. now rewrite H.
  - intros H. rewrite (complement_ratios (tn c) (fp c)) by lia. now split.
  - intros H. replace (fp c + tn c) with (tn c + fp c) by lia.
    unfold ratio. now rewrite H.
Qed.

Lemma complement_identities_witness :
  exists m recall fnr specificity fpr,
    metrics_from_counts (mkCounts 1 2 3 4) = Ok m
    /\ get_float "recall" m = Some recall
    /\ get_float "fnr" m = Some fnr
    /\ get_float "specificity" m = Some specificity
    /\ get_float "fpr" m = Some fpr
    /\ fadd recall fnr = fone
    /\ fadd specificity fpr = fone.
Proof.
  destruct (complement_identities (mkCounts 1 2 3 4))
    as (m & r & n & s & p & Hm & Hr & Hn & Hs & Hp & H1 & _ & H2 & _);
    try (simpl; lia).
  exists m, r, n, s, p. repeat (split; [assumption|]).
  split; [apply H1 | apply H2]; simpl; lia.
Defined.
End ReportFacts.

(* ================================================================= *)
(** ** The coordinator *)

Module CoreFacts.

Import Thresholds Metrics Report Core Spec.
Import ThresholdsFacts MetricsFacts.

(** *** Traversals *)

Lemma drained_idem {A} (x : iterable A) : drained (drained x) = drained x.
Proof. now destruct x. Qed.

Lemma spent_idem y : spent (spent y) = spent y.
Proof. now destruct y. Qed.


Lemma view_spent y : view (spent y) = view y -> spent y = y.
Proof.
  destruct y as [o | l]; simpl; [reflexivity|]. now intros [= <-].
Qed.

(** *** One call *)

Lemma analyze_threshold_raise scores y_true t pos neg strict e :
  confusion_counts (view y_true)
                   (int_list (apply_threshold (items scores) t pos neg))
                   pos neg strict = Raise e ->
  analyze_threshold scores y_true t pos neg strict = Raise e.
Proof. intros H. unfold analyze_threshold. now rewrite H. Qed.

Lemma analyze_threshold_fields scores y_true t pos neg strict r :
  analyze_threshold scores y_true t pos neg strict = Ok r ->
  threshold r = t
  /\ y_pred r = apply_threshold (items scores) t pos neg
  /\ confusion_counts (view y_true) (int_list (y_pred r)) pos neg strict
     = Ok (counts r)
  /\ binary_metrics (view (spent y_true)) (int_list (y_pred r)) pos neg strict
     = Ok (metrics r).
Proof.
  unfold analyze_threshold.
  destruct (confusion_counts _ _ _ _ _) as [c|e] eqn:Hc; simpl; [|discriminate].
  destruct (binary_metrics _ _ _ _ _) as [m|e] eqn:Hm; simpl; [|discriminate].
  intros [= <-]. simpl. auto.
Qed.

(** The labels read by a call that returns are as many as the
    predictions. *)
Lemma confusion_counts_Ok_length o (p : list Z) pos neg strict c :
  confusion_counts o (int_list p) pos neg strict = Ok c ->
  exists yt, _to_list_int o "y_true" = Ok yt
             /\ List.length yt = List.length p.
Proof.
  intros H. destruct (confusion_counts_Ok_inv _ _ _ _ _ _ H)
    as (yt & yp & Ht & Hp & Hlen & _).
  rewrite to_list_int_int_list in Hp. injection Hp as <-.
  exists yt. split; [assumption|]. now rewrite Hlen, length_map.
Qed.

Lemma binary_metrics_Ok_counts y_true y_pred pos neg strict m :
  binary_metrics y_true y_pred pos neg strict = Ok m ->
  exists c, confusion_counts y_true y_pred pos neg strict = Ok c.
Proof.
  unfold binary_metrics.
  destruct (confusion_counts y_true y_pred pos neg strict) as [c | e];
    [now exists c | discriminate].
Qed.

(** A call that returns has read [y_true] twice and found the same: a
    one-shot [y_true] was empty. *)
Lemma analyze_threshold_Ok_spent scores y_true t pos neg strict r :
  analyze_threshold scores y_true t pos neg strict = Ok r ->
  spent y_true = y_true.
Proof.
  intros H.
  destruct (analyze_threshold_fields _ _ _ _ _ _ _ H) as (_ & _ & Hc & Hm).
  destruct y_true as [o | l]; [reflexivity|]. simpl in *.
  apply binary_metrics_Ok_counts in Hm. destruct Hm as [c' Hc'].
  apply confusion_counts_Ok_length in Hc, Hc'.
  destruct Hc as (yt & Ht & Hlen), Hc' as (yt' & Ht' & Hlen').
  unfold _to_list_int in Ht, Ht'. simpl in Ht, Ht'.
  injection Ht' as <-. apply check_ints_length in Ht.
  simpl in Hlen'. rewrite <- Hlen' in Hlen. rewrite Hlen in Ht.
  destruct l; [reflexivity | discriminate].
Qed.


(** C6: once both sequences are materialised, [confusion_counts] raises
    a length-mismatch error exactly when their lengths differ, and the
    error carries the two lengths.  [analyze_threshold] passes on
    unchanged whatever [confusion_counts] raises on [y_true] and the
    predictions; the predictions have the length of [scores], so it
    raises the length-mismatch error whenever [len(scores)] differs from
    [len(y_true)].  This holds of every [scores], and of every [y_true]
    that [list(...)] reads as the materialised one, one-shot iterators
    included. *)
Theorem length_mismatch :
  forall (y_true y_pred : object) (yt yp : list int_obj) (pos neg : Z)
         (strict : bool),
    _to_list_int y_true "y_true" = Ok yt ->
    _to_list_int y_pred "y_pred" = Ok yp ->
    ((exists e, confusion_counts y_true y_pred pos neg strict = Raise e
                /\ LengthMismatch e)
     <-> List.length yt <> List.length yp)
    /\ (List.length yt <> List.length yp ->
        confusion_counts y_true y_pred pos neg strict
        = Raise (ValueError (length_msg (len yt) (len yp))))
    /\ (forall (scores : iterable float) (y : argument) (t : float),
           view y = y_true ->
           List.length (apply_threshold (items scores) t pos neg)
           = List.length (items scores)
           /\ (forall e,
                  confusion_counts y_true
                                   (int_list (apply_threshold (items scores) t pos neg))
                                   pos neg strict = Raise e ->
                  analyze_threshold scores y t pos neg strict = Raise e)
           /\ (List.length (items scores) <> List.length yt ->
               analyze_threshold scores y t pos neg strict
               = Raise (ValueError (length_msg (len yt) (len (items scores)))))).
Proof.
  intros y_true y_pred yt yp pos neg strict Ht Hp.
  assert (Hdiff : forall y_pred' yp',
             _to_list_int y_pred' "y_pred" = Ok yp' ->
             List.length yt <> List.length yp' ->
             confusion_counts y_true y_pred' pos neg strict
             = Raise (ValueError (length_msg (len yt) (len yp')))).
  { intros y_pred' yp' Hp' Hlen.
    rewrite (confusion_counts_materialised _ _ _ _ _ _ _ Ht Hp').
    now rewrite (proj2 (Nat.eqb_neq _ _) Hlen). }
  split; [|split].
  - split.
    + intros (e & He & Hkind) Hlen.
      rewrite (confusion_counts_materialised _ _ _ _ _ _ _ Ht Hp) in He.
      rewrite (proj2 (Nat.eqb_eq _ _) Hlen) in He.
      apply count_pairs_raise in He.
      destruct He as (_ & pre & t & p & post & _ & _ & [[_ ->] | (_ & _ & ->)]);
        destruct Hkind as (a & b & Hab); apply ValueError_inj in Hab;
        apply label_msg_not_length_msg in Hab; auto; [now left | now right].
    + intros Hlen. eexists. split; [exact (Hdiff y_pred yp Hp Hlen)|].
      exists (len yt), (len yp). reflexivity.
  - exact (Hdiff y_pred yp Hp).
  - intros scores y t Hy. split; [apply apply_threshold_length|]. split.
    + intros e He. apply analyze_threshold_raise. now rewrite Hy.
    + intros Hlen. apply analyze_threshold_raise. rewrite Hy.
      replace (len (items scores))
        with (len (map IInt (apply_threshold (items scores) t pos neg))).
      * apply Hdiff; [apply to_list_int_int_list|].
        rewrite length_map, apply_threshold_length. congruence.
      * unfold len. now rewrite length_map, apply_threshold_length.
Qed.

Lemma length_mismatch_witness :
  analyze_threshold (Sequence [literal 2 10; literal 7 10; literal 4 10])
                    (Object (int_list [0; 1])) (literal 5 10) 1 0 true
  = Raise (ValueError (length_msg 2 3)).
Proof.
  apply (length_mismatch (int_list [0; 1]) (int_list [0; 1; 0])
                         [IInt 0; IInt 1] [IInt 0; IInt 1; IInt 0] 1 0 true);
    try reflexivity.
  simpl. lia.
Defined.

(** *** Sweeps *)

(** On arguments that a traversal leaves as they were, the loop is one
    call per threshold on the same arguments. *)
Lemma sweep_loop_each scores y_true pos neg strict ths :
  drained scores = scores -> spent y_true = y_true ->
  forall results,
    sweep_loop scores y_true pos neg strict ths results
    = (rs <- each (fun th => analyze_threshold scores y_true th pos neg strict) ths ;;
       Ok (results ++ rs)%list).
Proof.
  intros Hd Hs. induction ths as [|th ths IH]; intros results; simpl.
  - now rewrite app_nil_r.
  - destruct (analyze_threshold scores y_true th pos neg strict) as [r|e];
      simpl; [|reflexivity].
    rewrite Hd, Hs, IH.
    destruct (each _ ths) as [rs|e]; simpl; [|reflexivity].
    now rewrite <- app_assoc.
Qed.

(** In general the first call finds the arguments as they were given,
    and every later call finds them as a traversal leaves them. *)
Lemma sweep_loop_cons scores y_true pos neg strict th rest results :
  sweep_loop scores y_true pos neg strict (th :: rest) results
  = (r <- analyze_threshold scores y_true th pos neg strict ;;
     rs <- each (fun th' => analyze_threshold (drained scores) (spent y_true)
                                              th' pos neg strict) rest ;;
     Ok (results ++ r :: rs)%list).
Proof.
  simpl.
  destruct (analyze_threshold scores y_true th pos neg strict) as [r|e];
    simpl; [|reflexivity].
  rewrite (sweep_loop_each _ _ _ _ _ _ (drained_idem scores) (spent_idem y_true)).
  destruct (each _ rest) as [rs|e]; simpl; [|reflexivity].
  now rewrite <- app_assoc.
Qed.




End CoreFacts.

(* ================================================================= *)
(** ** Further properties of thresholding *)

Module ThresholdsMore.

Import Thresholds Spec Derived ThresholdsFacts.

(** *** The order of floats *)

(** [<=] on floats is transitive. *)
Lemma fleb_trans a b c :
  fleb a b = true -> fleb b c = true -> fleb a c = true.
Proof.
  unfold fleb, SFleb.
  destruct a as [sa|sa| |sa ma ea], b as [sb|sb| |sb mb eb],
    c as [sc|sc| |sc mc ec]; simpl;
    try discriminate; try reflexivity;
    try (destruct sa; simpl; try discriminate; try reflexivity;
         destruct sb; simpl; try discriminate; try reflexivity;
         destruct sc; simpl; try discriminate; reflexivity);
    try (destruct sa; simpl; try discriminate; try reflexivity;
         destruct sc; simpl; try discriminate; reflexivity);
    try (destruct sb; simpl; try discriminate; try reflexivity;
         destruct sc; simpl; try discriminate; reflexivity);
    try (destruct sa; simpl; try discriminate; try reflexivity;
         destruct sb; simpl; try discriminate; reflexivity).
  destruct sa, sb, sc; simpl; try discriminate; try reflexivity;
    change (PosDef.Pos.compare_cont Eq) with Pos.compare;
    destruct (Z.compare_spec ea eb), (Z.compare_spec eb ec),
      (Z.compare_spec ea ec); try lia; simpl; try discriminate;
      try reflexivity;
    destruct (Pos.compare_spec ma mb), (Pos.compare_spec mb mc),
      (Pos.compare_spec ma mc); simpl; try lia; try discriminate;
      reflexivity.
Qed.

(** *** Composition *)

(** X1: [apply_threshold] decides each score on its own: the decisions of a
    concatenation are the concatenation of the decisions. *)
Theorem apply_threshold_app :
  forall (a b : list float) (t : float) (pos neg : Z),
    apply_threshold (a ++ b) t pos neg
    = (apply_threshold a t pos neg ++ apply_threshold b t pos neg)%list.
Proof.
  intros a b t pos neg. rewrite !apply_threshold_map. apply map_app.
Qed.

(** *** The number of positive decisions *)

Lemma count_if_nonneg {A} (f : A -> bool) (l : list A) : 0 <= count_if f l.
Proof. unfold count_if, len. lia. Qed.

Lemma count_if_nil {A} (f : A -> bool) : count_if f [] = 0.
Proof. reflexivity. Qed.

Lemma count_if_step {A} (f : A -> bool) a l :
  count_if f (a :: l) = (if f a then 1 else 0) + count_if f l.
Proof.
  unfold count_if, len. cbn [filter]. destruct (f a); cbn [List.length]; lia.
Qed.

Lemma count_if_map {A B} (g : A -> B) (f : B -> bool) (l : list A) :
  count_if f (map g l) = count_if (fun a => f (g a)) l.
Proof.
  induction l as [|a l IH]; [reflexivity|].
  simpl map. now rewrite !count_if_step, IH.
Qed.

Lemma count_if_ext {A} (f g : A -> bool) (l : list A) :
  (forall a, In a l -> f a = g a) -> count_if f l = count_if g l.
Proof.
  induction l as [|a l IH]; intros H; [reflexivity|].
  rewrite !count_if_step, (H a (or_introl eq_refl)), IH; [reflexivity|].
  intros x Hx. apply H. now right.
Qed.

Lemma count_if_le {A} (f g : A -> bool) (l : list A) :
  (forall a, In a l -> f a = true -> g a = true) ->
  count_if f l <= count_if g l.
Proof.
  induction l as [|a l IH]; intros H; [reflexivity|].
  rewrite !count_if_step.
  specialize (IH (fun x Hx => H x (or_intror Hx))).
  pose proof (H a (or_introl eq_refl)) as Ha.
  destruct (f a), (g a); lia.
Qed.

(** X2: With two distinct labels, the positive decisions are as many as the
    scores [>=] the threshold. *)
Theorem apply_threshold_positives :
  forall (scores : list float) (t : float) (pos neg : Z),
    pos <> neg ->
    count_if (Z.eqb pos) (apply_threshold scores t pos neg) = at_least t scores
    /\ count_if (Z.eqb neg) (apply_threshold scores t pos neg)
       = len scores - at_least t scores.
Proof.
  intros scores t pos neg Hpn. rewrite apply_threshold_map, !count_if_map.
  unfold at_least, label_of.
  induction scores as [|s scores [IH1 IH2]]; [split; reflexivity|].
  rewrite !count_if_step, IH1, IH2. unfold len. cbn [List.length].
  destruct (fgeb s t).
  - rewrite Z.eqb_refl, (proj2 (Z.eqb_neq neg pos)) by congruence. lia.
  - rewrite Z.eqb_refl, (proj2 (Z.eqb_neq pos neg)) by congruence. lia.
Qed.

Lemma apply_threshold_positives_witness :
  count_if (Z.eqb 1) (apply_threshold [literal 2 10; literal 7 10] (literal 5 10) 1 0)
  = at_least (literal 5 10) [literal 2 10; literal 7 10].
Proof.
  apply (apply_threshold_positives [literal 2 10; literal 7 10] (literal 5 10) 1 0).
  lia.
Defined.

(** *** Raising the threshold *)

(** X3: Raising the threshold turns no negative decision into a positive
    one, so the scores at or above it are no more. *)
Theorem apply_threshold_monotone :
  forall (scores : list float) (t1 t2 : float) (pos neg : Z),
    fleb t1 t2 = true ->
    Forall2 (fun l1 l2 => l2 = pos -> l1 = pos)
            (apply_threshold scores t1 pos neg)
            (apply_threshold scores t2 pos neg)
    /\ (forall s, fgeb s t2 = true -> fgeb s t1 = true)
    /\ at_least t2 scores <= at_least t1 scores.
Proof.
  intros scores t1 t2 pos neg Ht.
  assert (Hs : forall s, fgeb s t2 = true -> fgeb s t1 = true).
  { intros s Hs. unfold fgeb in *. now apply (fleb_trans t1 t2 s). }
  split; [|split; [exact Hs|]].
  - rewrite !apply_threshold_map.
    induction scores as [|s scores IH]; simpl; constructor; [|exact IH].
    unfold label_of. destruct (fgeb s t2) eqn:H2.
    + now rewrite (Hs s H2).
    + intros <-. now destruct (fgeb s t1).
  - unfold at_least. apply count_if_le. intros s _. apply Hs.
Qed.

Lemma apply_threshold_monotone_witness :
  at_least (literal 5 10) [literal 2 10; literal 7 10; literal 4 10]
  <= at_least (literal 3 10) [literal 2 10; literal 7 10; literal 4 10].
Proof.
  apply (apply_threshold_monotone [literal 2 10; literal 7 10; literal 4 10]
                                  (literal 3 10) (literal 5 10) 1 0).
  reflexivity.
Defined.

(** *** Not-a-number *)

(** X4: Every comparison with NaN is false: a NaN threshold gives only
    negative decisions, and a NaN score is negative at every
    threshold. *)
Theorem apply_threshold_nan :
  forall (scores : list float) (t : float) (pos neg : Z),
    apply_threshold scores S754_nan pos neg = repeat neg (List.length scores)
    /\ (forall i, nth_error scores i = Some S754_nan ->
                  nth_error (apply_threshold scores t pos neg) i = Some neg).
Proof.
  intros scores t pos neg. split.
  - rewrite apply_threshold_map.
    induction scores as [|s scores IH]; [reflexivity|].
    simpl. rewrite IH. unfold label_of. now destruct s.
  - intros i Hi. rewrite apply_threshold_map, nth_error_map, Hi. simpl.
    unfold label_of, fgeb, fleb, SFleb. now destruct t.
Qed.

End ThresholdsMore.

(* ================================================================= *)
(** ** Further properties of the confusion counts *)

Module MetricsMore.

Import Metrics Spec Derived MetricsFacts ThresholdsMore.

(** *** Materialisation *)

Lemma to_list_int_name values name name' l :
  _to_list_int values name = Ok l -> _to_list_int values name' = Ok l.
Proof.
  unfold _to_list_int. destruct (to_list values) as [out|]; [|discriminate].
  intros H. apply check_ints_ok in H. now apply check_ints_ok.
Qed.

Lemma to_list_int_seq_obj l name : _to_list_int (seq_obj l) name = Ok l.
Proof. unfold _to_list_int, seq_obj. simpl. now apply check_ints_ok. Qed.

(** X5: Validation is a round trip: what [_to_list_int] returns is the
    sequence it was given, it is accepted again under any name, and
    every sequence of int instances is accepted unchanged. *)
Theorem to_list_int_round_trip :
  forall (values : object) (name name' : string) (l : list int_obj),
    _to_list_int values name = Ok l ->
    to_list values = Some (map of_int_obj l)
    /\ _to_list_int (seq_obj l) name' = Ok l
    /\ _to_list_int values name' = Ok l
    /\ (forall l', _to_list_int (seq_obj l') name = Ok l').
Proof.
  intros values name name' l H. split; [|split; [|split]].
  - unfold _to_list_int in H. destruct (to_list values) as [out|]; [|discriminate].
    apply check_ints_ok in H. now subst.
  - apply to_list_int_seq_obj.
  - now apply (to_list_int_name values name).
  - intros l'. apply to_list_int_seq_obj.
Qed.

Lemma to_list_int_round_trip_witness :
  to_list (PyList [PyInt 3; PyBool true]) = Some (map of_int_obj [IInt 3; IBool true])
  /\ _to_list_int (seq_obj [IInt 3; IBool true]) "y_pred" = Ok [IInt 3; IBool true]
  /\ _to_list_int (PyList [PyInt 3; PyBool true]) "y_pred" = Ok [IInt 3; IBool true]
  /\ (forall l', _to_list_int (seq_obj l') "y_true" = Ok l').
Proof.
  apply (to_list_int_round_trip (PyList [PyInt 3; PyBool true]) "y_true" "y_pred").
  reflexivity.
Defined.

(** *** The counting loop, in closed form *)

Lemma count_pairs_fold pos neg strict pairs : forall i c c',
  count_pairs pos neg strict i pairs c = Ok c' <->
  (strict = true -> Forall (fun tp => pair_ok pos neg tp = true) pairs)
  /\ c' = fold_left (fun c tp => tally (int_eqb (fst tp) pos)
                                       (int_eqb (snd tp) pos) c) pairs c.
Proof.
  induction pairs as [|[t p] pairs IH]; intros i c c'; simpl.
  - split.
    + intros [= <-]. split; [constructor | reflexivity].
    + intros [_ ->]. reflexivity.
  - unfold pair_ok at 1. simpl.
    destruct strict; simpl.
    + destruct (in_labels t pos neg) eqn:Ht; simpl.
      * destruct (in_labels p pos neg) eqn:Hp; simpl.
        -- rewrite IH. split.
           ++ intros [Hall ->]. split; [|reflexivity].
              intros _. constructor; [unfold pair_ok; simpl; now rewrite Ht, Hp|].
              now apply Hall.
           ++ intros [Hall ->]. split; [|reflexivity].
              intros _. specialize (Hall eq_refl). now inversion Hall.
        -- split; [discriminate|]. intros [Hall _].
           specialize (Hall eq_refl). inversion Hall as [|x l Hx _]; subst.
           unfold pair_ok in Hx. simpl in Hx. rewrite Ht, Hp in Hx. discriminate.
      * split; [discriminate|]. intros [Hall _].
        specialize (Hall eq_refl). inversion Hall as [|x l Hx _]; subst.
        unfold pair_ok in Hx. simpl in Hx. rewrite Ht in Hx. discriminate.
    + rewrite IH. split.
      * intros [_ ->]. split; [discriminate | reflexivity].
      * intros [_ ->]. split; [discriminate | reflexivity].
Qed.

(** [confusion_counts] returns exactly on two integer sequences of equal
    length whose labels, under strict validation, are all among the two
    labels; it then returns the tally of the pairs. *)
Lemma confusion_counts_Ok_iff y_true y_pred pos neg strict c :
  confusion_counts y_true y_pred pos neg strict = Ok c <->
  exists yt yp,
    _to_list_int y_true "y_true" = Ok yt
    /\ _to_list_int y_pred "y_pred" = Ok yp
    /\ List.length yt = List.length yp
    /\ (strict = true ->
        Forall (fun tp => pair_ok pos neg tp = true) (combine yt yp))
    /\ c = tally_all pos (combine yt yp).
Proof.
  split.
  - intros H. destruct (confusion_counts_Ok_inv _ _ _ _ _ _ H)
      as (yt & yp & Ht & Hp & Hlen & Hc).
    apply count_pairs_fold in Hc. destruct Hc as [Hall ->].
    exists yt, yp. repeat split; assumption.
  - intros (yt & yp & Ht & Hp & Hlen & Hall & ->).
    rewrite (confusion_counts_materialised _ _ _ _ _ _ _ Ht Hp).
    rewrite (proj2 (Nat.eqb_eq _ _) Hlen).
    apply count_pairs_fold. split; [assumption | reflexivity].
Qed.

Lemma tally_all_counts pos pairs :
  tally_all pos pairs
  = mkCounts
      (count_if (fun x => int_eqb (fst x) pos && int_eqb (snd x) pos) pairs)
      (count_if (fun x => negb (int_eqb (fst x) pos) && int_eqb (snd x) pos) pairs)
      (count_if (fun x => negb (int_eqb (fst x) pos) && negb (int_eqb (snd x) pos)) pairs)
      (count_if (fun x => int_eqb (fst x) pos && negb (int_eqb (snd x) pos)) pairs).
Proof. unfold tally_all. rewrite fold_tally_counts. reflexivity. Qed.

(** *** Non-negative counts *)

(** X6: The four counters are never negative, and none exceeds the number of
    pairs. *)
Theorem confusion_counts_nonneg :
  forall (y_true y_pred : object) (pos neg : Z) (strict : bool)
         (c : ConfusionCounts),
    confusion_counts y_true y_pred pos neg strict = Ok c ->
    0 <= tp c <= total c /\ 0 <= fp c <= total c
    /\ 0 <= tn c <= total c /\ 0 <= fn c <= total c.
Proof.
  intros y_true y_pred pos neg strict c H.
  apply confusion_counts_Ok_iff in H.
  destruct H as (yt & yp & _ & _ & _ & _ & ->).
  rewrite tally_all_counts. unfold total. simpl.
  pose proof (count_if_nonneg (fun x : int_obj * int_obj =>
    int_eqb (fst x) pos && int_eqb (snd x) pos) (combine yt yp)).
  pose proof (count_if_nonneg (fun x : int_obj * int_obj =>
    negb (int_eqb (fst x) pos) && int_eqb (snd x) pos) (combine yt yp)).
  pose proof (count_if_nonneg (fun x : int_obj * int_obj =>
    negb (int_eqb (fst x) pos) && negb (int_eqb (snd x) pos)) (combine yt yp)).
  pose proof (count_if_nonneg (fun x : int_obj * int_obj =>
    int_eqb (fst x) pos && negb (int_eqb (snd x) pos)) (combine yt yp)).
  lia.
Qed.

Lemma confusion_counts_nonneg_witness :
  0 <= 1 <= total (mkCounts 1 1 1 1) /\ 0 <= 1 <= total (mkCounts 1 1 1 1)
  /\ 0 <= 1 <= total (mkCounts 1 1 1 1) /\ 0 <= 1 <= total (mkCounts 1 1 1 1).
Proof.
  apply (confusion_counts_nonneg (int_list [1; 0; 1; 0]) (int_list [1; 1; 0; 0])
                                 1 0 true (mkCounts 1 1 1 1)).
  reflexivity.
Defined.

(** *** Exchanging the two sequences *)

Lemma combine_swap {A B} (a : list A) (b : list B) :
  combine b a = map (fun x => (snd x, fst x)) (combine a b).
Proof.
  revert b. induction a as [|x a IH]; intros [|y b]; simpl; try reflexivity.
  now rewrite IH.
Qed.

(** X7: With the true and the predicted labels exchanged, false positives
    and false negatives change places and nothing else changes. *)
Theorem confusion_counts_transpose :
  forall (y_true y_pred : object) (pos neg : Z) (strict : bool)
         (c : ConfusionCounts),
    confusion_counts y_true y_pred pos neg strict = Ok c ->
    confusion_counts y_pred y_true pos neg strict = Ok (transpose c).
Proof.
  intros y_true y_pred pos neg strict c H.
  apply confusion_counts_Ok_iff in H.
  destruct H as (yt & yp & Ht & Hp & Hlen & Hall & ->).
  apply confusion_counts_Ok_iff. exists yp, yt.
  split; [now apply (to_list_int_name y_pred "y_pred")|].
  split; [now apply (to_list_int_name y_true "y_true")|].
  split; [now symmetry|]. rewrite (combine_swap yt yp). split.
  - intros Hs. specialize (Hall Hs). apply Forall_map.
    eapply Forall_impl; [|exact Hall]. intros [t p]. unfold pair_ok. simpl.
    now rewrite andb_comm.
  - rewrite !tally_all_counts, !count_if_map. unfold transpose. simpl.
    apply mkCounts_eq; apply count_if_ext; intros [t p] _; simpl;
      now destruct (int_eqb t pos), (int_eqb p pos).
Qed.

Lemma confusion_counts_transpose_witness :
  confusion_counts (int_list [1; 1; 0]) (int_list [1; 0; 0]) 1 0 true
  = Ok (transpose (mkCounts 1 1 1 0)).
Proof.
  apply (confusion_counts_transpose (int_list [1; 0; 0]) (int_list [1; 1; 0])
                                    1 0 true (mkCounts 1 1 1 0)).
  reflexivity.
Defined.

(** *** Exchanging the two labels *)

Lemma pair_ok_swap pos neg tp : pair_ok neg pos tp = pair_ok pos neg tp.
Proof.
  unfold pair_ok, in_labels.
  now rewrite (orb_comm (int_eqb (fst tp) neg)), (orb_comm (int_eqb (snd tp) neg)).
Qed.

(** On pairs of labels among the two, the tally for the other label is
    the tally with the classes exchanged. *)
Lemma tally_all_swap pos neg pairs :
  pos <> neg ->
  Forall (fun tp => pair_ok pos neg tp = true) pairs ->
  tally_all neg pairs = swap_classes (tally_all pos pairs).
Proof.
  intros Hpn Hall. rewrite !tally_all_counts. unfold swap_classes. simpl.
  rewrite Forall_forall in Hall.
  assert (Hflip : forall v, in_labels v pos neg = true ->
                            int_eqb v neg = negb (int_eqb v pos)).
  { intros v. unfold in_labels, int_eqb.
    destruct (Z.eqb_spec (int_value v) pos), (Z.eqb_spec (int_value v) neg);
      simpl; congruence. }
  apply mkCounts_eq; apply count_if_ext; intros [t p] Hin;
    specialize (Hall _ Hin); unfold pair_ok in Hall; simpl in Hall |- *;
    apply andb_true_iff in Hall; destruct Hall as [H1 H2];
    rewrite (Hflip t H1), (Hflip p H2);
    now destruct (int_eqb t pos), (int_eqb p pos).
Qed.

(** X8: Under strict validation and with two distinct labels, exchanging
    [positive_label] and [negative_label] exchanges true positives with
    true negatives and false positives with false negatives. *)
Theorem confusion_counts_swap_labels :
  forall (y_true y_pred : object) (pos neg : Z) (c : ConfusionCounts),
    pos <> neg ->
    confusion_counts y_true y_pred pos neg true = Ok c ->
    confusion_counts y_true y_pred neg pos true = Ok (swap_classes c).
Proof.
  intros y_true y_pred pos neg c Hpn H.
  apply confusion_counts_Ok_iff in H.
  destruct H as (yt & yp & Ht & Hp & Hlen & Hall & ->).
  specialize (Hall eq_refl).
  apply confusion_counts_Ok_iff. exists yt, yp.
  repeat (split; [assumption|]). split.
  - intros _. eapply Forall_impl; [|exact Hall].
    intros x Hx. now rewrite pair_ok_swap.
  - symmetry. now apply tally_all_swap.
Qed.

Lemma confusion_counts_swap_labels_witness :
  confusion_counts (int_list [1; 1; 0]) (int_list [1; 0; 0]) 0 1 true
  = Ok (swap_classes (mkCounts 1 0 1 1)).
Proof.
  apply (confusion_counts_swap_labels (int_list [1; 1; 0]) (int_list [1; 0; 0]) 1 0).
  - lia.
  - reflexivity.
Defined.

(** *** Strict and lenient validation *)

(** X9: Strict validation only adds errors: whenever it returns, lenient
    validation returns the same counts, and whatever lenient validation
    raises, strict validation raises too. *)
Theorem strict_refines_lenient :
  forall (y_true y_pred : object) (pos neg : Z),
    (forall c, confusion_counts y_true y_pred pos neg true = Ok c ->
               confusion_counts y_true y_pred pos neg false = Ok c)
    /\ (forall e, confusion_counts y_true y_pred pos neg false = Raise e ->
                  confusion_counts y_true y_pred pos neg true = Raise e).
Proof.
  intros y_true y_pred pos neg. split.
  - intros c H. apply confusion_counts_Ok_iff in H.
    destruct H as (yt & yp & Ht & Hp & Hlen & _ & ->).
    apply confusion_counts_Ok_iff. exists yt, yp.
    repeat (split; [assumption|]). split; [discriminate | reflexivity].
  - intros e H. unfold confusion_counts in *.
    destruct (_to_list_int y_true "y_true") as [yt|e1]; [|exact H].
    destruct (_to_list_int y_pred "y_pred") as [yp|e1]; [|exact H].
    simpl in *. destruct (negb (len yt =? len yp)); [exact H|].
    rewrite count_pairs_lenient in H. discriminate.
Qed.

(** *** The order of the pairs *)

Lemma count_if_perm {A} (f : A -> bool) (l l' : list A) :
  Permutation l l' -> count_if f l = count_if f l'.
Proof.
  induction 1 as [|x l l' _ IH|x y l|l l' l'' _ IH1 _ IH2].
  - reflexivity.
  - now rewrite !count_if_step, IH.
  - rewrite !count_if_step. lia.
  - congruence.
Qed.

Lemma combine_fst_snd {A B} (pairs : list (A * B)) :
  combine (map fst pairs) (map snd pairs) = pairs.
Proof.
  induction pairs as [|[a b] pairs IH]; [reflexivity|]. simpl. now rewrite IH.
Qed.

(** X10: The counts do not depend on the order in which the pairs come. *)
Theorem confusion_counts_permutation :
  forall (pairs pairs' : list (int_obj * int_obj)) (pos neg : Z)
         (strict : bool) (c : ConfusionCounts),
    Permutation pairs pairs' ->
    confusion_counts (seq_obj (map fst pairs)) (seq_obj (map snd pairs))
                     pos neg strict = Ok c ->
    confusion_counts (seq_obj (map fst pairs')) (seq_obj (map snd pairs'))
                     pos neg strict = Ok c.
Proof.
  intros pairs pairs' pos neg strict c Hperm H.
  apply confusion_counts_Ok_iff in H.
  destruct H as (yt & yp & Ht & Hp & Hlen & Hall & ->).
  rewrite to_list_int_seq_obj in Ht, Hp.
  injection Ht as <-. injection Hp as <-.
  rewrite combine_fst_snd in *.
  apply confusion_counts_Ok_iff.
  exists (map fst pairs'), (map snd pairs').
  split; [apply to_list_int_seq_obj|]. split; [apply to_list_int_seq_obj|].
  split; [now rewrite !length_map|]. rewrite combine_fst_snd. split.
  - intros Hs. eapply Permutation_Forall; [exact Hperm | now apply Hall].
  - rewrite !tally_all_counts.
    apply mkCounts_eq; now apply count_if_perm.
Qed.

Lemma confusion_counts_permutation_witness :
  confusion_counts (seq_obj (map fst [(IInt 0, IInt 1); (IInt 1, IInt 1)]))
                   (seq_obj (map snd [(IInt 0, IInt 1); (IInt 1, IInt 1)]))
                   1 0 true
  = Ok (mkCounts 1 1 0 0).
Proof.
  apply (confusion_counts_permutation
           [(IInt 1, IInt 1); (IInt 0, IInt 1)] [(IInt 0, IInt 1); (IInt 1, IInt 1)]).
  - apply perm_swap.
  - reflexivity.
Defined.

(** *** Marginals *)

Lemma count_if_combine_fst {A B} (f : A -> bool) (a : list A) :
  forall b : list B, List.length a = List.length b ->
    count_if (fun x => f (fst x)) (combine a b) = count_if f a.
Proof.
  induction a as [|x a IH]; intros [|y b] Hlen; simpl in *; try discriminate;
    [reflexivity|].
  rewrite !count_if_step. simpl. rewrite IH by congruence. reflexivity.
Qed.

Lemma count_if_combine_snd {A B} (f : B -> bool) (a : list A) :
  forall b : list B, List.length a = List.length b ->
    count_if (fun x => f (snd x)) (combine a b) = count_if f b.
Proof.
  induction a as [|x a IH]; intros [|y b] Hlen; simpl in *; try discriminate;
    [reflexivity|].
  rewrite !count_if_step. simpl. rewrite IH by congruence. reflexivity.
Qed.

Lemma count_if_split {A} (f g : A -> bool) (l : list A) :
  count_if (fun x => f x && g x) l + count_if (fun x => f x && negb (g x)) l
  = count_if f l.
Proof.
  induction l as [|a l IH]; [reflexivity|].
  rewrite !count_if_step. destruct (f a), (g a); cbn [andb negb]; lia.
Qed.

Lemma count_if_negb {A} (f : A -> bool) (l : list A) :
  count_if (fun x => negb (f x)) l = len l - count_if f l.
Proof.
  induction l as [|a l IH]; [reflexivity|].
  rewrite !count_if_step, IH. unfold len. cbn [List.length].
  destruct (f a); cbn [negb]; lia.
Qed.

(** X11: The row and column sums of the confusion matrix: [tp + fn] is the
    number of positives of [y_true], whatever the predictions, and
    [tp + fp] the number of positives of [y_pred], whatever the truth. *)
Theorem confusion_counts_marginals :
  forall (y_true y_pred : object) (pos neg : Z) (strict : bool)
         (c : ConfusionCounts),
    confusion_counts y_true y_pred pos neg strict = Ok c ->
    exists yt yp,
      _to_list_int y_true "y_true" = Ok yt
      /\ _to_list_int y_pred "y_pred" = Ok yp
      /\ tp c + fn c = positives pos yt
      /\ tn c + fp c = len yt - positives pos yt
      /\ tp c + fp c = positives pos yp
      /\ tn c + fn c = len yp - positives pos yp.
Proof.
  intros y_true y_pred pos neg strict c H.
  apply confusion_counts_Ok_iff in H.
  destruct H as (yt & yp & Ht & Hp & Hlen & _ & ->).
  exists yt, yp. split; [assumption|]. split; [assumption|].
  rewrite tally_all_counts. simpl. unfold positives.
  set (T := fun x : int_obj * int_obj => int_eqb (fst x) pos).
  set (P := fun x : int_obj * int_obj => int_eqb (snd x) pos).
  pose proof (count_if_split T P (combine yt yp)) as H1.
  pose proof (count_if_split (fun x => negb (T x)) P (combine yt yp)) as H2.
  pose proof (count_if_split P T (combine yt yp)) as H3.
  pose proof (count_if_split (fun x => negb (P x)) T (combine yt yp)) as H4.
  pose proof (count_if_negb T (combine yt yp)) as H5.
  pose proof (count_if_negb P (combine yt yp)) as H6.
  pose proof (count_if_combine_fst (fun v => int_eqb v pos) yt yp Hlen) as H7.
  pose proof (count_if_combine_snd (fun v => int_eqb v pos) yt yp Hlen) as H8.
  assert (Hl : len (combine yt yp) = len yt /\ len yt = len yp).
  { unfold len. rewrite length_combine, <- Hlen, Nat.min_id. lia. }
  assert (E1 : count_if (fun x => P x && T x) (combine yt yp)
               = count_if (fun x => T x && P x) (combine yt yp)).
  { apply count_if_ext. intros x _. apply andb_comm. }
  assert (E2 : count_if (fun x => P x && negb (T x)) (combine yt yp)
               = count_if (fun x => negb (T x) && P x) (combine yt yp)).
  { apply count_if_ext. intros x _. apply andb_comm. }
  assert (E3 : count_if (fun x => negb (P x) && T x) (combine yt yp)
               = count_if (fun x => T x && negb (P x)) (combine yt yp)).
  { apply count_if_ext. intros x _. apply andb_comm. }
  assert (E4 : count_if (fun x => negb (P x) && negb (T x)) (combine yt yp)
               = count_if (fun x => negb (T x) && negb (P x)) (combine yt yp)).
  { apply count_if_ext. intros x _. apply andb_comm. }
  unfold T, P in *. simpl in *. lia.
Qed.

Lemma confusion_counts_marginals_witness :
  exists yt yp,
    _to_list_int (int_list [1; 0; 1; 0]) "y_true" = Ok yt
    /\ _to_list_int (int_list [1; 1; 0; 0]) "y_pred" = Ok yp
    /\ 1 + 1 = positives 1 yt
    /\ 1 + 1 = len yt - positives 1 yt
    /\ 1 + 1 = positives 1 yp
    /\ 1 + 1 = len yp - positives 1 yp.
Proof.
  apply (confusion_counts_marginals (int_list [1; 0; 1; 0]) (int_list [1; 1; 0; 0])
                                    1 0 true (mkCounts 1 1 1 1)).
  reflexivity.
Defined.

(** *** Predictions that equal the truth *)

Lemma combine_same {A} (l : list A) : combine l l = map (fun x => (x, x)) l.
Proof. induction l as [|a l IH]; [reflexivity|]. simpl. now rewrite IH. Qed.

(** X12: A sequence compared with itself gives neither false positives nor
    false negatives: [tp] is the number of its positives and [tn] the
    rest. *)
Theorem confusion_counts_self :
  forall (y : object) (pos neg : Z) (strict : bool) (c : ConfusionCounts),
    confusion_counts y y pos neg strict = Ok c ->
    exists l,
      _to_list_int y "y_true" = Ok l
      /\ c = mkCounts (positives pos l) 0 (len l - positives pos l) 0.
Proof.
  intros y pos neg strict c H.
  apply confusion_counts_Ok_iff in H.
  destruct H as (yt & yp & Ht & Hp & Hlen & _ & ->).
  apply (to_list_int_name y "y_pred" "y_true") in Hp.
  rewrite Ht in Hp. injection Hp as <-.
  exists yt. split; [assumption|].
  rewrite tally_all_counts, combine_same, !count_if_map. simpl.
  unfold positives. apply mkCounts_eq.
  - apply count_if_ext. intros v _. apply andb_diag.
  - rewrite (count_if_ext _ (fun _ => false)); [|intros v _; apply andb_negb_l].
    clear. induction yt as [|a l IH]; [reflexivity|].
    now rewrite count_if_step, IH.
  - rewrite <- count_if_negb. apply count_if_ext. intros v _. apply andb_diag.
  - rewrite (count_if_ext _ (fun _ => false)); [|intros v _; apply andb_negb_r].
    clear. induction yt as [|a l IH]; [reflexivity|].
    now rewrite count_if_step, IH.
Qed.

Lemma confusion_counts_self_witness :
  exists l,
    _to_list_int (int_list [1; 0; 1]) "y_true" = Ok l
    /\ mkCounts 2 0 1 0 = mkCounts (positives 1 l) 0 (len l - positives 1 l) 0.
Proof.
  apply (confusion_counts_self (int_list [1; 0; 1]) 1 0 true (mkCounts 2 0 1 0)).
  reflexivity.
Defined.

(** *** Concatenation *)

Lemma combine_app {A B} (a a' : list A) (b b' : list B) :
  List.length a = List.length b ->
  combine (a ++ a') (b ++ b') = (combine a b ++ combine a' b')%list.
Proof.
  revert b. induction a as [|x a IH]; intros [|y b] Hlen; simpl in *;
    try discriminate; [reflexivity|].
  rewrite IH by congruence. reflexivity.
Qed.

Lemma count_if_app {A} (f : A -> bool) (l l' : list A) :
  count_if f (l ++ l') = count_if f l + count_if f l'.
Proof.
  induction l as [|a l IH]; [cbn [app]; rewrite count_if_nil; lia|].
  simpl app. rewrite !count_if_step, IH. lia.
Qed.

(** X13: The counts of two batches add up: evaluating the concatenation of
    the sequences gives the sum, counter by counter. *)
Theorem confusion_counts_app :
  forall (a b a' b' : list int_obj) (pos neg : Z) (strict : bool)
         (c c' : ConfusionCounts),
    confusion_counts (seq_obj a) (seq_obj b) pos neg strict = Ok c ->
    confusion_counts (seq_obj a') (seq_obj b') pos neg strict = Ok c' ->
    confusion_counts (seq_obj (a ++ a')) (seq_obj (b ++ b')) pos neg strict
    = Ok (add_counts c c').
Proof.
  intros a b a' b' pos neg strict c c' H H'.
  apply confusion_counts_Ok_iff in H, H'.
  destruct H as (yt & yp & Ht & Hp & Hlen & Hall & ->).
  destruct H' as (yt' & yp' & Ht' & Hp' & Hlen' & Hall' & ->).
  rewrite to_list_int_seq_obj in Ht, Hp, Ht', Hp'.
  injection Ht as <-. injection Hp as <-.
  injection Ht' as <-. injection Hp' as <-.
  apply confusion_counts_Ok_iff. exists (a ++ a')%list, (b ++ b')%list.
  split; [apply to_list_int_seq_obj|]. split; [apply to_list_int_seq_obj|].
  split; [rewrite !length_app; congruence|].
  rewrite (combine_app a a' b b' Hlen). split.
  - intros Hs. apply Forall_app. split; [now apply Hall | now apply Hall'].
  - rewrite !tally_all_counts, !count_if_app. reflexivity.
Qed.

Lemma confusion_counts_app_witness :
  confusion_counts (seq_obj ([IInt 1; IInt 0] ++ [IInt 1]))
                   (seq_obj ([IInt 1; IInt 1] ++ [IInt 0])) 1 0 true
  = Ok (add_counts (mkCounts 1 1 0 0) (mkCounts 0 0 0 1)).
Proof.
  apply (confusion_counts_app [IInt 1; IInt 0] [IInt 1; IInt 1] [IInt 1] [IInt 0]);
    reflexivity.
Defined.

(** *** Booleans as labels *)

Lemma combine_map2 {A B} (g : A -> B) (a : list A) : forall b : list A,
  combine (map g a) (map g b)
  = map (fun x => (g (fst x), g (snd x))) (combine a b).
Proof.
  induction a as [|x a IH]; intros [|y b]; simpl; try reflexivity.
  now rewrite IH.
Qed.

(** X14: A bool among the labels counts as the int it equals: with [True]
    replaced by 1 and [False] by 0 the call returns in the same cases,
    with the same counts. *)
Theorem confusion_counts_bools :
  forall (a b : list int_obj) (pos neg : Z) (strict : bool)
         (c : ConfusionCounts),
    confusion_counts (seq_obj a) (seq_obj b) pos neg strict = Ok c
    <-> confusion_counts (int_list (map int_value a))
                         (int_list (map int_value b)) pos neg strict = Ok c.
Proof.
  intros a b pos neg strict c.
  set (g := fun v : int_obj => IInt (int_value v)).
  assert (Hg : forall l, map IInt (map int_value l) = map g l).
  { intros l. now rewrite map_map. }
  rewrite !confusion_counts_Ok_iff. split.
  - intros (yt & yp & Ht & Hp & Hlen & Hall & ->).
    rewrite to_list_int_seq_obj in Ht, Hp.
    injection Ht as <-. injection Hp as <-.
    exists (map g a), (map g b).
    split; [rewrite <- Hg; apply to_list_int_int_list|].
    split; [rewrite <- Hg; apply to_list_int_int_list|].
    split; [now rewrite !length_map|]. rewrite combine_map2. split.
    + intros Hs. apply Forall_map. exact (Hall Hs).
    + rewrite !tally_all_counts, !count_if_map. reflexivity.
  - intros (yt & yp & Ht & Hp & Hlen & Hall & ->).
    rewrite to_list_int_int_list, Hg in Ht, Hp.
    injection Ht as <-. injection Hp as <-.
    exists a, b.
    split; [apply to_list_int_seq_obj|]. split; [apply to_list_int_seq_obj|].
    split; [now rewrite !length_map in Hlen|]. rewrite combine_map2 in *. split.
    + intros Hs. specialize (Hall Hs). apply Forall_map in Hall. exact Hall.
    + rewrite !tally_all_counts, !count_if_map. reflexivity.
Qed.

End MetricsMore.

(* ================================================================= *)
(** ** Further properties of rounding *)

Module RoundingMore.

Import Rounding RoundingFacts.

Local Open Scope R_scope.

(** The nearest integer is monotone. *)
Lemma nearest_even_mono t t' K K' :
  nearest_even t K -> nearest_even t' K' -> t <= t' -> (K <= K')%Z.
Proof.
  intros [[Hlo Hhi] Hev] [[Hlo' Hhi'] Hev'] Ht.
  destruct (Z_le_gt_dec K K') as [|Hgt]; [assumption|exfalso].
  assert (HK : (K' + 1 <= K)%Z) by lia. apply IZR_le in HK.
  rewrite plus_IZR in HK.
  assert (Ht1 : t = IZR K - 1/2) by lra.
  assert (Ht2 : t' = IZR K' + 1/2) by lra.
  assert (HKK : IZR K = IZR K' + 1) by lra.
  assert (K = (K' + 1)%Z) by (apply eq_IZR; rewrite plus_IZR; lra).
  specialize (Hev (or_introl Ht1)). specialize (Hev' (or_intror Ht2)).
  subst K. rewrite Z.even_add, Hev' in Hev. discriminate.
Qed.

(** Rounding is monotone, below a number of the format. *)
Lemma rounds_to_mono x y f g v :
  rounds_to x f -> rounds_to y g -> representable v ->
  x <= y -> y <= v -> SF2R f <= SF2R g.
Proof.
  intros Hf Hg Hv Hxy Hyv.
  destruct (rounds_to_below x f v Hf Hv ltac:(lra))
    as (k & K & Hhi & Hlo & Hne & HK & Hn & _ & _ & -> & _).
  destruct (rounds_to_below y g v Hg Hv Hyv)
    as (k' & K' & Hhi' & Hlo' & Hne' & HK' & Hn' & _ & _ & -> & _).
  destruct (Z.eq_dec (fexp k) (fexp k')) as [He | He].
  - rewrite <- He in *. pose proof (bpow_pos (fexp k)) as Hu.
    assert (Ht : x / bpow (fexp k) <= y / bpow (fexp k)).
    { apply Rmult_le_compat_r; [|exact Hxy]. apply Rlt_le, Rinv_0_lt_compat. lra. }
    pose proof (nearest_even_mono _ _ _ _ Hne Hne' Ht) as HKK.
    unfold F2R. apply Rmult_le_compat_r; [lra|]. now apply IZR_le.
  - assert (Hlt : (fexp k < fexp k')%Z).
    { destruct (Z_lt_le_dec (fexp k) (fexp k')) as [|Hge]; [assumption|exfalso].
      assert (Hgt : (fexp k' < fexp k)%Z) by lia.
      pose proof (fexp_ge_emin k').
      destruct Hlo as [Hlo | Hk]; [|unfold fexp, emin in *; lia].
      assert (k - 1 < k')%Z by (apply bpow_lt_inv; lra).
      pose proof (fexp_mono k k' ltac:(lia)). lia. }
    pose proof (fexp_ge_emin k) as Hek.
    specialize (Hn' ltac:(lia)).
    apply Rle_trans with (bpow (53 + fexp k)).
    + unfold F2R. rewrite bpow_add, (bpow_IZR 53) by lia.
      apply Rmult_le_compat_r; [apply Rlt_le, bpow_pos|]. apply IZR_le. lia.
    + apply Rle_trans with (bpow (52 + fexp k')); [apply bpow_le; lia|].
      unfold F2R. rewrite bpow_add, (bpow_IZR 52) by lia.
      apply Rmult_le_compat_r; [apply Rlt_le, bpow_pos|]. now apply IZR_le.
Qed.

(** A real number below a number of the format has one rounding. *)
Lemma rounds_to_unique x f g v :
  rounds_to x f -> rounds_to x g -> representable v -> x <= v -> f = g.
Proof.
  intros Hf Hg Hv Hx.
  destruct (rounds_to_le x f v Hf Hv Hx) as [Hgf _].
  destruct (rounds_to_le x g v Hg Hv Hx) as [Hgg _].
  apply good_inj; try assumption.
  pose proof (rounds_to_mono x x f g v Hf Hg Hv ltac:(lra) Hx).
  pose proof (rounds_to_mono x x g f v Hg Hf Hv ltac:(lra) Hx).
  lra.
Qed.

(** A value at or above the smallest positive float does not round to
    zero. *)
Lemma rounds_to_nonzero x f sz :
  rounds_to x f -> bpow emin <= x -> f <> S754_zero sz.
Proof.
  intros (k & K & Hhi & Hlo & Hne & HK & Hn & ->) Hx.
  assert (HK0 : K <> 0%Z).
  { intros ->. destruct Hne as [[_ Hle] _]. simpl in Hle.
    pose proof (bpow_pos (fexp k)) as Hu.
    assert (Hxle : x <= bpow (fexp k) / 2).
    { replace x with (x / bpow (fexp k) * bpow (fexp k))
        by (field; apply Rgt_not_eq; lra).
      nra. }
    destruct (Z.eq_dec (fexp k) emin) as [He | He].
    - rewrite He in Hxle. pose proof (bpow_pos emin). lra.
    - pose proof (fexp_ge_emin k). specialize (Hn ltac:(lia)). lia. }
  unfold encode. destruct K as [|p|p]; [congruence| |lia].
  destruct (Z.pos p =? 2 ^ 53)%Z;
    [destruct (fexp k + 1 <=? 971)%Z | destruct (fexp k <=? 971)%Z];
    discriminate.
Qed.

Local Open Scope Z_scope.

(** The sign given to [binary_round_aux] only signs its result. *)
Lemma binary_round_aux_zero sx m e l sz :
  binary_round_aux prec emax sx m e l = S754_zero sz ->
  binary_round_aux prec emax false m e l = S754_zero false.
Proof.
  unfold binary_round_aux.
  destruct (shr_fexp prec emax m e l) as [mrs e'].
  destruct (shr_fexp prec emax _ e' loc_Exact) as [mrs' e''].
  destruct (shr_m mrs') as [|p|p]; [reflexivity| |discriminate].
  destruct (e'' <=? emax - prec); discriminate.
Qed.

(** [binary_round] is correctly rounded. *)
Lemma binary_round_rounds m e :
  rounds_to (F2R (Z.pos m) e) (binary_round prec emax false m e).
Proof.
  unfold binary_round. change (SpecFloat.fexp prec emax) with fexp.
  pose proof (shl_align_spec m e (fexp (Z.pos (digits2_pos m) + e))) as H.
  destruct (shl_align m e _) as [mz ez]. destruct H as [Hez Hmz].
  rewrite <- (F2R_shift (Z.pos m) e ez) by lia. rewrite <- Hmz.
  apply round_correct; [lia | reflexivity |].
  rewrite Hmz, Zdigits2_shift by lia.
  change (Zdigits2 (Z.pos m)) with (Z.pos (digits2_pos m)).
  replace (Z.pos (digits2_pos m) + (e - ez) + ez)
    with (Z.pos (digits2_pos m) + e) by lia.
  lia.
Qed.

(** The float of a non-zero int is not zero. *)
Lemma float_of_int_nonzero z f :
  z <> 0 -> float_of_int z = Ok f -> feqb f fzero = false.
Proof.
  intros Hz. unfold float_of_int, binary_normalize.
  assert (Hnz : forall sx m sz, binary_round prec emax sx m 0 <> S754_zero sz).
  { intros sx m sz H.
    assert (H0 : binary_round prec emax false m 0 = S754_zero false).
    { unfold binary_round in *.
      destruct (shl_align m 0 _) as [mz ez].
      now apply (binary_round_aux_zero sx _ _ _ sz). }
    pose proof (binary_round_rounds m 0) as Hr. rewrite H0 in Hr.
    apply (rounds_to_nonzero _ _ false Hr); [|reflexivity].
    unfold F2R. rewrite bpow_0, Rmult_1_r.
    apply Rle_trans with 1%R; [|apply IZR_le; lia].
    change 1%R with (bpow 0). apply bpow_le. unfold emin. lia. }
  destruct z as [|m|m]; [congruence| |].
  - specialize (Hnz false m).
    destruct (binary_round prec emax false m 0) as [s|s| |s m' e'];
      try discriminate; intros [= <-]; try reflexivity.
    + exfalso. now apply (Hnz s).
    + now destruct s.
  - specialize (Hnz true m).
    destruct (binary_round prec emax true m 0) as [s|s| |s m' e'];
      try discriminate; intros [= <-]; try reflexivity.
    + exfalso. now apply (Hnz s).
    + now destruct s.
Qed.

End RoundingMore.

(* ================================================================= *)
(** ** Further properties of the metrics *)

Module ReportMore.

Import Metrics Report Spec Derived Rounding RoundingFacts ReportFacts
       MetricsFacts ThresholdsMore MetricsMore RoundingMore.

Local Open Scope R_scope.

(** *** Ratios of counts *)

Lemma representable_one : representable 1.
Proof.
  exists 1%Z, 0%Z. split; [split; [lia | reflexivity]|].
  split; [unfold emin; lia|]. unfold F2R. rewrite bpow_0. lra.
Qed.

Lemma div_le_one n d : (0 <= n <= d)%Z -> (0 < d)%Z -> IZR n / IZR d <= 1.
Proof.
  intros H Hd. assert (0 < IZR d) by (apply IZR_lt; lia).
  assert (IZR n <= IZR d) by (apply IZR_le; lia).
  apply Rmult_le_reg_r with (IZR d); [assumption|].
  replace (IZR n / IZR d * IZR d) with (IZR n)
    by (field; apply Rgt_not_eq; lra).
  lra.
Qed.

Lemma ratio_zero d : (0 <= d)%Z -> ratio 0 d = fzero.
Proof.
  intros Hd. unfold ratio, literal, int_truediv.
  destruct (Z.eqb_spec d 0) as [|Hne]; [reflexivity|].
  change (0 =? 0)%Z with true. cbv iota.
  destruct (Z.ltb_spec d 0); [lia | reflexivity].
Qed.

Lemma ratio_good n d :
  (0 <= n <= d)%Z -> good (ratio n d) /\ SF2R (ratio n d) <= 1.
Proof.
  intros H. destruct (safe_div_counts n d H) as (_ & Hg & Hle & _).
  now split.
Qed.

Lemma ratio_pos n d :
  (0 < n <= d)%Z -> rounds_to (IZR n / IZR d) (ratio n d).
Proof.
  intros H. destruct (safe_div_counts n d ltac:(lia)) as (_ & _ & _ & _ & Hr).
  apply Hr. lia.
Qed.

(** A ratio depends on the quotient only. *)
Lemma ratio_scale k n d :
  (0 < k)%Z -> (0 <= n <= d)%Z -> ratio (k * n) (k * d) = ratio n d.
Proof.
  intros Hk Hnd. destruct (Z.eq_dec n 0) as [-> | Hn].
  - rewrite Z.mul_0_r, !ratio_zero by nia. reflexivity.
  - pose proof (ratio_pos n d ltac:(lia)) as Hr.
    pose proof (ratio_pos (k * n) (k * d) ltac:(nia)) as Hr'.
    apply (rounds_to_unique (IZR n / IZR d) _ _ 1).
    + replace (IZR n / IZR d) with (IZR (k * n) / IZR (k * d)); [assumption|].
      rewrite !mult_IZR. field. split; apply not_0_IZR; lia.
    + assumption.
    + apply representable_one.
    + apply div_le_one; lia.
Qed.

Lemma ratio_self n : (0 < n)%Z -> ratio n n = fone.
Proof.
  intros Hn. pose proof (ratio_pos n n ltac:(lia)) as Hr.
  apply (rounds_to_exact (IZR n / IZR n)); [assumption | apply good_fone |].
  rewrite (proj2 good_fone). field. apply not_0_IZR. lia.
Qed.

(** A ratio grows with its numerator. *)
Lemma ratio_mono n n' d :
  (0 <= n <= n')%Z -> (n' <= d)%Z -> fleb (ratio n d) (ratio n' d) = true.
Proof.
  intros H H'.
  destruct (ratio_good n d ltac:(lia)) as [Hg _].
  destruct (ratio_good n' d ltac:(lia)) as [Hg' _].
  apply good_leb; try assumption.
  destruct (Z.eq_dec n 0) as [-> | Hn].
  - rewrite ratio_zero by lia. rewrite (proj2 good_fzero).
    now apply good_nonneg.
  - pose proof (ratio_pos n d ltac:(lia)) as Hr.
    pose proof (ratio_pos n' d ltac:(lia)) as Hr'.
    apply (rounds_to_mono _ _ _ _ 1 Hr Hr' representable_one).
    + unfold Rdiv. apply Rmult_le_compat_r; [|apply IZR_le; lia].
      apply Rlt_le, Rinv_0_lt_compat, IZR_lt. lia.
    + apply div_le_one; lia.
Qed.

Local Open Scope Z_scope.

(** *** Safe division *)

Lemma float_of_int_raise z e :
  float_of_int z = Raise e -> exists msg, e = OverflowError msg.
Proof.
  unfold float_of_int.
  destruct (binary_normalize prec emax z 0 false); try discriminate.
  intros [= <-]. eauto.
Qed.

Lemma safe_div_raise n d e :
  safe_div n d = Raise e -> exists msg, e = OverflowError msg.
Proof.
  intros H. unfold safe_div in H. destruct d as [z | f]; cbn [eq_zero] in H.
  - destruct (Z.eqb_spec z 0) as [|Hz]; [discriminate|].
    destruct n as [x | g]; cbv beta iota delta [py_truediv to_float] in H.
    + unfold int_truediv in H. rewrite (proj2 (Z.eqb_neq z 0) Hz) in H.
      destruct (x =? 0); [discriminate|].
      destruct (fdiv _ _); try discriminate. injection H as <-. eauto.
    + destruct (float_of_int z) as [y | e'] eqn:Hy.
      * unfold float_truediv in H.
        rewrite (float_of_int_nonzero z y Hz Hy) in H. discriminate.
      * injection H as <-. now apply (float_of_int_raise z).
  - destruct (feqb f fzero) eqn:Hf; [discriminate|].
    destruct n as [x | g]; cbv beta iota delta [py_truediv to_float] in H.
    + destruct (float_of_int x) as [y | e'] eqn:Hy.
      * unfold float_truediv in H. rewrite Hf in H. discriminate.
      * injection H as <-. now apply (float_of_int_raise x).
    + unfold float_truediv in H. rewrite Hf in H. discriminate.
Qed.

(** X15: [safe_div] never raises [ZeroDivisionError], nor anything else than
    the [OverflowError] of an int too large for a float; on two floats
    it always returns. *)
Theorem safe_div_no_zero_division :
  forall (n d : number) (e : exn),
    safe_div n d = Raise e ->
    (exists msg, e = OverflowError msg)
    /\ (forall msg, e <> ZeroDivisionError msg)
    /\ (exists z, n = NInt z \/ d = NInt z).
Proof.
  intros n d e H.
  pose proof (safe_div_raise n d e H) as Hov.
  split; [exact Hov|]. split.
  - intros msg ->. destruct Hov as [msg' Hov]. discriminate.
  - destruct n as [x | g]; [exists x; now left|].
    destruct d as [z | f]; [exists z; now right|].
    rewrite safe_div_floats in H. discriminate.
Qed.

Lemma safe_div_no_zero_division_witness :
  (exists msg, OverflowError "int too large to convert to float" = OverflowError msg)
  /\ (forall msg, OverflowError "int too large to convert to float"
                  <> ZeroDivisionError msg)
  /\ (exists z, NInt (2 ^ 1024) = NInt z \/ NFloat fone = NInt z).
Proof.
  apply (safe_div_no_zero_division (NInt (2 ^ 1024)) (NFloat fone)).
  vm_compute. reflexivity.
Defined.

(** *** The report of the counts *)

Lemma metrics_from_counts_report c :
  0 <= tp c -> 0 <= fp c -> 0 <= tn c -> 0 <= fn c ->
  metrics_from_counts c = Ok (report_of c).
Proof. intros. unfold report_of. now apply metrics_from_counts_eq. Qed.

(** X16: Whatever the four integers, negative ones included,
    [metrics_from_counts] raises nothing but the [OverflowError] of a
    quotient of ints too large for a float: never
    [ZeroDivisionError]. *)
Theorem metrics_from_counts_only_overflow :
  forall (c : ConfusionCounts) (e : exn),
    metrics_from_counts c = Raise e ->
    (exists msg, e = OverflowError msg)
    /\ (forall msg, e <> ZeroDivisionError msg).
Proof.
  intros c e H.
  assert (Hov : exists msg, e = OverflowError msg).
  { revert H. unfold metrics_from_counts. cbv zeta.
    destruct (safe_div (NInt (tp c + tn c)) _) as [acc | e1] eqn:H1; cbn [bind];
      [|intros [= <-]; exact (safe_div_raise _ _ _ H1)].
    destruct (safe_div (NInt (tp c)) (NInt (tp c + fp c))) as [p | e1] eqn:H2;
      cbn [bind]; [|intros [= <-]; exact (safe_div_raise _ _ _ H2)].
    destruct (safe_div (NInt (tp c)) (NInt (tp c + fn c))) as [r | e1] eqn:H3;
      cbn [bind]; [|intros [= <-]; exact (safe_div_raise _ _ _ H3)].
    destruct (safe_div (NInt (tn c)) _) as [sp | e1] eqn:H4; cbn [bind];
      [|intros [= <-]; exact (safe_div_raise _ _ _ H4)].
    change (py_mul (NInt 2) (NFloat p)) with (Ok (NFloat (fmul two p))).
    cbv beta iota delta [bind py_mul py_add to_float].
    rewrite safe_div_floats.
    destruct (safe_div (NInt (fp c)) _) as [x | e1] eqn:H5;
      [|intros [= <-]; exact (safe_div_raise _ _ _ H5)].
    destruct (safe_div (NInt (fn c)) _) as [y | e1] eqn:H6;
      [|intros [= <-]; exact (safe_div_raise _ _ _ H6)].
    discriminate. }
  split; [exact Hov|].
  intros msg ->. destruct Hov as [msg' Hov]. discriminate.
Qed.

Lemma metrics_from_counts_only_overflow_witness :
  (exists msg,
      OverflowError "integer division result too large for a float"
      = OverflowError msg)
  /\ (forall msg,
         OverflowError "integer division result too large for a float"
         <> ZeroDivisionError msg).
Proof.
  apply (metrics_from_counts_only_overflow
           (mkCounts (2 ^ 1100) (1 - 2 ^ 1100) 0 0)).
  vm_compute. reflexivity.
Defined.

Lemma tally_all_nonneg pos pairs :
  0 <= tp (tally_all pos pairs) /\ 0 <= fp (tally_all pos pairs)
  /\ 0 <= tn (tally_all pos pairs) /\ 0 <= fn (tally_all pos pairs).
Proof.
  rewrite tally_all_counts. cbn [tp fp tn fn].
  repeat split; apply count_if_nonneg.
Qed.

Lemma confusion_counts_Ok_nonneg y_true y_pred pos neg strict c :
  confusion_counts y_true y_pred pos neg strict = Ok c ->
  0 <= tp c /\ 0 <= fp c /\ 0 <= tn c /\ 0 <= fn c.
Proof.
  intros H. apply confusion_counts_Ok_iff in H.
  destruct H as (yt & yp & _ & _ & _ & _ & ->). apply tally_all_nonneg.
Qed.

(** X17: Multiplying the four counts by the same positive number changes none
    of the seven ratios. *)
Theorem metrics_scale_invariant :
  forall (c : ConfusionCounts) (k : Z),
    0 < k -> 0 <= tp c -> 0 <= fp c -> 0 <= tn c -> 0 <= fn c ->
    exists m m',
      metrics_from_counts c = Ok m
      /\ metrics_from_counts (scale_counts k c) = Ok m'
      /\ forall key, In key ratio_keys -> get_float key m' = get_float key m.
Proof.
  intros c k Hk Htp Hfp Htn Hfn.
  exists (report_of c), (report_of (scale_counts k c)).
  split; [now apply metrics_from_counts_report|].
  split; [apply metrics_from_counts_report; cbn [scale_counts tp fp tn fn]; nia|].
  unfold report_of, scale_counts. cbn [tp fp tn fn].
  replace (k * tp c + k * fp c + k * tn c + k * fn c)
    with (k * (tp c + fp c + tn c + fn c)) by ring.
  replace (k * tp c + k * tn c) with (k * (tp c + tn c)) by ring.
  replace (k * tp c + k * fp c) with (k * (tp c + fp c)) by ring.
  replace (k * tp c + k * fn c) with (k * (tp c + fn c)) by ring.
  replace (k * tn c + k * fp c) with (k * (tn c + fp c)) by ring.
  replace (k * fp c + k * tn c) with (k * (fp c + tn c)) by ring.
  replace (k * fn c + k * tp c) with (k * (fn c + tp c)) by ring.
  rewrite !ratio_scale by lia.
  intros key Hkey. unfold ratio_keys in Hkey. simpl in Hkey.
  destruct Hkey as [<- | [<- | [<- | [<- | [<- | [<- | [<- | []]]]]]]];
    reflexivity.
Qed.

Lemma metrics_scale_invariant_witness :
  exists m m',
    metrics_from_counts (mkCounts 1 2 3 4) = Ok m
    /\ metrics_from_counts (scale_counts 10 (mkCounts 1 2 3 4)) = Ok m'
    /\ forall key, In key ratio_keys -> get_float key m' = get_float key m.
Proof.
  apply (metrics_scale_invariant (mkCounts 1 2 3 4) 10); simpl; lia.
Defined.

(** X18: Without false positives and false negatives accuracy is 1.0 and both
    error rates are 0.0; precision, recall and f1 are 1.0 when there is
    a true positive and 0.0 when there is none, and specificity is 1.0
    when there is a true negative and 0.0 when there is none. *)
Theorem metrics_without_errors :
  forall c : ConfusionCounts,
    fp c = 0 -> fn c = 0 -> 0 <= tp c -> 0 <= tn c ->
    exists m,
      metrics_from_counts c = Ok m
      /\ get_float "fpr" m = Some fzero
      /\ get_float "fnr" m = Some fzero
      /\ (0 < tp c + tn c -> get_float "accuracy" m = Some fone)
      /\ (0 < tp c -> get_float "precision" m = Some fone
                      /\ get_float "recall" m = Some fone
                      /\ get_float "f1" m = Some fone)
      /\ (tp c = 0 -> get_float "precision" m = Some fzero
                      /\ get_float "recall" m = Some fzero
                      /\ get_float "f1" m = Some fzero)
      /\ (0 < tn c -> get_float "specificity" m = Some fone)
      /\ (tn c = 0 -> get_float "specificity" m = Some fzero).
Proof.
  intros c Hfp Hfn Htp Htn.
  exists (report_of c).
  split; [apply metrics_from_counts_report; lia|].
  unfold report_of, get_float. simpl. rewrite Hfp, Hfn, !Z.add_0_r, !Z.add_0_l.
  rewrite (ratio_zero (tn c) Htn), (ratio_zero (tp c) Htp).
  split; [reflexivity|]. split; [reflexivity|].
  split; [intros H; now rewrite ratio_self|].
  split; [intros H; rewrite (ratio_self (tp c) H); repeat split; reflexivity|].
  split; [intros ->; repeat split; reflexivity|].
  split; [intros H; now rewrite ratio_self|].
  intros ->. reflexivity.
Qed.

Lemma metrics_without_errors_witness :
  exists m,
    metrics_from_counts (mkCounts 2 0 3 0) = Ok m
    /\ get_float "fpr" m = Some fzero
    /\ get_float "fnr" m = Some fzero.
Proof.
  destruct (metrics_without_errors (mkCounts 2 0 3 0)) as (m & H1 & H2 & H3 & _);
    try reflexivity; try (simpl; lia).
  exists m. repeat split; assumption.
Defined.

(** X19: Raising a count of the numerator at the expense of its complement
    raises the ratio: recall and the false positive rate grow with [tp]
    and [fp] at fixed row sums, specificity and the false negative rate
    fall. *)
Theorem metrics_monotone :
  forall c c' : ConfusionCounts,
    0 <= tp c -> 0 <= fp c -> 0 <= tn c' -> 0 <= fn c' ->
    tp c <= tp c' -> fp c <= fp c' ->
    tp c + fn c = tp c' + fn c' -> fp c + tn c = fp c' + tn c' ->
    exists m m',
      metrics_from_counts c = Ok m /\ metrics_from_counts c' = Ok m'
      /\ (exists r r', get_float "recall" m = Some r
                       /\ get_float "recall" m' = Some r'
                       /\ fleb r r' = true)
      /\ (exists r r', get_float "fpr" m = Some r
                       /\ get_float "fpr" m' = Some r'
                       /\ fleb r r' = true)
      /\ (exists r r', get_float "specificity" m = Some r
                       /\ get_float "specificity" m' = Some r'
                       /\ fleb r' r = true)
      /\ (exists r r', get_float "fnr" m = Some r
                       /\ get_float "fnr" m' = Some r'
                       /\ fleb r' r = true).
Proof.
  intros c c' Htp Hfp Htn Hfn Ht Hf Hrow Hcol.
  exists (report_of c), (report_of c').
  split; [apply metrics_from_counts_report; lia|].
  split; [apply metrics_from_counts_report; lia|].
  unfold report_of, get_float. simpl.
  split; [|split; [|split]]; do 2 eexists;
    (split; [reflexivity|]); (split; [reflexivity|]).
  - rewrite <- Hrow. apply ratio_mono; lia.
  - rewrite <- Hcol. apply ratio_mono; lia.
  - replace (tn c' + fp c') with (tn c + fp c) by lia. apply ratio_mono; lia.
  - replace (fn c' + tp c') with (fn c + tp c) by lia. apply ratio_mono; lia.
Qed.

Lemma metrics_monotone_witness :
  exists m m',
    metrics_from_counts (mkCounts 1 1 2 2) = Ok m
    /\ metrics_from_counts (mkCounts 2 2 1 1) = Ok m'
    /\ (exists r r', get_float "recall" m = Some r
                     /\ get_float "recall" m' = Some r'
                     /\ fleb r r' = true).
Proof.
  destruct (metrics_monotone (mkCounts 1 1 2 2) (mkCounts 2 2 1 1))
    as (m & m' & H1 & H2 & H3 & _); try (simpl; lia).
  exists m, m'. repeat split; assumption.
Defined.

(** *** [binary_metrics] *)

(** X20: [binary_metrics] raises what [confusion_counts] raises and nothing
    else: on the counts of two sequences the arithmetic never fails, and
    the report is that of the counts. *)
Theorem binary_metrics_spec :
  forall (y_true y_pred : object) (pos neg : Z) (strict : bool),
    (forall e, confusion_counts y_true y_pred pos neg strict = Raise e ->
               binary_metrics y_true y_pred pos neg strict = Raise e)
    /\ (forall c, confusion_counts y_true y_pred pos neg strict = Ok c ->
                  binary_metrics y_true y_pred pos neg strict = Ok (report_of c))
    /\ (forall e, binary_metrics y_true y_pred pos neg strict = Raise e ->
                  confusion_counts y_true y_pred pos neg strict = Raise e).
Proof.
  intros y_true y_pred pos neg strict. unfold binary_metrics.
  destruct (confusion_counts y_true y_pred pos neg strict) as [c | e0] eqn:Hc;
    cbn [bind].
  - destruct (confusion_counts_Ok_nonneg _ _ _ _ _ _ Hc) as (H1 & H2 & H3 & H4).
    rewrite (metrics_from_counts_report c H1 H2 H3 H4).
    split; [discriminate|]. split; [|discriminate].
    now intros c' [= <-].
  - split; [now intros e [= <-]|]. split; [discriminate | now intros e [= <-]].
Qed.

Lemma binary_metrics_Ok y_true y_pred pos neg strict c :
  confusion_counts y_true y_pred pos neg strict = Ok c ->
  binary_metrics y_true y_pred pos neg strict = Ok (report_of c).
Proof.
  intros Hc. unfold binary_metrics. rewrite Hc. cbn [bind].
  destruct (confusion_counts_Ok_nonneg _ _ _ _ _ _ Hc) as (H1 & H2 & H3 & H4).
  now apply metrics_from_counts_report.
Qed.

Lemma binary_metrics_inv y_true y_pred pos neg strict m :
  binary_metrics y_true y_pred pos neg strict = Ok m ->
  exists c, confusion_counts y_true y_pred pos neg strict = Ok c
            /\ m = report_of c.
Proof.
  intros H. destruct (confusion_counts y_true y_pred pos neg strict)
    as [c | e] eqn:Hc.
  - exists c. split; [reflexivity|].
    rewrite (binary_metrics_Ok _ _ _ _ _ _ Hc) in H. now injection H.
  - unfold binary_metrics in H. rewrite Hc in H. discriminate.
Qed.

(** X21: Under strict validation and with two distinct labels, exchanging
    [positive_label] and [negative_label] exchanges recall with
    specificity and the false positive rate with the false negative
    rate, and keeps accuracy. *)
Theorem binary_metrics_swap_labels :
  forall (y_true y_pred : object) (pos neg : Z) (m : MetricsReport),
    pos <> neg ->
    binary_metrics y_true y_pred pos neg true = Ok m ->
    exists m',
      binary_metrics y_true y_pred neg pos true = Ok m'
      /\ get_float "accuracy" m' = get_float "accuracy" m
      /\ get_float "recall" m' = get_float "specificity" m
      /\ get_float "specificity" m' = get_float "recall" m
      /\ get_float "fpr" m' = get_float "fnr" m
      /\ get_float "fnr" m' = get_float "fpr" m.
Proof.
  intros y_true y_pred pos neg m Hpn H.
  apply binary_metrics_inv in H. destruct H as (c & Hc & ->).
  exists (report_of (swap_classes c)). split.
  { apply binary_metrics_Ok.
    apply confusion_counts_Ok_iff in Hc.
    destruct Hc as (yt & yp & Ht & Hp & Hlen & Hall & ->).
    specialize (Hall eq_refl).
    apply confusion_counts_Ok_iff. exists yt, yp.
    repeat (split; [assumption|]). split.
    - intros _. eapply Forall_impl; [|exact Hall].
      intros x Hx. now rewrite pair_ok_swap.
    - symmetry. now apply tally_all_swap. }
  unfold report_of, swap_classes, get_float. simpl.
  split; [|repeat split].
  replace (tn c + tp c) with (tp c + tn c) by ring.
  replace (tn c + fn c + tp c + fp c) with (tp c + fp c + tn c + fn c) by ring.
  reflexivity.
Qed.

Lemma binary_metrics_swap_labels_witness :
  exists m',
    binary_metrics (int_list [1; 1; 0]) (int_list [1; 0; 0]) 0 1 true = Ok m'
    /\ get_float "accuracy" m' = get_float "accuracy" (report_of (mkCounts 1 0 1 1))
    /\ get_float "recall" m' = get_float "specificity" (report_of (mkCounts 1 0 1 1))
    /\ get_float "specificity" m' = get_float "recall" (report_of (mkCounts 1 0 1 1))
    /\ get_float "fpr" m' = get_float "fnr" (report_of (mkCounts 1 0 1 1))
    /\ get_float "fnr" m' = get_float "fpr" (report_of (mkCounts 1 0 1 1)).
Proof.
  apply (binary_metrics_swap_labels (int_list [1; 1; 0]) (int_list [1; 0; 0]) 1 0).
  - lia.
  - apply binary_metrics_Ok. reflexivity.
Defined.

End ReportMore.

(* ================================================================= *)
(** ** Further properties of the analysis of a threshold *)

Module CoreMore.

Import Thresholds Metrics Report Core Spec Derived.
Import ThresholdsFacts MetricsFacts ReportFacts CoreFacts.
Import ThresholdsMore MetricsMore ReportMore.

(** *** The predictions as a label sequence *)

Lemma label_of_in_labels t pos neg s :
  in_labels (IInt (label_of t pos neg s)) pos neg = true.
Proof.
  unfold in_labels, int_eqb, label_of. cbn [int_value].
  destruct (fgeb s t); rewrite Z.eqb_refl; [reflexivity | apply orb_true_r].
Qed.

Lemma predictions_in_labels scores t pos neg :
  Forall (fun v => in_labels v pos neg = true)
         (map IInt (apply_threshold scores t pos neg)).
Proof.
  rewrite apply_threshold_map, map_map. apply Forall_map, Forall_forall.
  intros s _. apply label_of_in_labels.
Qed.

Lemma predictions_length scores t pos neg :
  List.length (map IInt (apply_threshold scores t pos neg)) = List.length scores.
Proof. now rewrite length_map, apply_threshold_length. Qed.

Lemma pair_ok_combine pos neg yt : forall yp,
  List.length yt = List.length yp ->
  Forall (fun v => in_labels v pos neg = true) yp ->
  (Forall (fun tp => pair_ok pos neg tp = true) (combine yt yp)
   <-> Forall (fun v => in_labels v pos neg = true) yt).
Proof.
  induction yt as [|t yt IH]; intros [|p yp] Hlen Hp; simpl in *;
    try discriminate.
  - split; constructor.
  - inversion Hp as [|? ? Hp1 Hp2]; subst.
    specialize (IH yp ltac:(congruence) Hp2). split.
    + intros H. inversion H as [|? ? H1 H2]; subst.
      unfold pair_ok in H1. simpl in H1. apply andb_true_iff in H1.
      constructor; [apply H1 | now apply IH].
    + intros H. inversion H as [|? ? H1 H2]; subst.
      constructor; [|now apply IH]. unfold pair_ok. simpl.
      now rewrite H1, Hp1.
Qed.

Lemma combine_map_r {A B C} (g : B -> C) (a : list A) : forall b : list B,
  combine a (map g b) = map (fun x => (fst x, g (snd x))) (combine a b).
Proof.
  induction a as [|x a IH]; intros [|y b]; simpl; try reflexivity.
  now rewrite IH.
Qed.

(** *** When the analysis returns, and what *)

Lemma analyze_threshold_Ok_iff scores y_true t pos neg strict r :
  analyze_threshold scores y_true t pos neg strict = Ok r <->
  exists yt,
    _to_list_int (view y_true) "y_true" = Ok yt
    /\ List.length yt = List.length (items scores)
    /\ (strict = true -> Forall (fun v => in_labels v pos neg = true) yt)
    /\ spent y_true = y_true
    /\ r = mkResult t (apply_threshold (items scores) t pos neg)
                    (tally_all pos
                       (combine yt (map IInt (apply_threshold (items scores)
                                                              t pos neg))))
                    (report_of
                       (tally_all pos
                          (combine yt (map IInt (apply_threshold (items scores)
                                                                 t pos neg))))).
Proof.
  split.
  - intros H.
    pose proof (analyze_threshold_Ok_spent _ _ _ _ _ _ _ H) as Hs.
    destruct (analyze_threshold_fields _ _ _ _ _ _ _ H) as (Hth & Hy & Hc & Hm).
    rewrite Hs in Hm. rewrite Hy in Hc, Hm.
    rewrite (binary_metrics_Ok _ _ _ _ _ _ Hc) in Hm. injection Hm as Hm.
    apply confusion_counts_Ok_iff in Hc.
    destruct Hc as (yt & yp & Ht & Hp & Hlen & Hall & Hcnt).
    rewrite to_list_int_int_list in Hp. injection Hp as <-.
    exists yt. split; [assumption|].
    split; [now rewrite Hlen, predictions_length|]. split.
    + intros Hst. apply (pair_ok_combine pos neg yt _ Hlen);
        [apply predictions_in_labels | now apply Hall].
    + split; [assumption|].
      destruct r as [th yp c m]. simpl in *. subst. reflexivity.
  - intros (yt & Ht & Hlen & Hall & Hs & ->).
    assert (Hc : confusion_counts (view y_true)
                   (int_list (apply_threshold (items scores) t pos neg))
                   pos neg strict
                 = Ok (tally_all pos
                         (combine yt (map IInt (apply_threshold (items scores)
                                                                t pos neg))))).
    { apply confusion_counts_Ok_iff.
      exists yt, (map IInt (apply_threshold (items scores) t pos neg)).
      split; [assumption|]. split; [apply to_list_int_int_list|].
      split; [now rewrite predictions_length|]. split; [|reflexivity].
      intros Hst. apply pair_ok_combine;
        [now rewrite predictions_length | apply predictions_in_labels
        | now apply Hall]. }
    unfold analyze_threshold. cbv zeta.
    rewrite Hs, Hc, (binary_metrics_Ok _ _ _ _ _ _ Hc). reflexivity.
Qed.

(** What a one-shot [y_true] that passes the first validation meets at
    the second one: nothing is left of it. *)
Lemma analyze_threshold_second_read scores rest t pos neg strict yt :
  rest <> [] ->
  _to_list_int (PyList rest) "y_true" = Ok yt ->
  List.length yt = List.length (items scores) ->
  (strict = true -> Forall (fun v => in_labels v pos neg = true) yt) ->
  analyze_threshold scores (Iterator rest) t pos neg strict
  = Raise (ValueError (length_msg 0 (len (items scores)))).
Proof.
  intros Hne Ht Hlen Hall.
  assert (Hc : confusion_counts (PyList rest)
                 (int_list (apply_threshold (items scores) t pos neg))
                 pos neg strict
               = Ok (tally_all pos
                       (combine yt (map IInt (apply_threshold (items scores)
                                                              t pos neg))))).
  { apply confusion_counts_Ok_iff.
    exists yt, (map IInt (apply_threshold (items scores) t pos neg)).
    split; [assumption|]. split; [apply to_list_int_int_list|].
    split; [now rewrite predictions_length|]. split; [|reflexivity].
    intros Hst. apply pair_ok_combine;
      [now rewrite predictions_length | apply predictions_in_labels
      | now apply Hall]. }
  unfold analyze_threshold. cbv zeta. cbn [view spent]. rewrite Hc. cbn [bind].
  unfold binary_metrics.
  rewrite (confusion_counts_materialised (PyList []) _ [] _ pos neg strict
             eq_refl (to_list_int_int_list _ "y_pred")).
  rewrite predictions_length.
  assert (Hn : List.length (items scores) <> 0%nat).
  { unfold _to_list_int in Ht. simpl in Ht. apply check_ints_length in Ht.
    rewrite <- Hlen, Ht. destruct rest; [congruence | discriminate]. }
  cbn [List.length].
  destruct (List.length (items scores)) as [|n] eqn:Hsc; [congruence|].
  cbn [Nat.eqb bind]. unfold len. cbn [List.length].
  now rewrite length_map, apply_threshold_length, Hsc.
Qed.

(** X22: [analyze_threshold] returns exactly when [y_true] yields ints,
    as many as there are scores and, under strict validation, all among
    the two labels, and a second reading of [y_true] finds what the
    first one found: the predictions themselves never fail validation,
    but [y_true] is read twice.  A one-shot [y_true] that is not empty
    and passes the first validation makes the call raise the
    length-mismatch error of the second, with 0 for its length. *)
Theorem analyze_threshold_returns :
  forall (scores : iterable float) (y_true : argument) (t : float)
         (pos neg : Z) (strict : bool),
    ((exists r, analyze_threshold scores y_true t pos neg strict = Ok r)
     <-> (exists yt,
             _to_list_int (view y_true) "y_true" = Ok yt
             /\ List.length yt = List.length (items scores)
             /\ (strict = true ->
                 Forall (fun v => in_labels v pos neg = true) yt)
             /\ spent y_true = y_true))
    /\ (forall yt,
           _to_list_int (view y_true) "y_true" = Ok yt ->
           List.length yt = List.length (items scores) ->
           (strict = true -> Forall (fun v => in_labels v pos neg = true) yt) ->
           spent y_true <> y_true ->
           analyze_threshold scores y_true t pos neg strict
           = Raise (ValueError (length_msg 0 (len (items scores))))).
Proof.
  intros scores y_true t pos neg strict. split; [split|].
  - intros [r H]. apply analyze_threshold_Ok_iff in H.
    destruct H as (yt & Ht & Hlen & Hall & Hs & _). now exists yt.
  - intros (yt & Ht & Hlen & Hall & Hs). eexists.
    apply analyze_threshold_Ok_iff. exists yt. repeat split; assumption.
  - intros yt Ht Hlen Hall Hs.
    destruct y_true as [o | rest]; [now elim Hs|]. simpl in Ht.
    apply (analyze_threshold_second_read _ _ _ _ _ _ yt); try assumption.
    intros ->. now elim Hs.
Qed.

Lemma analyze_threshold_returns_witness :
  analyze_threshold (Sequence [literal 2 10; literal 7 10])
                    (Iterator [PyInt 0; PyInt 1]) (literal 5 10) 1 0 true
  = Raise (ValueError (length_msg 0 2)).
Proof.
  apply (proj2 (analyze_threshold_returns
                  (Sequence [literal 2 10; literal 7 10])
                  (Iterator [PyInt 0; PyInt 1]) (literal 5 10) 1 0 true)
               [IInt 0; IInt 1]).
  - reflexivity.
  - reflexivity.
  - intros _. repeat constructor.
  - discriminate.
Defined.

(** X23: The four fields of a result agree: the threshold is the one given,
    the decisions are one per score and each is one of the two labels,
    the counts add up to the number of scores, and the report is the
    report of these counts, which it also carries under ["counts"]. *)
Theorem analyze_threshold_consistent :
  forall (scores : iterable float) (y_true : argument) (t : float)
         (pos neg : Z) (strict : bool) (r : ThresholdAnalysisResult),
    analyze_threshold scores y_true t pos neg strict = Ok r ->
    threshold r = t
    /\ y_pred r = apply_threshold (items scores) t pos neg
    /\ List.length (y_pred r) = List.length (items scores)
    /\ Forall (fun l => l = pos \/ l = neg) (y_pred r)
    /\ total (counts r) = len (items scores)
    /\ confusion_counts (view y_true) (int_list (y_pred r)) pos neg strict
       = Ok (counts r)
    /\ metrics r = report_of (counts r)
    /\ get "counts" (metrics r)
       = Some (VCounts [("tp", tp (counts r)); ("fp", fp (counts r));
                        ("tn", tn (counts r)); ("fn", fn (counts r))]).
Proof.
  intros scores y_true t pos neg strict r H.
  pose proof (analyze_threshold_Ok_spent _ _ _ _ _ _ _ H) as Hs.
  destruct (analyze_threshold_fields _ _ _ _ _ _ _ H) as (Hth & Hy & Hc & Hm).
  rewrite Hs in Hm.
  rewrite (binary_metrics_Ok _ _ _ _ _ _ Hc) in Hm. injection Hm as Hm.
  split; [assumption|]. split; [assumption|].
  split; [rewrite Hy; apply apply_threshold_length|]. split.
  { rewrite Hy, apply_threshold_map. apply Forall_map, Forall_forall.
    intros s _. unfold label_of. destruct (fgeb s t); auto. }
  split.
  { destruct (confusion_counts_Ok_inv _ _ _ _ _ _ Hc)
      as (yt & yp & Ht & Hp & Hlen & Hcp).
    rewrite to_list_int_int_list in Hp. injection Hp as <-.
    apply count_pairs_total in Hcp. rewrite Hcp. unfold total, len. simpl.
    rewrite length_combine, Hlen, Nat.min_id, length_map, Hy,
      apply_threshold_length. reflexivity. }
  split; [assumption|]. split; [now symmetry|].
  rewrite <- Hm. reflexivity.
Qed.

Lemma analyze_threshold_consistent_witness :
  threshold (mkResult (literal 5 10) [0; 1] (mkCounts 1 0 1 0)
                      (report_of (mkCounts 1 0 1 0)))
  = literal 5 10.
Proof.
  apply (analyze_threshold_consistent (Sequence [literal 2 10; literal 7 10])
                                      (Object (int_list [0; 1]))
                                      (literal 5 10) 1 0 true).
  apply analyze_threshold_Ok_iff. exists [IInt 0; IInt 1].
  split; [reflexivity|]. split; [reflexivity|].
  split; [intros _; repeat constructor|]. split; reflexivity.
Defined.

(** *** The counts as functions of the threshold *)

(** The counts of a result, over the pairs of a true label and a
    score. *)
Lemma analyze_threshold_counts scores y_true t pos neg strict r :
  analyze_threshold scores y_true t pos neg strict = Ok r ->
  exists yt,
    _to_list_int (view y_true) "y_true" = Ok yt
    /\ List.length yt = List.length (items scores)
    /\ counts r
       = mkCounts
           (count_if (fun x => int_eqb (fst x) pos
                               && (label_of t pos neg (snd x) =? pos))
                     (combine yt (items scores)))
           (count_if (fun x => negb (int_eqb (fst x) pos)
                               && (label_of t pos neg (snd x) =? pos))
                     (combine yt (items scores)))
           (count_if (fun x => negb (int_eqb (fst x) pos)
                               && negb (label_of t pos neg (snd x) =? pos))
                     (combine yt (items scores)))
           (count_if (fun x => int_eqb (fst x) pos
                               && negb (label_of t pos neg (snd x) =? pos))
                     (combine yt (items scores)))
    /\ metrics r = report_of (counts r).
Proof.
  intros H. apply analyze_threshold_Ok_iff in H.
  destruct H as (yt & Ht & Hlen & _ & _ & ->).
  exists yt. split; [assumption|]. split; [assumption|].
  split; [|reflexivity]. cbn [counts].
  rewrite tally_all_counts, apply_threshold_map, map_map, combine_map_r,
    !count_if_map.
  reflexivity.
Qed.

Lemma label_of_monotone t1 t2 pos neg s :
  fleb t1 t2 = true ->
  (label_of t2 pos neg s =? pos) = true ->
  (label_of t1 pos neg s =? pos) = true.
Proof.
  intros Ht. unfold label_of. destruct (fgeb s t2) eqn:H2.
  - unfold fgeb in *. now rewrite (fleb_trans t1 t2 s Ht H2).
  - intros H. apply Z.eqb_eq in H. subst neg.
    destruct (fgeb s t1); apply Z.eqb_refl.
Qed.

(** X24: With two distinct labels, the predicted positives [tp + fp] are the
    scores at or above the threshold, and the actual positives [tp + fn]
    are those of [y_true], whatever the threshold. *)
Theorem analyze_threshold_marginals :
  forall (scores : iterable float) (y_true : argument) (t : float)
         (pos neg : Z) (strict : bool) (r : ThresholdAnalysisResult)
         (yt : list int_obj),
    pos <> neg ->
    analyze_threshold scores y_true t pos neg strict = Ok r ->
    _to_list_int (view y_true) "y_true" = Ok yt ->
    tp (counts r) + fp (counts r) = at_least t (items scores)
    /\ tn (counts r) + fn (counts r)
       = len (items scores) - at_least t (items scores)
    /\ tp (counts r) + fn (counts r) = positives pos yt
    /\ tn (counts r) + fp (counts r) = len yt - positives pos yt.
Proof.
  intros sc y_true t pos neg strict r yt Hpn H Ht.
  destruct (analyze_threshold_counts _ _ _ _ _ _ _ H)
    as (yt' & Ht' & Hlen & -> & _).
  rewrite Ht in Ht'. injection Ht' as <-. cbn [tp fp tn fn].
  set (scores := items sc) in *.
  set (T := fun x : int_obj * float => int_eqb (fst x) pos).
  set (P := fun x : int_obj * float => label_of t pos neg (snd x) =? pos).
  pose proof (count_if_split T P (combine yt scores)) as H1.
  pose proof (count_if_split (fun x => negb (T x)) P (combine yt scores)) as H2.
  pose proof (count_if_split P T (combine yt scores)) as H3.
  pose proof (count_if_split (fun x => negb (P x)) T (combine yt scores)) as H4.
  pose proof (count_if_negb T (combine yt scores)) as H5.
  pose proof (count_if_negb P (combine yt scores)) as H6.
  pose proof (count_if_combine_fst (fun v => int_eqb v pos) yt scores Hlen) as H7.
  pose proof (count_if_combine_snd
                (fun s => label_of t pos neg s =? pos) yt scores Hlen) as H8.
  assert (H9 : count_if (fun s => label_of t pos neg s =? pos) scores
               = at_least t scores).
  { unfold at_least. apply count_if_ext. intros s _. unfold label_of.
    destruct (fgeb s t); [apply Z.eqb_refl | now apply Z.eqb_neq, not_eq_sym]. }
  assert (Hl : len (combine yt scores) = len yt /\ len yt = len scores).
  { unfold len. rewrite length_combine, <- Hlen, Nat.min_id. lia. }
  assert (E1 : count_if (fun x => P x && T x) (combine yt scores)
               = count_if (fun x => T x && P x) (combine yt scores)).
  { apply count_if_ext. intros x _. apply andb_comm. }
  assert (E2 : count_if (fun x => P x && negb (T x)) (combine yt scores)
               = count_if (fun x => negb (T x) && P x) (combine yt scores)).
  { apply count_if_ext. intros x _. apply andb_comm. }
  assert (E3 : count_if (fun x => negb (P x) && T x) (combine yt scores)
               = count_if (fun x => T x && negb (P x)) (combine yt scores)).
  { apply count_if_ext. intros x _. apply andb_comm. }
  assert (E4 : count_if (fun x => negb (P x) && negb (T x)) (combine yt scores)
               = count_if (fun x => negb (T x) && negb (P x)) (combine yt scores)).
  { apply count_if_ext. intros x _. apply andb_comm. }
  unfold positives. unfold T, P in *. simpl in *. lia.
Qed.

Lemma analyze_threshold_marginals_witness :
  tp (mkCounts 1 0 1 0) + fp (mkCounts 1 0 1 0)
  = at_least (literal 5 10) [literal 2 10; literal 7 10].
Proof.
  apply (analyze_threshold_marginals
           (Sequence [literal 2 10; literal 7 10]) (Object (int_list [0; 1]))
           (literal 5 10) 1 0 true
           (mkResult (literal 5 10) [0; 1] (mkCounts 1 0 1 0)
                     (report_of (mkCounts 1 0 1 0)))
           [IInt 0; IInt 1]).
  - lia.
  - apply analyze_threshold_Ok_iff. exists [IInt 0; IInt 1].
    split; [reflexivity|]. split; [reflexivity|].
    split; [intros _; repeat constructor|]. split; reflexivity.
  - reflexivity.
Defined.

(** X25: Raising the threshold moves decisions from positive to negative
    only: [tp] and [fp] do not grow, [tn] and [fn] do not shrink, so
    recall and the false positive rate do not grow, and specificity and
    the false negative rate do not shrink. *)
Theorem analyze_threshold_monotone :
  forall (scores : iterable float) (y_true : argument) (t1 t2 : float)
         (pos neg : Z) (strict : bool) (r1 r2 : ThresholdAnalysisResult),
    fleb t1 t2 = true ->
    analyze_threshold scores y_true t1 pos neg strict = Ok r1 ->
    analyze_threshold scores y_true t2 pos neg strict = Ok r2 ->
    tp (counts r2) <= tp (counts r1)
    /\ fp (counts r2) <= fp (counts r1)
    /\ tn (counts r1) <= tn (counts r2)
    /\ fn (counts r1) <= fn (counts r2)
    /\ (exists a b, get_float "recall" (metrics r1) = Some a
                    /\ get_float "recall" (metrics r2) = Some b
                    /\ fleb b a = true)
    /\ (exists a b, get_float "fpr" (metrics r1) = Some a
                    /\ get_float "fpr" (metrics r2) = Some b
                    /\ fleb b a = true)
    /\ (exists a b, get_float "specificity" (metrics r1) = Some a
                    /\ get_float "specificity" (metrics r2) = Some b
                    /\ fleb a b = true)
    /\ (exists a b, get_float "fnr" (metrics r1) = Some a
                    /\ get_float "fnr" (metrics r2) = Some b
                    /\ fleb a b = true).
Proof.
  intros sc y_true t1 t2 pos neg strict r1 r2 Ht H1 H2.
  destruct (analyze_threshold_counts _ _ _ _ _ _ _ H1)
    as (yt & Hyt & Hlen & Hc1 & Hm1).
  destruct (analyze_threshold_counts _ _ _ _ _ _ _ H2)
    as (yt' & Hyt' & _ & Hc2 & Hm2).
  rewrite Hyt in Hyt'. injection Hyt' as <-.
  set (scores := items sc) in *.
  set (T := fun x : int_obj * float => int_eqb (fst x) pos) in *.
  set (P1 := fun x : int_obj * float => label_of t1 pos neg (snd x) =? pos) in *.
  set (P2 := fun x : int_obj * float => label_of t2 pos neg (snd x) =? pos) in *.
  assert (HP : forall x, P2 x = true -> P1 x = true).
  { intros x. apply label_of_monotone, Ht. }
  set (l := combine yt scores) in *.
  assert (Htp : tp (counts r2) <= tp (counts r1)).
  { rewrite Hc1, Hc2. cbn [tp]. apply count_if_le. intros x _. cbv beta.
    fold (T x) (P1 x) (P2 x). specialize (HP x).
    destruct (T x), (P2 x), (P1 x); simpl; auto. }
  assert (Hfp : fp (counts r2) <= fp (counts r1)).
  { rewrite Hc1, Hc2. cbn [fp]. apply count_if_le. intros x _. cbv beta.
    fold (T x) (P1 x) (P2 x). specialize (HP x).
    destruct (T x), (P2 x), (P1 x); simpl; auto. }
  assert (Htn : tn (counts r1) <= tn (counts r2)).
  { rewrite Hc1, Hc2. cbn [tn]. apply count_if_le. intros x _. cbv beta.
    fold (T x) (P1 x) (P2 x). specialize (HP x).
    destruct (T x), (P2 x), (P1 x); simpl; auto. }
  assert (Hfn : fn (counts r1) <= fn (counts r2)).
  { rewrite Hc1, Hc2. cbn [fn]. apply count_if_le. intros x _. cbv beta.
    fold (T x) (P1 x) (P2 x). specialize (HP x).
    destruct (T x), (P2 x), (P1 x); simpl; auto. }
  assert (Hrow : tp (counts r1) + fn (counts r1) = tp (counts r2) + fn (counts r2)).
  { rewrite Hc1, Hc2. cbn [tp fn].
    pose proof (count_if_split T P1 l) as E1.
    pose proof (count_if_split T P2 l) as E2.
    unfold T, P1, P2 in *. simpl in *. lia. }
  assert (Hcol : fp (counts r1) + tn (counts r1) = fp (counts r2) + tn (counts r2)).
  { rewrite Hc1, Hc2. cbn [fp tn].
    pose proof (count_if_split (fun x => negb (T x)) P1 l) as E1.
    pose proof (count_if_split (fun x => negb (T x)) P2 l) as E2.
    unfold T, P1, P2 in *. simpl in *. lia. }
  assert (Hnn : 0 <= tp (counts r2) /\ 0 <= fp (counts r2)
                /\ 0 <= tn (counts r1) /\ 0 <= fn (counts r1)).
  { rewrite Hc1, Hc2. cbn [tp fp tn fn]. repeat split; apply count_if_nonneg. }
  clear Hc1 Hc2.
  repeat (split; [assumption|]).
  rewrite Hm1, Hm2. unfold report_of, get_float. simpl.
  split; [|split; [|split]]; do 2 eexists;
    (split; [reflexivity|]); (split; [reflexivity|]).
  - rewrite Hrow. apply ratio_mono; lia.
  - rewrite Hcol. apply ratio_mono; lia.
  - replace (tn (counts r1) + fp (counts r1))
      with (tn (counts r2) + fp (counts r2)) by lia.
    apply ratio_mono; lia.
  - replace (fn (counts r1) + tp (counts r1))
      with (fn (counts r2) + tp (counts r2)) by lia.
    apply ratio_mono; lia.
Qed.

Lemma analyze_threshold_monotone_witness :
  tp (mkCounts 1 0 1 0) <= tp (mkCounts 1 1 0 0).
Proof.
  apply (analyze_threshold_monotone
           (Sequence [literal 2 10; literal 7 10]) (Object (int_list [0; 1]))
           (literal 1 10) (literal 5 10) 1 0 true
           (mkResult (literal 1 10) [1; 1] (mkCounts 1 1 0 0)
                     (report_of (mkCounts 1 1 0 0)))
           (mkResult (literal 5 10) [0; 1] (mkCounts 1 0 1 0)
                     (report_of (mkCounts 1 0 1 0)))).
  - reflexivity.
  - apply analyze_threshold_Ok_iff. exists [IInt 0; IInt 1].
    split; [reflexivity|]. split; [reflexivity|].
    split; [intros _; repeat constructor|]. split; reflexivity.
  - apply analyze_threshold_Ok_iff. exists [IInt 0; IInt 1].
    split; [reflexivity|]. split; [reflexivity|].
    split; [intros _; repeat constructor|]. split; reflexivity.
Defined.

(** *** Errors do not depend on the threshold *)

Lemma count_pairs_raise_preds pos neg strict yt : forall yp yp' i c c' e,
  List.length yp = List.length yp' ->
  Forall (fun v => in_labels v pos neg = true) yp ->
  Forall (fun v => in_labels v pos neg = true) yp' ->
  count_pairs pos neg strict i (combine yt yp) c = Raise e ->
  count_pairs pos neg strict i (combine yt yp') c' = Raise e.
Proof.
  induction yt as [|t yt IH]; intros [|p yp] [|p' yp'] i c c' e Hlen Hp Hp' H;
    simpl in *; try discriminate.
  inversion Hp as [|? ? Hp1 Hp2]; subst.
  inversion Hp' as [|? ? Hp1' Hp2']; subst.
  rewrite Hp1 in H. rewrite Hp1'.
  destruct (strict && negb (in_labels t pos neg)); [exact H|].
  rewrite andb_false_r in *.
  eapply (IH yp yp'); [congruence | assumption | assumption | exact H].
Qed.

(** What [confusion_counts] raises on the predictions does not depend
    on the threshold. *)
Lemma predictions_raise_any (scores : list float) o t t' pos neg strict e :
  confusion_counts o (int_list (apply_threshold scores t pos neg))
                   pos neg strict = Raise e ->
  confusion_counts o (int_list (apply_threshold scores t' pos neg))
                   pos neg strict = Raise e.
Proof.
  intros H. unfold confusion_counts in *.
  destruct (_to_list_int o "y_true") as [yt | e0]; [|exact H].
  rewrite to_list_int_int_list in *. cbn [bind] in *.
  assert (Hlen : forall th, len (map IInt (apply_threshold scores th pos neg))
                            = len scores).
  { intros th. unfold len. now rewrite predictions_length. }
  rewrite !Hlen in *.
  destruct (negb (len yt =? len scores)); [exact H|].
  eapply count_pairs_raise_preds; [| | |exact H].
  - now rewrite !predictions_length.
  - apply predictions_in_labels.
  - apply predictions_in_labels.
Qed.

Lemma predictions_Ok_any (scores : list float) o t t' pos neg strict c :
  confusion_counts o (int_list (apply_threshold scores t pos neg))
                   pos neg strict = Ok c ->
  exists c',
    confusion_counts o (int_list (apply_threshold scores t' pos neg))
                     pos neg strict = Ok c'.
Proof.
  intros H.
  destruct (confusion_counts o (int_list (apply_threshold scores t' pos neg))
                             pos neg strict) as [c' | e] eqn:H'.
  - now exists c'.
  - apply (predictions_raise_any scores o t' t) in H'. congruence.
Qed.

Lemma binary_metrics_raise y_true y_pred pos neg strict e :
  confusion_counts y_true y_pred pos neg strict = Raise e ->
  binary_metrics y_true y_pred pos neg strict = Raise e.
Proof. intros H. unfold binary_metrics. now rewrite H. Qed.

(** A call raises what the first validation raises, or else what the
    second one does. *)
Lemma analyze_threshold_raise_inv scores y_true t pos neg strict e :
  analyze_threshold scores y_true t pos neg strict = Raise e ->
  confusion_counts (view y_true)
                   (int_list (apply_threshold (items scores) t pos neg))
                   pos neg strict = Raise e
  \/ ((exists c,
          confusion_counts (view y_true)
                           (int_list (apply_threshold (items scores) t pos neg))
                           pos neg strict = Ok c)
      /\ confusion_counts (view (spent y_true))
                          (int_list (apply_threshold (items scores) t pos neg))
                          pos neg strict = Raise e).
Proof.
  unfold analyze_threshold. cbv zeta.
  destruct (confusion_counts (view y_true) _ pos neg strict) as [c | e0] eqn:Hc.
  - cbn [bind].
    destruct (confusion_counts (view (spent y_true)) _ pos neg strict)
      as [c' | e1] eqn:Hc'.
    + rewrite (binary_metrics_Ok _ _ _ _ _ _ Hc'). discriminate.
    + rewrite (binary_metrics_raise _ _ _ _ _ _ Hc'). cbn [bind].
      intros [= <-]. right. split; [now exists c | reflexivity].
  - cbn [bind]. intros [= <-]. now left.
Qed.

Lemma analyze_threshold_raise_any scores y_true t t' pos neg strict e :
  analyze_threshold scores y_true t pos neg strict = Raise e ->
  analyze_threshold scores y_true t' pos neg strict = Raise e.
Proof.
  intros H. apply analyze_threshold_raise_inv in H.
  destruct H as [H | [[c Hc] H]].
  - apply analyze_threshold_raise. now apply (predictions_raise_any _ _ t t').
  - apply (predictions_Ok_any _ _ t t') in Hc. destruct Hc as [c' Hc'].
    apply (predictions_raise_any _ _ t t') in H.
    unfold analyze_threshold. cbv zeta. rewrite Hc'. cbn [bind].
    now rewrite (binary_metrics_raise _ _ _ _ _ _ H).
Qed.

(** X26: Whether [analyze_threshold] raises, and what, does not depend on the
    threshold: an error comes from [y_true] or from its length, and the
    exception is the same at every threshold. *)
Theorem analyze_threshold_error_independent :
  forall (scores : iterable float) (y_true : argument) (t t' : float)
         (pos neg : Z) (strict : bool),
    (forall e, analyze_threshold scores y_true t pos neg strict = Raise e <->
               analyze_threshold scores y_true t' pos neg strict = Raise e)
    /\ ((exists r, analyze_threshold scores y_true t pos neg strict = Ok r) <->
        (exists r, analyze_threshold scores y_true t' pos neg strict = Ok r)).
Proof.
  intros scores y_true t t' pos neg strict. split.
  - intros e. split; apply analyze_threshold_raise_any.
  - split; intros [r H].
    + destruct (analyze_threshold scores y_true t' pos neg strict)
        as [r' | e] eqn:H'; [now exists r'|].
      apply (analyze_threshold_raise_any _ _ t' t) in H'. congruence.
    + destruct (analyze_threshold scores y_true t pos neg strict)
        as [r' | e] eqn:H'; [now exists r'|].
      apply (analyze_threshold_raise_any _ _ t t') in H'. congruence.
Qed.

(** *** Sweeps *)

Lemma sweep_thresholds_each scores y_true ths pos neg strict :
  drained scores = scores -> spent y_true = y_true ->
  sweep_thresholds scores y_true ths pos neg strict
  = each (fun th => analyze_threshold scores y_true th pos neg strict) ths.
Proof.
  intros Hd Hs. unfold sweep_thresholds.
  rewrite (sweep_loop_each _ _ _ _ _ _ Hd Hs).
  destruct (each _ ths); reflexivity.
Qed.

Lemma sweep_thresholds_cons scores y_true th rest pos neg strict :
  sweep_thresholds scores y_true (th :: rest) pos neg strict
  = (r <- analyze_threshold scores y_true th pos neg strict ;;
     rs <- sweep_thresholds (drained scores) (spent y_true) rest pos neg strict ;;
     Ok (r :: rs)).
Proof.
  unfold sweep_thresholds at 1. rewrite sweep_loop_cons.
  now rewrite (sweep_thresholds_each _ _ _ _ _ _
                 (drained_idem scores) (spent_idem y_true)).
Qed.

Lemma each_raise {A B} (f : A -> result B) (l : list A) e :
  each f l = Raise e -> exists a, In a l /\ f a = Raise e.
Proof.
  induction l as [|a l IH]; simpl; [discriminate|].
  destruct (f a) as [b | e0] eqn:Ha; cbn [bind].
  - destruct (each f l) as [bs | e1]; cbn [bind]; [discriminate|].
    intros [= <-]. destruct (IH eq_refl) as (x & Hx & Hfx).
    exists x. split; [now right | assumption].
  - intros [= <-]. exists a. split; [now left | assumption].
Qed.

Lemma each_app {A B} (f : A -> result B) (a b : list A) :
  each f (a ++ b)
  = (ra <- each f a ;; rb <- each f b ;; Ok (ra ++ rb)%list).
Proof.
  induction a as [|x a IH]; simpl.
  - destruct (each f b); reflexivity.
  - destruct (f x); cbn [bind]; [|reflexivity]. rewrite IH.
    destruct (each f a); cbn [bind]; [|reflexivity].
    destruct (each f b); reflexivity.
Qed.

(** Over arguments that a traversal leaves as they were, a sweep raises
    what the analysis of any one of its thresholds raises. *)
Lemma sweep_thresholds_raise_iff scores y_true ths pos neg strict th e :
  In th ths -> drained scores = scores -> spent y_true = y_true ->
  (sweep_thresholds scores y_true ths pos neg strict = Raise e <->
   analyze_threshold scores y_true th pos neg strict = Raise e).
Proof.
  intros Hin Hd Hs. rewrite (sweep_thresholds_each _ _ _ _ _ _ Hd Hs). split.
  - intros H. apply each_raise in H. destruct H as (a & _ & Ha).
    now apply (analyze_threshold_raise_any _ _ a th).
  - intros H. destruct ths as [|a ths]; [destruct Hin|]. simpl.
    now rewrite (analyze_threshold_raise_any _ _ th a _ _ _ _ H).
Qed.

(** X27: A sweep is all or nothing once its arguments are as a traversal
    leaves them.  Over [scores] and [y_true] that can be traversed
    again, and a non-empty sequence of thresholds, it raises exactly
    what [analyze_threshold] raises at any one of them, and returns
    exactly when the analysis of any one of them returns.  Whatever the
    arguments, one-shot iterators included, a sweep over more than two
    thresholds raises exactly what the sweep over the first two raises:
    it fails at the first threshold, at the second, or not at all. *)
Theorem sweep_thresholds_all_or_nothing :
  forall (scores : iterable float) (y_true : argument) (ths : list float)
         (pos neg : Z) (strict : bool),
    (forall th,
        In th ths -> drained scores = scores -> spent y_true = y_true ->
        (forall e, sweep_thresholds scores y_true ths pos neg strict = Raise e <->
                   analyze_threshold scores y_true th pos neg strict = Raise e)
        /\ ((exists rs, sweep_thresholds scores y_true ths pos neg strict = Ok rs) <->
            (exists r, analyze_threshold scores y_true th pos neg strict = Ok r)))
    /\ (forall th1 th2 rest,
           ths = th1 :: th2 :: rest ->
           (forall e, sweep_thresholds scores y_true ths pos neg strict = Raise e <->
                      sweep_thresholds scores y_true [th1; th2] pos neg strict
                      = Raise e)
           /\ ((exists rs, sweep_thresholds scores y_true ths pos neg strict = Ok rs) <->
               (exists rs, sweep_thresholds scores y_true [th1; th2] pos neg strict
                           = Ok rs))).
Proof.
  intros scores y_true ths pos neg strict. split.
  - intros th Hin Hd Hs.
    pose proof (fun e => sweep_thresholds_raise_iff
                           scores y_true ths pos neg strict th e Hin Hd Hs)
      as Hraise.
    split; [exact Hraise|]. split.
    + intros [rs H].
      destruct (analyze_threshold scores y_true th pos neg strict)
        as [r | e] eqn:Hr; [now exists r|].
      pose proof (proj2 (Hraise e) eq_refl). congruence.
    + intros [r H].
      destruct (sweep_thresholds scores y_true ths pos neg strict)
        as [rs | e] eqn:Hrs; [now exists rs|].
      pose proof (proj1 (Hraise e) eq_refl). congruence.
  - intros th1 th2 rest ->.
    assert (Hraise : forall e,
      sweep_thresholds scores y_true (th1 :: th2 :: rest) pos neg strict = Raise e
      <-> sweep_thresholds scores y_true [th1; th2] pos neg strict = Raise e).
    { intros e. rewrite !(sweep_thresholds_cons scores y_true th1).
      destruct (analyze_threshold scores y_true th1 pos neg strict) as [r | e0];
        cbn [bind]; [|reflexivity].
      pose proof (fun l H => sweep_thresholds_raise_iff
                    (drained scores) (spent y_true) l pos neg strict th2 e H
                    (drained_idem scores) (spent_idem y_true)) as Hany.
      pose proof (Hany (th2 :: rest) (or_introl eq_refl)) as H1.
      pose proof (Hany [th2] (or_introl eq_refl)) as H2.
      destruct (sweep_thresholds (drained scores) (spent y_true) (th2 :: rest)
                                 pos neg strict) as [rs | e1];
        destruct (sweep_thresholds (drained scores) (spent y_true) [th2]
                                   pos neg strict) as [rs' | e2]; cbn [bind].
      - split; discriminate.
      - split; [discriminate|]. intros [= ->].
        pose proof (proj2 H1 (proj1 H2 eq_refl)). discriminate.
      - split; [|discriminate]. intros [= ->].
        pose proof (proj2 H2 (proj1 H1 eq_refl)). discriminate.
      - split; intros [= ->].
        + now rewrite (proj2 H2 (proj1 H1 eq_refl)).
        + now rewrite (proj2 H1 (proj1 H2 eq_refl)). }
    split; [exact Hraise|]. split.
    + intros [rs H].
      destruct (sweep_thresholds scores y_true [th1; th2] pos neg strict)
        as [rs' | e] eqn:Hr; [now exists rs'|].
      pose proof (proj2 (Hraise e) eq_refl). congruence.
    + intros [rs H].
      destruct (sweep_thresholds scores y_true (th1 :: th2 :: rest) pos neg strict)
        as [rs' | e] eqn:Hr; [now exists rs'|].
      pose proof (proj1 (Hraise e) eq_refl). congruence.
Qed.

Lemma sweep_thresholds_all_or_nothing_witness :
  (forall e,
      sweep_thresholds (Sequence [literal 2 10]) (Object (int_list [0; 1]))
                       [literal 5 10; literal 7 10] 1 0 true = Raise e <->
      analyze_threshold (Sequence [literal 2 10]) (Object (int_list [0; 1]))
                        (literal 7 10) 1 0 true = Raise e)
  /\ ((exists rs,
          sweep_thresholds (Sequence [literal 2 10]) (Object (int_list [0; 1]))
                           [literal 5 10; literal 7 10] 1 0 true = Ok rs) <->
      (exists r,
          analyze_threshold (Sequence [literal 2 10]) (Object (int_list [0; 1]))
                            (literal 7 10) 1 0 true = Ok r)).
Proof.
  apply (proj1 (sweep_thresholds_all_or_nothing
                  (Sequence [literal 2 10]) (Object (int_list [0; 1]))
                  [literal 5 10; literal 7 10] 1 0 true)).
  - simpl. right. left. reflexivity.
  - reflexivity.
  - reflexivity.
Defined.

(** X28: The sweep of a concatenation is the sweep of the first part followed
    by the sweep of the second on the arguments as the first part has
    left them: as given when the first part is empty, as a traversal
    leaves them otherwise.  Over [scores] and [y_true] that can be
    traversed again, neither part influences the results of the
    other. *)
Theorem sweep_thresholds_app :
  forall (scores : iterable float) (y_true : argument) (a b : list float)
         (pos neg : Z) (strict : bool),
    sweep_thresholds scores y_true (a ++ b) pos neg strict
    = (ra <- sweep_thresholds scores y_true a pos neg strict ;;
       rb <- sweep_thresholds (match a with [] => scores | _ => drained scores end)
                              (match a with [] => y_true | _ => spent y_true end)
                              b pos neg strict ;;
       Ok (ra ++ rb)%list)
    /\ (drained scores = scores -> spent y_true = y_true ->
        sweep_thresholds scores y_true (a ++ b) pos neg strict
        = (ra <- sweep_thresholds scores y_true a pos neg strict ;;
           rb <- sweep_thresholds scores y_true b pos neg strict ;;
           Ok (ra ++ rb)%list)).
Proof.
  intros scores y_true a b pos neg strict.
  assert (Hstable : forall sc y,
    drained sc = sc -> spent y = y ->
    sweep_thresholds sc y (a ++ b) pos neg strict
    = (ra <- sweep_thresholds sc y a pos neg strict ;;
       rb <- sweep_thresholds sc y b pos neg strict ;;
       Ok (ra ++ rb)%list)).
  { intros sc y Hd Hs. rewrite !(sweep_thresholds_each _ _ _ _ _ _ Hd Hs).
    apply each_app. }
  split; [|now apply Hstable].
  destruct a as [|th a].
  - simpl. now destruct (sweep_thresholds scores y_true b pos neg strict).
  - simpl app. rewrite !sweep_thresholds_cons.
    destruct (analyze_threshold scores y_true th pos neg strict) as [r | e];
      cbn [bind]; [|reflexivity].
    rewrite !(sweep_thresholds_each _ _ _ _ _ _
                (drained_idem scores) (spent_idem y_true)).
    rewrite each_app.
    destruct (each _ a) as [ra | e]; cbn [bind]; [|reflexivity].
    destruct (each _ b) as [rb | e]; reflexivity.
Qed.

End CoreMore.

(* ================================================================= *)
(** ** The scenarios of the specification and of the test suite *)

Module Scenarios.

Import Thresholds Metrics Report Core Spec Derived.

(** Scenario 1: a perfect classification. *)
Example scenario_perfect :
  exists r,
    analyze_threshold (Sequence [literal 2 10; literal 7 10; literal 4 10;
                                 literal 9 10])
                      (Object (int_list [0; 1; 0; 1])) (literal 5 10) 1 0 true
    = Ok r
    /\ y_pred r = [0; 1; 0; 1]
    /\ counts r = mkCounts 2 0 2 0
    /\ Forall (fun key => get_float key (metrics r) = Some fone)
              ["accuracy"; "precision"; "recall"; "specificity"; "f1"].
Proof.
  eexists. split; [vm_compute; reflexivity|].
  repeat split; repeat constructor.
Qed.

(** Scenario 2: a score equal to the threshold is positive. *)
Example scenario_equality :
  exists r,
    analyze_threshold (Sequence [literal 5 10]) (Object (int_list [1]))
                      (literal 5 10) 1 0 true = Ok r
    /\ y_pred r = [1] /\ counts r = mkCounts 1 0 0 0.
Proof. eexists. split; [vm_compute; reflexivity|]. split; reflexivity. Qed.

(** Scenario 4: a sweep keeps the order of its thresholds. *)
Example scenario_sweep :
  exists rs,
    sweep_thresholds (Sequence [literal 2 10; literal 7 10; literal 4 10])
                     (Object (int_list [0; 1; 0]))
                     [literal 3 10; literal 5 10; literal 9 10] 1 0 true = Ok rs
    /\ map threshold rs = [literal 3 10; literal 5 10; literal 9 10]
    /\ map y_pred rs = [[0; 1; 1]; [0; 1; 0]; [0; 0; 0]].
Proof. eexists. split; [vm_compute; reflexivity|]. split; reflexivity. Qed.

(** A sweep neither sorts nor removes duplicates. *)
Example scenario_sweep_unsorted :
  exists rs,
    sweep_thresholds (Sequence [literal 2 10; literal 7 10])
                     (Object (int_list [0; 1]))
                     [literal 9 10; literal 3 10; literal 9 10] 1 0 true = Ok rs
    /\ map threshold rs = [literal 9 10; literal 3 10; literal 9 10].
Proof. eexists. split; [vm_compute; reflexivity|]. reflexivity. Qed.

(** Scenario 5: no positive prediction. *)
Example scenario_all_negative :
  exists m,
    binary_metrics (int_list [1; 0; 1; 0]) (int_list [0; 0; 0; 0]) 1 0 true = Ok m
    /\ get "counts" m = Some (VCounts [("tp", 0); ("fp", 0); ("tn", 2); ("fn", 2)])
    /\ get_float "precision" m = Some fzero
    /\ get_float "recall" m = Some fzero
    /\ get_float "specificity" m = Some fone.
Proof. eexists. split; [vm_compute; reflexivity|]. repeat split. Qed.

(** The known values of the test suite: every ratio of the counts
    (1, 1, 1, 1) is 0.5. *)
Example scenario_halves :
  exists m,
    metrics_from_counts (mkCounts 1 1 1 1) = Ok m
    /\ Forall (fun key => get_float key m = Some (literal 5 10))
              ["accuracy"; "precision"; "recall"; "specificity"; "f1"].
Proof. eexists. split; [vm_compute; reflexivity|]. repeat constructor. Qed.

(** Labels other than 0 and 1. *)
Example scenario_custom_labels :
  apply_threshold [literal 2 10; literal 7 10] (literal 5 10) 9 (-9) = [-9; 9]
  /\ confusion_counts (int_list [9; -9; 9; -9]) (int_list [9; 9; -9; -9]) 9 (-9) true
     = Ok (mkCounts 1 1 1 1).
Proof. split; reflexivity. Qed.

(** A negative threshold. *)
Example scenario_negative_threshold :
  apply_threshold [literal (-1) 1; literal (-2) 10; fzero] (literal (-2) 10) 1 0
  = [0; 1; 1].
Proof. reflexivity. Qed.

(** A NaN score is never positive. *)
Example scenario_nan :
  apply_threshold [S754_nan] (literal 5 10) 1 0 = [0]
  /\ apply_threshold [literal 5 10] S754_nan 1 0 = [0].
Proof. split; reflexivity. Qed.

(** A strict label error names the first foreign label; a bool is an
    int, a float is not. *)
Example scenario_errors :
  confusion_counts (int_list [2]) (int_list [1]) 1 0 true
  = Raise (ValueError "y_true[0]=2 is not in {0, 1}.")
  /\ confusion_counts (int_list [1; 0]) (int_list [1]) 1 0 true
     = Raise (ValueError "y_true and y_pred must have the same length. Got 2 and 1.")
  /\ confusion_counts (PyList [PyInt 1; PyFloat two]) (int_list [1; 1]) 1 0 true
     = Raise (TypeError "y_true[1] must be int, got float.")
  /\ confusion_counts (PyList [PyBool true; PyInt 0]) (int_list [1; 1]) 1 0 true
     = Ok (mkCounts 1 1 0 0)
  /\ confusion_counts PyNone (int_list [1; 1]) 1 0 true
     = Raise (TypeError "y_true must be an iterable of ints.").
Proof. repeat split. Qed.

(** One-shot iterators.  [apply_threshold] traverses its scores once:
    a generator does as well as a list.  [analyze_threshold] reads
    [y_true] twice: a generator of valid labels passes the first
    validation and is found empty by the second.  [sweep_thresholds]
    traverses [scores] once per threshold: a generator of scores serves
    the first threshold and is found empty at the second. *)
Example scenario_one_shot :
  apply_threshold (items (OneShot [literal 1 10; literal 6 10; literal 5 10]))
                  (literal 5 10) 1 0 = [0; 1; 1]
  /\ analyze_threshold (Sequence [literal 2 10; literal 7 10])
                       (Iterator [PyInt 0; PyInt 1]) (literal 5 10) 1 0 true
     = Raise (ValueError "y_true and y_pred must have the same length. Got 0 and 2.")
  /\ (exists r,
         analyze_threshold (OneShot [literal 2 10; literal 7 10])
                           (Object (int_list [0; 1])) (literal 5 10) 1 0 true
         = Ok r
         /\ y_pred r = [0; 1])
  /\ sweep_thresholds (OneShot [literal 2 10; literal 7 10])
                      (Object (int_list [0; 1]))
                      [literal 3 10; literal 5 10] 1 0 true
     = Raise (ValueError "y_true and y_pred must have the same length. Got 2 and 0.")
  /\ (exists rs,
         sweep_thresholds (OneShot [literal 2 10; literal 7 10])
                          (Object (int_list [0; 1])) [literal 5 10] 1 0 true
         = Ok rs
         /\ map y_pred rs = [[0; 1]])
  /\ sweep_thresholds (OneShot []) (Iterator [])
                      [literal 3 10; literal 5 10] 1 0 true
     = Ok [mkResult (literal 3 10) [] (mkCounts 0 0 0 0)
                    (report_of (mkCounts 0 0 0 0));
           mkResult (literal 5 10) [] (mkCounts 0 0 0 0)
                    (report_of (mkCounts 0 0 0 0))].
Proof.
  split; [reflexivity|]. split; [vm_compute; reflexivity|].
  split; [eexists; split; [vm_compute; reflexivity | reflexivity]|].
  split; [vm_compute; reflexivity|].
  split; [eexists; split; [vm_compute; reflexivity | reflexivity]|].
  vm_compute. reflexivity.
Qed.

End Scenarios.
